(** * Verification of api_apply_classifier_single_node.py

    A shallow embedding of [add_classification_categories],
    [classify_boxes] and [load_and_run_classifier]
    (src/classification/api/api_apply_classifier_single_node.py)
    and the properties of the class vocabulary, the box selection, the
    crop geometry, the top-K merge, the batch loop and the driver.

    Numbers.  The script computes on IEEE-754 binary64 values (Python
    [float], NumPy [float64]).  They are modelled by the Standard
    Library's executable specification of binary floating point
    ([SpecFloat], at precision 53 and maximal exponent 1024), so that
    every evaluation below is the bit-exact value NumPy computes and every
    theorem on the geometry holds with the rounding included. *)

From Stdlib Require Import ZArith Lia Floats.SpecFloat.
From stdpp Require Import base list strings pretty.
From Stdlib Require Import Ascii.

Local Open Scope Z_scope.

(** ** Numbers *)

Abbreviation float := spec_float.

(** The value a float64 -> int64 cast yields on x86-64 when the operand is
    NaN, infinite or out of range ("integer indefinite"). *)
Definition INT64_MIN : Z := - 2 ^ 63.

Definition int64_cast (t : Z) : Z :=
  if (INT64_MIN <=? t) && (t <? 2 ^ 63) then t else INT64_MIN.

(** The arithmetic the script uses on box coordinates and scores.
    [ge a b] is [a >= b], [lt a b] is [a < b]; [astype_int] is NumPy's
    [.astype(int)] (a C cast to int64). *)
Module F64.

Definition prec : Z := 53.
Definition emax : Z := 1024.

(** A float as JSON or NumPy hands it over: a canonical binary64. *)
Definition valid (x : float) : bool := valid_binary prec emax x.

(** Conversion of an [int]. *)
Definition of_int (z : Z) : float := binary_normalize prec emax z 0 false.

(** A decimal literal [n / d] (for instance 1.6 is [lit 16 10]): the
    correctly rounded quotient is the double nearest to the decimal. *)
Definition lit (n d : Z) : float := SFdiv prec emax (of_int n) (of_int d).

Definition add : float → float → float := SFadd prec emax.
Definition sub : float → float → float := SFsub prec emax.
Definition mul : float → float → float := SFmul prec emax.
Definition div : float → float → float := SFdiv prec emax.
Definition neg : float → float := SFopp.
Definition lt : float → float → bool := SFltb.
Definition ge (a b : float) : bool := SFleb b a.

Definition isnan (x : float) : bool :=
  match x with S754_nan => true | _ => false end.

(** Truncation toward zero of a finite value. *)
Definition trunc (x : float) : option Z :=
  match x with
  | S754_zero _ => Some 0
  | S754_finite s m e => Some (cond_Zopp s (Z.shiftl (Zpos m) e))
  | _ => None
  end.

Definition astype_int (x : float) : Z :=
  match trunc x with
  | Some t => int64_cast t
  | None => INT64_MIN
  end.

End F64.

(** ** Crop geometry (classify_boxes, lines 171-189) *)

(** A detection box, [[x_min, y_min, width_of_box, height_of_box]] in
    coordinates relative to the image size. *)
Record Box := BBox {
  x_min : float;
  y_min : float;
  width_of_box : float;
  height_of_box : float
}.

(** A row [[ymin, xmin, ymax, xmax]] of one of the script's 1x4 arrays. *)
Record row4 (A : Type) := Row4 { r_ymin : A; r_xmin : A; r_ymax : A; r_xmax : A }.
Arguments Row4 {A} _ _ _ _.
Arguments r_ymin {A} _.
Arguments r_xmin {A} _.
Arguments r_ymax {A} _.
Arguments r_xmax {A} _.

(** [np.maximum] (and the reduction [np.max]) on two floats:
    [(a >= b || isnan(a)) ? a : b]. *)
Definition maximum (a b : float) : float :=
  if F64.ge a b || F64.isnan a then a else b.

(** [np.array([[box_orig[1], box_orig[0], box_orig[1]+box_orig[3],
    box_orig[0]+box_orig[2]]])] *)
Definition box_coords (box_orig : Box) : row4 float :=
  Row4 (y_min box_orig) (x_min box_orig)
       (F64.add (y_min box_orig) (height_of_box box_orig))
       (F64.add (x_min box_orig) (width_of_box box_orig)).

(** [box_coords * np.tile([image_height, image_width], (1,2))] *)
Definition box_coords_abs (image_height image_width : Z) (box_orig : Box) : row4 float :=
  let c := box_coords box_orig in
  Row4 (F64.mul (r_ymin c) (F64.of_int image_height))
       (F64.mul (r_xmin c) (F64.of_int image_width))
       (F64.mul (r_ymax c) (F64.of_int image_height))
       (F64.mul (r_xmax c) (F64.of_int image_width)).

(** [bbox_sizes]: the pair (height, width) of the box in pixels. *)
Definition bbox_sizes (a : row4 float) : float * float :=
  (F64.sub (r_ymax a) (r_ymin a), F64.sub (r_xmax a) (r_xmin a)).

(** [padding_factor * np.max(bbox_sizes, axis=1, keepdims=True)] *)
Definition target_side (padding_factor : float) (sizes : float * float) : float :=
  F64.mul padding_factor (maximum (fst sizes) (snd sizes)).

(** [offsets = (padding_factor * np.max(...) - bbox_sizes) / 2] *)
Definition offsets (padding_factor : float) (sizes : float * float) : float * float :=
  let t := target_side padding_factor sizes in
  (F64.div (F64.sub t (fst sizes)) (F64.of_int 2),
   F64.div (F64.sub t (snd sizes)) (F64.of_int 2)).

(** [crop_boxes = box_coords_abs + np.hstack([-offsets, offsets])],
    before clamping. *)
Definition padded_boxes (padding_factor : float) (a : row4 float) : row4 float :=
  let o := offsets padding_factor (bbox_sizes a) in
  Row4 (F64.add (r_ymin a) (F64.neg (fst o))) (F64.add (r_xmin a) (F64.neg (snd o)))
       (F64.add (r_ymax a) (fst o)) (F64.add (r_xmax a) (snd o)).

(** [np.maximum(0, x).astype(int)] on one coordinate. *)
Definition clamp_int (x : float) : Z := F64.astype_int (maximum (F64.of_int 0) x).

(** [crop_box]: the integer row [[y0, x0, y1, x1]] used to slice the image. *)
Definition crop_box (image_height image_width : Z) (padding_factor : float)
    (box_orig : Box) : row4 Z :=
  let p := padded_boxes padding_factor (box_coords_abs image_height image_width box_orig) in
  Row4 (clamp_int (r_ymin p)) (clamp_int (r_xmin p))
       (clamp_int (r_ymax p)) (clamp_int (r_xmax p)).

(** ** The detection result (the JSON object) *)

(** One entry [['%i' % class_idx, score]] of a [classifications] list. *)
Definition ClassificationResult : Type := string * float.

(** An element of [images[i]['detections']]. The field [classifications]
    is optional: [None] is an absent key. *)
Record Detection := mkDetection {
  category : string;
  conf : float;
  bbox : Box;
  classifications : option (list ClassificationResult)
}.

Record ImageRecord := mkImageRecord {
  file : string;
  detections : list Detection
}.

(** The root object. [classification_categories] maps '%i' % idx to a
    class name, in insertion order; [None] is an absent key. *)
Record DetectionResult := mkDetectionResult {
  classification_categories : option (list (string * string));
  images : list ImageRecord
}.

Definition set_classifications (v : list ClassificationResult) (d : Detection) : Detection :=
  mkDetection (category d) (conf d) (bbox d) (Some v).

Definition set_detections (ds : list Detection) (im : ImageRecord) : ImageRecord :=
  mkImageRecord (file im) ds.

Definition set_images (ims : list ImageRecord) (j : DetectionResult) : DetectionResult :=
  mkDetectionResult (classification_categories j) ims.

(** ** Exceptions and the in-place store *)

Inductive exception :=
  | AssertionError
  | IndexError
  | IOError
  | RuntimeError (what : string).

Inductive result (A : Type) :=
  | Ok (a : A)
  | Exc (e : exception).
Arguments Ok {A} _.
Arguments Exc {A} _.

(** A computation on the JSON object, which is mutated in place: when an
    exception is raised the mutations made so far remain. *)
Definition M (A : Type) : Type := DetectionResult → result A * DetectionResult.

#[export] Instance M_ret : MRet M := λ A a s, (Ok a, s).
#[export] Instance M_bind : MBind M := λ A B k m s,
  match m s with
  | (Ok a, s') => k a s'
  | (Exc e, s') => (Exc e, s')
  end.

Definition raise {A} (e : exception) : M A := λ s, (Exc e, s).
Definition get : M DetectionResult := λ s, (Ok s, s).
Definition modify (f : DetectionResult → DetectionResult) : M unit := λ s, (Ok tt, f s).

(** [for i in idx: body(i)] *)
Fixpoint for_each {A} (idx : list A) (body : A → M unit) : M unit :=
  match idx with
  | [] => mret tt
  | i :: rest => body i ;; for_each rest body
  end.

(** [range(n)] *)
Definition range (n : nat) : list nat := seq 0 n.

(** [json_with_classes['images'][iImage]] *)
Definition get_image (iImage : nat) : M ImageRecord :=
  j ← get;
  match images j !! iImage with
  | Some im => mret im
  | None => raise IndexError
  end.

(** In-place update of the object [images[iImage]['detections'][iBox]]
    ([cur_detection] is a reference to it). *)
Definition update_detection (iImage iBox : nat) (f : Detection → Detection) : M unit :=
  modify (λ j, set_images
    (alter (λ im, set_detections (alter f iBox (detections im)) im) iImage (images j)) j).

(** ** Python and NumPy primitives *)

(** Index normalisation of a slice bound on an axis of length [n]
    (negative bounds count from the end, then both are clipped). *)
Definition slice_adjust (n : nat) (i : Z) : Z :=
  if i <? 0 then Z.max 0 (i + Z.of_nat n) else Z.min i (Z.of_nat n).

(** [l[:stop]] *)
Definition slice_to {A} (l : list A) (stop : Z) : list A :=
  take (Z.to_nat (slice_adjust (length l) stop)) l.

(** [os.path.join(a, b)] (POSIX). *)
Definition path_join (a b : string) : string :=
  if String.prefix "/" b then b
  else if String.eqb a "" || String.eqb (String.substring (String.length a - 1) 1 a) "/"
       then a +:+ b
       else a +:+ "/" +:+ b.

(** A decoded image: [image_data.shape] and its pixels. *)
Record Image (pixels : Type) := mkImage {
  image_height : Z;
  image_width : Z;
  image_data : pixels
}.
Arguments mkImage {pixels} _ _ _.
Arguments image_height {pixels} _.
Arguments image_width {pixels} _.
Arguments image_data {pixels} _.

(** [image_data[y0:y1, x0:x1]]: the source pixels and the row and column
    ranges [[start, stop)] that the slice really selects. *)
Record CroppedImage (pixels : Type) := mkCrop {
  crop_source : pixels;
  crop_rows : Z * Z;
  crop_cols : Z * Z
}.
Arguments mkCrop {pixels} _ _ _.
Arguments crop_source {pixels} _.
Arguments crop_rows {pixels} _.
Arguments crop_cols {pixels} _.

Definition slice_image {pixels} (img : Image pixels) (c : row4 Z) : CroppedImage pixels :=
  let h := Z.to_nat (image_height img) in
  let w := Z.to_nat (image_width img) in
  mkCrop (image_data img)
    (slice_adjust h (r_ymin c), slice_adjust h (r_ymax c))
    (slice_adjust w (r_xmin c), slice_adjust w (r_xmax c)).

(** What [np.argsort(v)] guarantees for its default [kind='quicksort']
    (documented as not stable): the result is a permutation of the
    indices of [v] along which no value is followed by a smaller one. *)
Definition argsort_spec (v : list float) (idx : list nat) : Prop :=
  idx ≡ₚ seq 0 (length v) ∧
  ∀ i j a b x y, (i < j)%nat → idx !! i = Some a → idx !! j = Some b →
    v !! a = Some x → v !! b = Some y → F64.lt y x = false.

(** [str.splitlines()] on text whose characters are below U+0100: a line
    ends at LF, CR, CR LF, VT, FF, FS, GS, RS or NEL, and a line boundary
    at the very end opens no further line. [cur] is the current line,
    reversed; [after_cr] tells that the previous character was a CR. *)
Definition is_line_boundary (c : Ascii.ascii) : bool :=
  bool_decide (Ascii.nat_of_ascii c ∈ [10; 11; 12; 13; 28; 29; 30; 133]%nat).

Fixpoint splitlines_go (s cur : string) (after_cr : bool) : list string :=
  match s with
  | EmptyString => if String.eqb cur "" then [] else [String.rev cur]
  | String c rest =>
      if after_cr && Ascii.eqb c "010"%char then splitlines_go rest cur false
      else if is_line_boundary c
           then String.rev cur :: splitlines_go rest "" (Ascii.eqb c "013"%char)
           else splitlines_go rest (String c cur) false
  end.

Definition splitlines (s : string) : list string := splitlines_go s "" false.

(** [str.strip()]: whitespace is removed at both ends. *)
Definition is_whitespace (c : Ascii.ascii) : bool :=
  bool_decide (Ascii.nat_of_ascii c ∈ [9; 10; 11; 12; 13; 28; 29; 30; 31; 32; 133; 160]%nat).

Fixpoint lstrip (s : string) : string :=
  match s with
  | String c rest => if is_whitespace c then lstrip rest else s
  | EmptyString => EmptyString
  end.

Definition strip (s : string) : string := String.rev (lstrip (String.rev (lstrip s))).

(** Assignment [d[k] = v] on a dict kept in insertion order. *)
Fixpoint dict_set (k v : string) (d : list (string * string)) : list (string * string) :=
  match d with
  | [] => [(k, v)]
  | (k', v') :: d' => if String.eqb k' k then (k, v) :: d' else (k', v') :: dict_set k v d'
  end.

(** [enumerate(l)] *)
Definition enumerate {A} (l : list A) : list (nat * A) := zip (seq 0 (length l)) l.

(** ** Module constants *)

Definition DEFAULT_CONFIDENCE_THRESHOLD : float := F64.lit 85 100.
Definition NUM_ANNOTATED_CLASSES : Z := 3.
Definition PADDING_FACTOR : float := F64.lit 16 10.
Definition DETECTION_CATEGORY_WHITELIST : list string := ["1"].

(** ** add_classification_categories (lines 59-92) *)

Section AddCategories.
(** [open(classes_file, 'rt').read()]: [None] when the file cannot be read. *)
Variable read_text : string → option string.

Definition set_categories (c : list (string * string)) : M unit :=
  modify (λ j, mkDetectionResult (Some c) (images j)).

Definition add_category (k v : string) : M unit :=
  modify (λ j, mkDetectionResult
    (Some (dict_set k v (default [] (classification_categories j)))) (images j)).

Definition add_classification_categories (classes_file : string) : M unit :=
  json_object ← get;
  match classification_categories json_object with
  | None =>
      match read_text classes_file with
      | None => raise IOError
      | Some text =>
          let class_names := splitlines text in
          let class_names :=
            filter (λ cn, bool_decide (strip cn ≠ "")) class_names in
          set_categories [] ;;
          for_each (enumerate class_names)
            (λ p, add_category (pretty (fst p)) (snd p))
      end
  | Some _ => mret tt
  end.
End AddCategories.

(** ** classify_boxes (lines 95-210) *)

(** Skip if already classified:
    ['classifications' in cur_detection.keys() and len(...) > 0]. *)
Definition already_classified (d : Detection) : bool :=
  match classifications d with
  | Some (_ :: _) => true
  | _ => false
  end.

(** [cur_detection['classifications'].append(e)] *)
Definition append_classification (e : ClassificationResult) (d : Detection) : Detection :=
  set_classifications (default [] (classifications d) ++ [e]) d.

Definition lift_result {A} (r : result A) : M A :=
  match r with
  | Ok a => mret a
  | Exc e => raise e
  end.

Section ClassifyBoxes.
(** The collaborators: the image loader of the [try] block
    ([None] when opening or decoding raises), the classifier session
    ([sess.run], which may raise) and [np.argsort].

    Scope: [detection_category_whitelist] is a list of strings by its
    type, so the assertions of lines 120-121 hold; the session and its
    two tensors (lines 123-130) are taken to exist; an interrupt from the
    keyboard while an image loads (lines 147-148), which would leave the
    function, is not modelled. *)
Context {pixels : Type}.
Variable load_image : string → option (Image pixels).
Variable sess_run : CroppedImage pixels → result (list float).
Variable argsort : list float → list nat.

(** The arguments of [classify_boxes] besides the JSON object. *)
Variable image_dir : string.
Variable confidence_threshold : float.
Variable detection_category_whitelist : list string.
Variable padding_factor : float.
Variable num_annotated_classes : Z.

(** The three [continue] guards of the box loop, negated. *)
Definition should_classify (cur_detection : Detection) : bool :=
  negb (F64.lt (conf cur_detection) confidence_threshold)
  && bool_decide (category cur_detection ∈ detection_category_whitelist)
  && negb (already_classified cur_detection).

(** [image_data[crop_box[0]:crop_box[2], crop_box[1]:crop_box[3]]] *)
Definition cropped_img (img : Image pixels) (cur_detection : Detection) : CroppedImage pixels :=
  slice_image img
    (crop_box (image_height img) (image_width img) padding_factor (bbox cur_detection)).

(** [np.argsort(-predictions)[:num_annotated_classes]] *)
Definition top_classes (predictions : list float) : list nat :=
  slice_to (argsort (map F64.neg predictions)) num_annotated_classes.

(** The body of the box loop (lines 157-200). *)
Definition process_box (img : Image pixels) (iImage iBox : nat) : M unit :=
  image_description ← get_image iImage;
  match detections image_description !! iBox with
  | None => raise IndexError
  | Some cur_detection =>
      if F64.lt (conf cur_detection) confidence_threshold then mret tt
      else if negb (bool_decide (category cur_detection ∈ detection_category_whitelist))
      then mret tt
      else if already_classified cur_detection then mret tt
      else
        predictions ← lift_result (sess_run (cropped_img img cur_detection));
        update_detection iImage iBox (set_classifications []) ;;
        for_each (top_classes predictions) (λ class_idx,
          match predictions !! class_idx with
          | Some score =>
              update_detection iImage iBox
                (append_classification (pretty class_idx, score))
          | None => raise IndexError
          end)
  end.

Definition image_path (image_description : ImageRecord) : string :=
  if String.eqb image_dir "" then file image_description
  else path_join image_dir (file image_description).

(** The body of the image loop (lines 136-200): a failed load is
    reported and the image skipped. *)
Definition process_image (iImage : nat) : M unit :=
  image_description ← get_image iImage;
  match load_image (image_path image_description) with
  | None => mret tt
  | Some img =>
      let nDetections := length (detections image_description) in
      for_each (range nDetections) (process_box img iImage)
  end.

Definition classify_boxes : M unit :=
  json_with_classes ← get;
  match classification_categories json_with_classes with
  | None => raise AssertionError
  | Some _ =>
      let nImages := length (images json_with_classes) in
      for_each (range nImages) process_image
  end.

(** *** The same run, detection by detection

    What one iteration of the box loop does to its detection, and the
    exception it ends with, if any. *)
Fixpoint append_all (predictions : list float) (idx : list nat)
    (acc : list ClassificationResult) : option exception * list ClassificationResult :=
  match idx with
  | [] => (None, acc)
  | class_idx :: rest =>
      match predictions !! class_idx with
      | Some score => append_all predictions rest (acc ++ [(pretty class_idx, score)])
      | None => (Some IndexError, acc)
      end
  end.

Definition classify_detection (img : Image pixels) (d : Detection)
    : option exception * Detection :=
  if should_classify d then
    match sess_run (cropped_img img d) with
    | Exc e => (Some e, d)
    | Ok predictions =>
        let '(r, l) := append_all predictions (top_classes predictions) [] in
        (r, set_classifications l d)
    end
  else (None, d).

(** A loop over a list that stops at the first exception, keeping the
    elements already updated. *)
Fixpoint run_list {A} (f : A → option exception * A) (l : list A)
    : option exception * list A :=
  match l with
  | [] => (None, [])
  | a :: rest =>
      match f a with
      | (Some e, a') => (Some e, a' :: rest)
      | (None, a') => let '(r, rest') := run_list f rest in (r, a' :: rest')
      end
  end.

Definition classify_image (im : ImageRecord) : option exception * ImageRecord :=
  match load_image (image_path im) with
  | None => (None, im)
  | Some img =>
      let '(r, ds) := run_list (classify_detection img) (detections im) in
      (r, set_detections ds im)
  end.

Definition result_of (r : option exception) : result unit :=
  match r with
  | None => Ok tt
  | Some e => Exc e
  end.

End ClassifyBoxes.

(** The detections of image [iImage], and their replacement. *)
Definition detections_at (iImage : nat) (j : DetectionResult) : list Detection :=
  match images j !! iImage with
  | Some im => detections im
  | None => []
  end.

Definition put_detections_at (iImage : nat) (ds : list Detection) (j : DetectionResult)
    : DetectionResult :=
  set_images (alter (set_detections ds) iImage (images j)) j.


(** ** Values and well-formedness of binary64 numbers

    The notions in which the rounding of [SpecFloat]'s operations is
    stated. *)

(** The round and sticky bits after a shift are both clear exactly when
    all that was shifted out is zero. *)
Definition shr_exact (mrs : shr_record) : bool := negb (shr_r mrs || shr_s mrs).

(** The value [m * 2^e], scaled by [2^2200] so that it is an integer for
    every exponent met in the operations. *)
Definition sc (m e : Z) : Z := m * 2 ^ (e + 2200).

(** The scaled value of a finite float (0 for the others). *)
Definition sval (x : float) : Z :=
  match x with
  | S754_finite s m e => cond_Zopp s (sc (Zpos m) e)
  | _ => 0
  end.

(** A canonical mantissa and exponent, in arithmetic terms. *)
Definition canon (m e : Z) : Prop :=
  -1074 ≤ e ∧ 0 < m < 2 ^ 53 ∧ (-1074 < e → 2 ^ 52 ≤ m).

(** The arithmetic reading of [F64.valid]. *)
Definition wf (x : float) : Prop :=
  match x with
  | S754_finite _ m e => canon (Zpos m) e ∧ e ≤ 971
  | _ => True
  end.

(** No finite exponent below [emin]. *)
Definition exponent_ok (x : float) : Prop :=
  match x with S754_finite _ _ e => -1074 ≤ e | _ => True end.

(** [x == 0] on floats (either sign of zero). *)
Definition is_zero (x : float) : Prop :=
  match x with S754_zero _ => True | _ => False end.

(** A finite float (zero included). *)
Definition is_finite (x : float) : Prop :=
  match x with S754_zero _ | S754_finite _ _ _ => True | _ => False end.

Definition has_sign (s : bool) (r : float) : Prop :=
  match r with
  | S754_zero s' | S754_infinity s' | S754_finite s' _ _ => s' = s
  | S754_nan => False
  end.

(** [v <= |r|] and [|r| <= v] for a scaled value [v]. *)
Definition mag_ge (r : float) (v : Z) : Prop :=
  match r with
  | S754_infinity _ => True
  | S754_finite _ m e => v ≤ sc (Zpos m) e
  | S754_zero _ => v ≤ 0
  | S754_nan => False
  end.

Definition mag_le (r : float) (v : Z) : Prop :=
  match r with
  | S754_infinity _ => False
  | S754_finite _ m e => sc (Zpos m) e ≤ v
  | S754_zero _ => 0 ≤ v
  | S754_nan => False
  end.

(** [v <= r] and [r <= v] for a float [r] and a scaled value [v]. *)
Definition val_ge (r : float) (v : Z) : Prop :=
  match r with
  | S754_infinity s => s = false
  | S754_nan => False
  | _ => v ≤ sval r
  end.

Definition val_le (r : float) (v : Z) : Prop :=
  match r with
  | S754_infinity s => s = true
  | S754_nan => False
  | _ => sval r ≤ v
  end.

(** The value of a finite float clamped at 0 and truncated. *)
Definition cl (x : float) : Z := Z.max 0 (sval x) / 2 ^ 2200.

(** The C cast of [x] to int64 is defined: [x] is finite and its integer
    part is an int64. *)
Definition castable (x : float) : Prop :=
  ∃ t, F64.trunc x = Some t ∧ INT64_MIN ≤ t < 2 ^ 63.

(** What an offset can be: a zero, a positive finite number, plus
    infinity, or NaN. *)
Definition offset_form (o : float) : Prop :=
  match o with
  | S754_zero _ | S754_nan => True
  | S754_infinity s => s = false
  | S754_finite s _ e => s = false ∧ -1074 ≤ e
  end.

(** A well-formed number that is a zero, positive and finite, or plus
    infinity. *)
Definition nonneg (x : float) : Prop :=
  wf x ∧
  match x with
  | S754_zero _ => True
  | S754_infinity s | S754_finite s _ _ => s = false
  | S754_nan => False
  end.

(** [s <= m] for two such numbers. *)
Definition ge_ext (m s : float) : Prop :=
  match m, s with
  | S754_infinity _, _ => True
  | _, S754_infinity _ => False
  | _, _ => sval s ≤ sval m
  end.

(** ** Predicates of the statements *)

(** All four coordinates of a crop lie within the image. *)
Definition within_image (image_height image_width : Z) (c : row4 Z) : Prop :=
  (0 ≤ r_ymin c ≤ image_height) ∧ (0 ≤ r_xmin c ≤ image_width) ∧
  (0 ≤ r_ymax c ≤ image_height) ∧ (0 ≤ r_xmax c ≤ image_width).




(** The selection rule in the words of the specification: the confidence
    reaches the threshold, the category is whitelisted, and the
    classifications are absent or empty. *)
Definition eligible (confidence_threshold : float) (category_whitelist : list string)
    (d : Detection) : Prop :=
  F64.ge (conf d) confidence_threshold = true ∧
  category d ∈ category_whitelist ∧
  (classifications d = None ∨ classifications d = Some []).

(** The entries [['%i' % class_idx, predictions[class_idx]]] for indices
    within [predictions]. *)
Definition entries (predictions : list float) (idx : list nat) : list ClassificationResult :=
  (λ i, (pretty i, default S754_nan (predictions !! i))) <$> idx.




(** ** A test bench

    A file system with 300-row, 400-column images (every path but
    ["missing.jpg"] loads), a classifier with three outputs that raises on
    an empty crop, and a stable insertion argsort. *)
Module Bench.

Definition load_image (path : string) : option (Image unit) :=
  if String.eqb path "missing.jpg" then None else Some (mkImage 300 400 tt).

Definition predictions : list float := [F64.lit 1 10; F64.lit 7 10; F64.lit 2 10].

Definition sess_run (c : CroppedImage unit) : result (list float) :=
  if (snd (crop_rows c) <=? fst (crop_rows c)) || (snd (crop_cols c) <=? fst (crop_cols c))
  then Exc (RuntimeError "empty crop")
  else Ok predictions.

(** [i], smaller than every index of [sorted], goes before the first
    index whose value is not smaller than its own: equal values stay in
    ascending index order. *)
Fixpoint insert_index (v : list float) (i : nat) (sorted : list nat) : list nat :=
  match sorted with
  | [] => [i]
  | k :: rest =>
      if F64.lt (default S754_nan (v !! k)) (default S754_nan (v !! i))
      then k :: insert_index v i rest
      else i :: sorted
  end.

Definition argsort (v : list float) : list nat :=
  foldr (λ i acc, insert_index v i acc) [] (seq 0 (length v)).

(** The box of the worked scenario: [x=0.25, y=0.2, w=0.25, h=0.3]. *)
Definition box1 : Box :=
  BBox (F64.lit 25 100) (F64.lit 2 10) (F64.lit 25 100) (F64.lit 3 10).

(** A box in the lower right quarter of the image. *)
Definition box2 : Box :=
  BBox (F64.lit 5 10) (F64.lit 5 10) (F64.lit 5 10) (F64.lit 5 10).

(** A box of height 0 and width 200 pixels. *)
Definition box_flat : Box :=
  BBox (F64.lit 25 100) (F64.lit 5 10) (F64.lit 5 10) (F64.of_int 0).

(** A box of height 0 and width 0. *)
Definition box_point : Box :=
  BBox (F64.lit 25 100) (F64.lit 5 10) (F64.of_int 0) (F64.of_int 0).


Definition det1 : Detection := mkDetection "1" (F64.lit 9 10) box1 None.
Definition det_low : Detection := mkDetection "1" (F64.lit 5 10) box1 None.
Definition det_person : Detection := mkDetection "2" (F64.lit 95 100) box2 None.
Definition det_done : Detection :=
  mkDetection "1" (F64.lit 95 100) box2 (Some [("0", F64.lit 99 100)]).
Definition det_point : Detection := mkDetection "1" (F64.lit 9 10) box_point None.

Definition classified (d : Detection) : Detection :=
  set_classifications [("1", F64.lit 7 10); ("2", F64.lit 2 10)] d.

Definition categories : option (list (string * string)) :=
  Some [("0", "lion"); ("1", "zebra"); ("2", "giraffe")].

Definition json1 : DetectionResult :=
  mkDetectionResult categories [mkImageRecord "a.jpg" [det1]].

Definition json3 : DetectionResult :=
  mkDetectionResult categories
    [mkImageRecord "a.jpg" [det1; det_low];
     mkImageRecord "missing.jpg" [det1];
     mkImageRecord "c.jpg" [det_person; det1; det_done]].

Definition json_bad_crop : DetectionResult :=
  mkDetectionResult categories
    [mkImageRecord "a.jpg" [det1];
     mkImageRecord "b.jpg" [det_low; det_point; det1];
     mkImageRecord "c.jpg" [det1]].

Definition run : M unit :=
  classify_boxes load_image sess_run argsort "" DEFAULT_CONFIDENCE_THRESHOLD
    DETECTION_CATEGORY_WHITELIST PADDING_FACTOR 2.

End Bench.

(** ** load_and_run_classifier (lines 213-240) *)

Section LoadAndRunClassifier.
(** The collaborators: [load_model] (which may raise), [open] and
    [json.load] on the detector file (which may raise), the classes
    file, the image loader, [sess.run] of a session on a graph,
    [np.argsort], and whether the output file can be opened and written
    ([open(output_json_file, 'wt')] and [json.dump], lines 237-238).
    What is printed and the timing are left out. *)
Context {pixels graph detector : Type}.
Variable load_model : string → result graph.
Variable json_load : string → result DetectionResult.
Variable read_text : string → option string.
Variable load_image : string → option (Image pixels).
Variable sess_run : graph → CroppedImage pixels → result (list float).
Variable argsort : list float → list nat.
Variable open_wt : string → bool.

(** The value returned, [(detection_graph, classification_graph)], or
    the exception raised; and the file written with the document dumped
    to it, if any. *)
Definition load_and_run_classifier
    (classifier_file classes_file image_dir detector_json_file output_json_file : string)
    (confidence_threshold padding_factor : float) (num_annotated_classes : Z)
    (detection_category_whitelist : list string)
    (detection_graph : detector) (classification_graph : option graph)
    : result (detector * graph) * option (string * DetectionResult) :=
  match (match classification_graph with
         | None => load_model classifier_file
         | Some g => Ok g
         end) with
  | Exc e => (Exc e, None)
  | Ok classification_graph =>
  match json_load detector_json_file with
  | Exc e => (Exc e, None)
  | Ok detector_json =>
  match add_classification_categories read_text classes_file detector_json with
  | (Exc e, _) => (Exc e, None)
  | (Ok _, updated_json) =>
  match classify_boxes load_image (sess_run classification_graph) argsort image_dir
          confidence_threshold detection_category_whitelist padding_factor
          num_annotated_classes updated_json with
  | (Exc e, _) => (Exc e, None)
  | (Ok _, updated_json) =>
      if open_wt output_json_file
      then (Ok (detection_graph, classification_graph),
            Some (output_json_file, updated_json))
      else (Exc IOError, None)
  end end end end.

End LoadAndRunClassifier.

(** ** Further predicates of the statements *)

(** The class names of a classes file: its lines that are not blank. *)
Definition class_names_of (text : string) : list string :=
  filter (λ cn, bool_decide (strip cn ≠ "")) (splitlines text).

(** [d'] is [d] up to its [classifications]. *)
Definition same_detection (d d' : Detection) : Prop :=
  category d' = category d ∧ conf d' = conf d ∧ bbox d' = bbox d.

(** [im'] is [im] up to the [classifications] of its detections. *)
Definition same_image (im im' : ImageRecord) : Prop :=
  file im' = file im ∧ Forall2 same_detection (detections im) (detections im').

(** ** A second test bench: a classes file and a detector output *)
Module Sample.

Definition nl : string := String "010"%char "".
Definition crlf : string := String "013"%char (String "010"%char "").

(** Three class names, a blank line, a line of spaces and a CR LF. *)
Definition classes_text : string :=
  "lion" +:+ nl +:+ nl +:+ "zebra" +:+ crlf +:+ "  " +:+ nl +:+ "giraffe" +:+ nl.

Definition read_text (path : string) : option string :=
  if String.eqb path "classes.txt" then Some classes_text else None.


(** The detector output: the images of [Bench.json3], no vocabulary yet. *)
Definition detector_json : DetectionResult :=
  mkDetectionResult None (images Bench.json3).

Definition json_load (path : string) : result DetectionResult :=
  if String.eqb path "detections.json" then Ok detector_json else Exc IOError.

Definition load_model (path : string) : result unit :=
  if String.eqb path "model.pb" then Ok tt else Exc IOError.

Definition sess_run (g : unit) : CroppedImage unit → result (list float) := Bench.sess_run.

(** A classifier that never raises. *)
Definition sess_run_total (c : CroppedImage unit) : result (list float) :=
  Ok Bench.predictions.

(** A detection whose confidence is NaN. *)
Definition det_nan : Detection := mkDetection "1" S754_nan Bench.box1 None.

Definition run (detector_json_file output_json_file : string)
    : result (unit * unit) * option (string * DetectionResult) :=
  load_and_run_classifier load_model json_load read_text Bench.load_image sess_run
    Bench.argsort (λ _, true)
    "model.pb" "classes.txt" "" detector_json_file output_json_file
    DEFAULT_CONFIDENCE_THRESHOLD PADDING_FACTOR 2 DETECTION_CATEGORY_WHITELIST tt None.

(** The document that [run "detections.json" _] writes. *)
Definition classified_doc : DetectionResult :=
  mkDetectionResult (Some [("0", "lion"); ("1", "zebra"); ("2", "giraffe")])
    [mkImageRecord "a.jpg" [Bench.classified Bench.det1; Bench.det_low];
     mkImageRecord "missing.jpg" [Bench.det1];
     mkImageRecord "c.jpg" [Bench.det_person; Bench.classified Bench.det1; Bench.det_done]].

(** A file system in which ["out.json"] holds that document, and no
    classes file can be read. *)
Definition json_load_out (path : string) : result DetectionResult :=
  if String.eqb path "out.json" then Ok classified_doc else Exc IOError.

Definition read_text_none (path : string) : option string := None.

(** A detector output on which the classifier raises (a box of no area). *)
Definition json_load_bad (path : string) : result DetectionResult := Ok Bench.json_bad_crop.

End Sample.

(** * Properties *)

(** ** The store monad *)

Lemma bind_run {A B} (m : M A) (k : A → M B) (s : DetectionResult) :
  (m ≫= k) s = match m s with
               | (Ok a, s') => k a s'
               | (Exc e, s') => (Exc e, s')
               end.
Proof. reflexivity. Qed.

Lemma for_each_cons {A} (i : A) (rest : list A) (body : A → M unit) s :
  for_each (i :: rest) body s =
  match body i s with
  | (Ok _, s') => for_each rest body s'
  | (Exc e, s') => (Exc e, s')
  end.
Proof. reflexivity. Qed.

Lemma set_images_id j : set_images (images j) j = j.
Proof. by destruct j. Qed.

Lemma set_detections_id im : set_detections (detections im) im = im.
Proof. by destruct im. Qed.

Lemma set_images_set_images l l' j : set_images l (set_images l' j) = set_images l j.
Proof. reflexivity. Qed.

Lemma set_detections_set_detections l l' im :
  set_detections l (set_detections l' im) = set_detections l im.
Proof. reflexivity. Qed.

(** A loop [for i in range(len(l))] whose body updates element [i] of a
    list [l] held in the store runs as [run_list] over [l]. [getl] and
    [putl] read and replace the list; [valid] is what the body needs of
    the store around it. *)
Section ForEachIndex.
Context {A : Type}.
Variable getl : DetectionResult → list A.
Variable putl : list A → DetectionResult → DetectionResult.
Variable valid : DetectionResult → Prop.
Hypothesis get_put : ∀ l s, valid s → getl (putl l s) = l.
Hypothesis put_put : ∀ l l' s, putl l (putl l' s) = putl l s.
Hypothesis put_get : ∀ s, valid s → putl (getl s) s = s.
Hypothesis valid_put : ∀ l s, valid s → valid (putl l s).

Variable f : A → option exception * A.
Variable body : nat → M unit.
Hypothesis body_spec : ∀ i a s, valid s → getl s !! i = Some a →
  body i s = (result_of (f a).1, putl (<[i := (f a).2]> (getl s)) s).

Lemma for_each_seq_from post : ∀ pre s,
  valid s → getl s = pre ++ post →
  for_each (seq (length pre) (length post)) body s =
  (result_of (run_list f post).1, putl (pre ++ (run_list f post).2) s).
Proof.
  induction post as [|a post IH]; intros pre s Hv Hs.
  - simpl. rewrite <- Hs, put_get by done. reflexivity.
  - cbn [length seq]. rewrite for_each_cons.
    rewrite (body_spec (length pre) a s Hv).
    2:{ rewrite Hs. by rewrite list_lookup_middle. }
    rewrite Hs.
    replace (<[length pre := (f a).2]> (pre ++ a :: post))
      with (pre ++ (f a).2 :: post).
    2:{ rewrite insert_app_r_alt by lia. by rewrite Nat.sub_diag. }
    cbn [run_list]. destruct (f a) as [[e|] a']; cbn [fst snd result_of].
    + reflexivity.
    + specialize (IH (pre ++ [a']) (putl (pre ++ a' :: post) s)).
      rewrite length_app in IH. cbn [length] in IH.
      replace (length pre + 1)%nat with (S (length pre)) in IH by lia.
      rewrite IH.
      * destruct (run_list f post) as [r post']. cbn [fst snd].
        rewrite put_put. by rewrite <- app_assoc.
      * by apply valid_put.
      * rewrite get_put by done. by rewrite <- app_assoc.
Qed.

Lemma for_each_range s :
  valid s →
  for_each (range (length (getl s))) body s =
  (result_of (run_list f (getl s)).1, putl (run_list f (getl s)).2 s).
Proof.
  intros Hv. apply (for_each_seq_from (getl s) [] s Hv). reflexivity.
Qed.
End ForEachIndex.

(** ** classify_boxes runs as its detection-by-detection reading *)

Lemma list_alter_None {A} (f : A → A) (l : list A) (i : nat) :
  l !! i = None → alter f i l = l.
Proof.
  intros E. apply list_eq. intros k. rewrite list_lookup_alter.
  destruct (decide (i = k)) as [->|]; [|done]. by rewrite E.
Qed.

Lemma update_detection_run iImage iBox f j :
  update_detection iImage iBox f j =
  (Ok tt, put_detections_at iImage (alter f iBox (detections_at iImage j)) j).
Proof.
  unfold update_detection, modify, put_detections_at, detections_at.
  f_equal. f_equal.
  destruct (images j !! iImage) as [im|] eqn:E.
  - apply list_eq. intros k. rewrite !list_lookup_alter.
    destruct (decide (iImage = k)) as [->|]; [|done].
    by rewrite E.
  - by rewrite !list_alter_None.
Qed.

Lemma detections_at_put iImage ds j :
  is_Some (images j !! iImage) →
  detections_at iImage (put_detections_at iImage ds j) = ds.
Proof.
  intros [im E]. unfold detections_at, put_detections_at. cbn [images set_images].
  rewrite list_lookup_alter_eq, E. reflexivity.
Qed.

Lemma put_detections_at_put iImage ds ds' j :
  put_detections_at iImage ds (put_detections_at iImage ds' j) = put_detections_at iImage ds j.
Proof.
  unfold put_detections_at. cbn [images set_images]. rewrite set_images_set_images.
  f_equal. rewrite list_alter_alter_eq. apply list_alter_ext; done.
Qed.

Lemma put_detections_at_get iImage j :
  put_detections_at iImage (detections_at iImage j) j = j.
Proof.
  unfold put_detections_at, detections_at.
  destruct (images j !! iImage) as [im|] eqn:E.
  - rewrite <- (set_images_id j) at 3. f_equal.
    apply list_eq. intros k. rewrite list_lookup_alter.
    destruct (decide (iImage = k)) as [->|]; [|done].
    rewrite E. cbn. by rewrite set_detections_id.
  - rewrite list_alter_None by done. apply set_images_id.
Qed.

Lemma put_detections_at_valid iImage ds j :
  is_Some (images j !! iImage) → is_Some (images (put_detections_at iImage ds j) !! iImage).
Proof.
  intros [im E]. unfold put_detections_at. cbn [images set_images].
  rewrite list_lookup_alter_eq, E. by eexists.
Qed.

Lemma put_detections_at_images iImage ds j im :
  images j !! iImage = Some im →
  put_detections_at iImage ds j = set_images (<[iImage := set_detections ds im]> (images j)) j.
Proof.
  intros E. unfold put_detections_at. f_equal.
  apply list_eq. intros k. rewrite list_lookup_alter.
  destruct (decide (iImage = k)) as [->|].
  - rewrite E. cbn. rewrite list_lookup_insert_eq; [done|]. by eapply lookup_lt_Some.
  - by rewrite list_lookup_insert_ne.
Qed.

Section ClassifyBoxesRun.
Context {pixels : Type}.
Variable load_image : string → option (Image pixels).
Variable sess_run : CroppedImage pixels → result (list float).
Variable argsort : list float → list nat.
Variable image_dir : string.
Variable confidence_threshold : float.
Variable detection_category_whitelist : list string.
Variable padding_factor : float.
Variable num_annotated_classes : Z.

Local Abbreviation process_box :=
  (process_box sess_run argsort confidence_threshold detection_category_whitelist
     padding_factor num_annotated_classes).
Local Abbreviation classify_detection :=
  (classify_detection sess_run argsort confidence_threshold detection_category_whitelist
     padding_factor num_annotated_classes).
Local Abbreviation process_image :=
  (process_image load_image sess_run argsort image_dir confidence_threshold
     detection_category_whitelist padding_factor num_annotated_classes).
Local Abbreviation classify_image :=
  (classify_image load_image sess_run argsort image_dir confidence_threshold
     detection_category_whitelist padding_factor num_annotated_classes).
Local Abbreviation classify_boxes :=
  (classify_boxes load_image sess_run argsort image_dir confidence_threshold
     detection_category_whitelist padding_factor num_annotated_classes).

(** The [append] loop of lines 199-200. *)
Lemma append_loop_run predictions iImage iBox idx : ∀ acc d j,
  is_Some (images j !! iImage) →
  detections_at iImage j !! iBox = Some d →
  classifications d = Some acc →
  for_each idx (λ class_idx,
    match predictions !! class_idx with
    | Some score =>
        update_detection iImage iBox (append_classification (pretty class_idx, score))
    | None => raise IndexError
    end) j =
  (result_of (append_all predictions idx acc).1,
   put_detections_at iImage
     (<[iBox := set_classifications (append_all predictions idx acc).2 d]>
        (detections_at iImage j)) j).
Proof.
  assert (Hsame : ∀ acc d j, detections_at iImage j !! iBox = Some d →
    classifications d = Some acc →
    put_detections_at iImage
      (<[iBox := set_classifications acc d]> (detections_at iImage j)) j = j).
  { intros acc d j Hd Hc. rewrite list_insert_id.
    - apply put_detections_at_get.
    - rewrite Hd. f_equal. destruct d as [c f b cl]. cbn in Hc.
      unfold set_classifications. cbn. congruence. }
  induction idx as [|c idx IH]; intros acc d j Hi Hd Hc.
  - cbn. by rewrite Hsame.
  - rewrite for_each_cons. cbn [append_all].
    destruct (predictions !! c) as [score|];
      [|cbn [fst snd result_of]; by rewrite Hsame].
    rewrite update_detection_run.
    set (d' := append_classification (pretty c, score) d).
    assert (Hlt : (iBox < length (detections_at iImage j))%nat)
      by by eapply lookup_lt_Some.
    rewrite (IH (acc ++ [(pretty c, score)]) d').
    + f_equal. rewrite detections_at_put by done. rewrite put_detections_at_put.
      f_equal. apply list_eq. intros k.
      destruct (decide (iBox = k)) as [->|].
      * rewrite !list_lookup_insert_eq; [done|done|].
        by rewrite length_alter.
      * rewrite !list_lookup_insert_ne by done. by rewrite list_lookup_alter_ne.
    + by apply put_detections_at_valid.
    + rewrite detections_at_put by done. rewrite list_lookup_alter_eq, Hd. done.
    + unfold d', append_classification. cbn. by rewrite Hc.
Qed.

Lemma process_box_run img iImage iBox d j :
  is_Some (images j !! iImage) →
  detections_at iImage j !! iBox = Some d →
  process_box img iImage iBox j =
  (result_of (classify_detection img d).1,
   put_detections_at iImage
     (<[iBox := (classify_detection img d).2]> (detections_at iImage j)) j).
Proof.
  intros [im Him] Hd.
  assert (Hskip : put_detections_at iImage (<[iBox := d]> (detections_at iImage j)) j = j).
  { rewrite list_insert_id by done. apply put_detections_at_get. }
  unfold process_box, classify_detection, should_classify, get_image.
  rewrite !bind_run. unfold get. rewrite Him. cbn [mret M_ret].
  unfold detections_at in Hd. rewrite Him in Hd. rewrite Hd.
  destruct (F64.lt (conf d) confidence_threshold); cbn [negb andb fst snd result_of];
    [by rewrite Hskip|].
  destruct (bool_decide (category d ∈ detection_category_whitelist));
    cbn [negb andb fst snd result_of]; [|by rewrite Hskip].
  destruct (already_classified d); cbn [negb andb fst snd result_of];
    [by rewrite Hskip|].
  rewrite bind_run.
  destruct (sess_run _) as [predictions|e]; cbn [lift_result mret M_ret raise fst snd result_of];
    [|by rewrite Hskip].
  rewrite bind_run, update_detection_run.
  assert (Hdat : detections_at iImage j !! iBox = Some d)
    by (unfold detections_at; by rewrite Him).
  assert (Hlt : (iBox < length (detections_at iImage j))%nat)
    by by eapply lookup_lt_Some.
  rewrite (append_loop_run predictions iImage iBox _ [] (set_classifications [] d)).
  - destruct (append_all _ _ _) as [r l]. cbn [fst snd]. f_equal.
    rewrite detections_at_put by by eexists. rewrite put_detections_at_put. f_equal.
    apply list_eq. intros k. destruct (decide (iBox = k)) as [->|].
    + rewrite !list_lookup_insert_eq; [done|done|]. by rewrite length_alter.
    + rewrite !list_lookup_insert_ne by done. by rewrite list_lookup_alter_ne.
  - apply put_detections_at_valid. by eexists.
  - rewrite detections_at_put by by eexists. by rewrite list_lookup_alter_eq, Hdat.
  - reflexivity.
Qed.

Lemma box_loop_run img iImage j :
  is_Some (images j !! iImage) →
  for_each (range (length (detections_at iImage j))) (process_box img iImage) j =
  (result_of (run_list (classify_detection img) (detections_at iImage j)).1,
   put_detections_at iImage
     (run_list (classify_detection img) (detections_at iImage j)).2 j).
Proof.
  intros Hv.
  apply (for_each_range (detections_at iImage) (put_detections_at iImage)
           (λ s, is_Some (images s !! iImage))).
  - intros l s. apply detections_at_put.
  - intros l l' s. apply put_detections_at_put.
  - intros s _. apply put_detections_at_get.
  - intros l s. apply put_detections_at_valid.
  - intros i a s. apply process_box_run.
  - exact Hv.
Qed.

Lemma process_image_run iImage im j :
  images j !! iImage = Some im →
  process_image iImage j =
  (result_of (classify_image im).1,
   set_images (<[iImage := (classify_image im).2]> (images j)) j).
Proof.
  intros Him. unfold process_image, classify_image, get_image.
  rewrite !bind_run. unfold get. rewrite Him. cbn [mret M_ret].
  destruct (load_image _) as [img|].
  - assert (Hd : detections im = detections_at iImage j)
      by (unfold detections_at; by rewrite Him).
    rewrite Hd, box_loop_run by by eexists.
    destruct (run_list _ _) as [r ds]. cbn [fst snd].
    by rewrite (put_detections_at_images _ _ _ im).
  - cbn [fst snd result_of]. rewrite list_insert_id by done.
    by rewrite set_images_id.
Qed.

(** [classify_boxes] asserts that the categories are present and then
    runs [classify_image] over the images, in order, up to the first
    exception; the object keeps every update made until then. *)
Lemma classify_boxes_run j :
  classify_boxes j =
  match classification_categories j with
  | None => (Exc AssertionError, j)
  | Some _ =>
      (result_of (run_list classify_image (images j)).1,
       set_images (run_list classify_image (images j)).2 j)
  end.
Proof.
  unfold classify_boxes. rewrite bind_run. unfold get.
  destruct (classification_categories j); [|done].
  apply (for_each_range images set_images (λ _, True)); try done.
  - intros s _. apply set_images_id.
  - intros i a s _. apply process_image_run.
Qed.
End ClassifyBoxesRun.

(** ** Loops that stop at the first exception *)

Lemma run_list_app {A} (f : A → option exception * A) (l1 l2 : list A) :
  run_list f (l1 ++ l2) =
  match run_list f l1 with
  | (Some e, l1') => (Some e, l1' ++ l2)
  | (None, l1') => ((run_list f l2).1, l1' ++ (run_list f l2).2)
  end.
Proof.
  induction l1 as [|a l1 IH]; cbn [app run_list].
  - by destruct (run_list f l2).
  - destruct (f a) as [[e|] a']; [done|].
    rewrite IH. destruct (run_list f l1) as [[e|] l1']; [done|].
    by destruct (run_list f l2).
Qed.

Lemma run_list_length {A} (f : A → option exception * A) (l : list A) :
  length (run_list f l).2 = length l.
Proof.
  induction l as [|a l IH]; [done|]. cbn [run_list].
  destruct (f a) as [[e|] a']; [done|].
  destruct (run_list f l) as [r l']. cbn in *. by rewrite IH.
Qed.

(** After a loop that ended normally every element is the one its step
    returned, and no step raised. *)
Lemma run_list_None_lookup {A} (f : A → option exception * A) (l : list A) :
  (run_list f l).1 = None →
  ∀ i a, l !! i = Some a →
    (f a).1 = None ∧ (run_list f l).2 !! i = Some (f a).2.
Proof.
  induction l as [|b l IH]; intros Hr i a Hi; [done|].
  cbn [run_list] in *. destruct (f b) as [[e|] b'] eqn:Eb; [done|].
  destruct (run_list f l) as [r l'] eqn:El. cbn [fst snd] in *.
  destruct i as [|i]; cbn in Hi |- *.
  - injection Hi as <-. by rewrite Eb.
  - by apply IH.
Qed.

(** A step that leaves its own results alone makes the loop idempotent. *)
Lemma run_list_idempotent {A} (f : A → option exception * A) (l l' : list A) :
  (∀ a a', f a = (None, a') → f a' = (None, a')) →
  run_list f l = (None, l') → run_list f l' = (None, l').
Proof.
  intros Hf. revert l'. induction l as [|a l IH]; intros l' Hr; cbn [run_list] in Hr.
  - by injection Hr as <-.
  - destruct (f a) as [[e|] a'] eqn:Ea; [done|].
    destruct (run_list f l) as [r l1] eqn:El. injection Hr as -> <-.
    cbn [run_list]. rewrite (Hf _ _ Ea). by rewrite (IH l1).
Qed.

Lemma result_of_Ok (r : option exception) : result_of r = Ok tt → r = None.
Proof. by destruct r. Qed.

(** ** Comparisons of binary64 values *)

Lemma SFcompare_antisym (a b : float) :
  SFcompare b a = option_map CompOpp (SFcompare a b).
Proof.
  destruct a as [[]|[]| |[] ma ea]; destruct b as [[]|[]| |[] mb eb]; try reflexivity;
    cbn [SFcompare option_map]; f_equal;
    rewrite (Z.compare_antisym ea eb); destruct (ea ?= eb); cbn [CompOpp];
    try reflexivity.
  all: by rewrite (Pos.compare_cont_antisym ma mb Eq).
Qed.

Lemma SFcompare_not_nan (a b : float) :
  F64.isnan a = false → F64.isnan b = false → is_Some (SFcompare a b).
Proof.
  destruct a as [[]|[]| |[] ma ea]; destruct b as [[]|[]| |[] mb eb]; try done; by eexists.
Qed.

(** Away from NaN, [not (a < b)] is [a >= b]. *)
Lemma not_lt_ge (a b : float) :
  F64.isnan a = false → F64.isnan b = false →
  negb (F64.lt a b) = F64.ge a b.
Proof.
  intros Ha Hb. unfold F64.lt, F64.ge, SFltb, SFleb.
  rewrite (SFcompare_antisym a b).
  destruct (SFcompare_not_nan a b Ha Hb) as [c ->]. by destruct c.
Qed.

Lemma SFcompare_opp (x y : float) :
  SFcompare (SFopp y) (SFopp x) = SFcompare x y.
Proof.
  destruct x as [[]|[]| |[] mx ex]; destruct y as [[]|[]| |[] my ey]; try reflexivity;
    cbn [SFcompare SFopp negb]; f_equal;
    rewrite (Z.compare_antisym ex ey); destruct (ex ?= ey); cbn [CompOpp];
    try reflexivity.
  all: first [rewrite (Pos.compare_cont_antisym my mx Eq)
             |rewrite (Pos.compare_cont_antisym mx my Eq)]; reflexivity.
Qed.

Lemma lt_neg_neg (x y : float) : F64.lt (F64.neg y) (F64.neg x) = F64.lt x y.
Proof. unfold F64.lt, F64.neg, SFltb. by rewrite SFcompare_opp. Qed.

(** ** The top-K merge *)

Lemma slice_to_nonneg {A} (l : list A) (stop : Z) :
  0 ≤ stop → slice_to l stop = take (Z.to_nat stop) l.
Proof.
  intros H. unfold slice_to, slice_adjust.
  destruct (stop <? 0) eqn:E; [apply Z.ltb_lt in E; lia|].
  destruct (decide (stop ≤ Z.of_nat (length l))).
  - by rewrite Z.min_l.
  - rewrite Z.min_r by lia. rewrite Nat2Z.id.
    rewrite !take_ge; [done|lia|lia].
Qed.

Lemma append_all_in_range (predictions : list float) (idx : list nat) :
  ∀ acc, Forall (λ i, (i < length predictions)%nat) idx →
  append_all predictions idx acc = (None, acc ++ entries predictions idx).
Proof.
  induction idx as [|i idx IH]; intros acc Hall.
  - cbn. by rewrite app_nil_r.
  - inversion Hall as [|? ? Hi Hrest]; subst.
    destruct (lookup_lt_is_Some_2 predictions i Hi) as [s Hs].
    unfold entries. rewrite fmap_cons. fold (entries predictions idx).
    cbn [append_all]. rewrite Hs, IH by done. cbn [default].
    rewrite <- app_assoc. reflexivity.
Qed.

(** ** Building the class vocabulary *)

Lemma dict_set_fresh (k v : string) (d : list (string * string)) :
  k ∉ d.*1 → dict_set k v d = d ++ [(k, v)].
Proof.
  induction d as [|[k' v'] d IH]; intros Hk; [done|].
  cbn [dict_set]. rewrite fmap_cons, not_elem_of_cons in Hk. destruct Hk as [Hne Hk].
  destruct (String.eqb k' k) eqn:E.
  - apply String.eqb_eq in E. by subst.
  - by rewrite IH.
Qed.

(** The loop of line 87 appends one key per class name, the decimal
    strings of 0, 1, 2, ... in order. *)
Lemma add_categories_run (names : list string) :
  ∀ (k : nat) (acc : list (string * string)) (j : DetectionResult),
  classification_categories j = Some acc →
  acc.*1 = pretty <$> seq 0 k →
  for_each (zip (seq k (length names)) names)
    (λ p, add_category (pretty (fst p)) (snd p)) j
  = (Ok tt,
     mkDetectionResult (Some (acc ++ zip (pretty <$> seq k (length names)) names))
       (images j)).
Proof.
  induction names as [|name names IH]; intros k acc j Hj Hacc.
  - cbn. rewrite app_nil_r. destruct j; cbn in *. by subst.
  - cbn [length seq zip zip_with]. rewrite for_each_cons.
    unfold add_category at 1, modify. rewrite Hj.
    cbn [from_option fst snd]. unfold id.
    rewrite dict_set_fresh.
    2:{ rewrite Hacc. intros Hin. apply list_elem_of_fmap in Hin as (i & Hi & Hin).
        apply (inj pretty) in Hi. subst i. apply elem_of_seq in Hin. lia. }
    rewrite (IH (S k) (acc ++ [(pretty k, name)])).
    + cbn [images fmap list_fmap]. by rewrite <- app_assoc.
    + reflexivity.
    + rewrite fmap_app, Hacc. cbn [fmap list_fmap fst].
      replace (S k) with (k + 1)%nat by lia. by rewrite seq_app, fmap_app.
Qed.

(** What a call does, branch by branch: with the key present nothing;
    with the key absent and the file unreadable, the exception of [open],
    before anything is written; otherwise the vocabulary that maps the
    decimal string of [i] to the [i]-th non-blank line. *)
Lemma add_classification_categories_run
    (read_text : string → option string) (classes_file : string)
    (json_object : DetectionResult) :
  add_classification_categories read_text classes_file json_object
  = match classification_categories json_object with
    | Some _ => (Ok tt, json_object)
    | None =>
        match read_text classes_file with
        | None => (Exc IOError, json_object)
        | Some text =>
            let class_names := class_names_of text in
            (Ok tt,
             mkDetectionResult
               (Some (zip (pretty <$> seq 0 (length class_names)) class_names))
               (images json_object))
        end
    end.
Proof.
  unfold add_classification_categories.
  rewrite bind_run. unfold get.
  destruct (classification_categories json_object) as [c|] eqn:Hc; [done|].
  destruct (read_text classes_file) as [text|]; [|done].
  fold (class_names_of text).
  rewrite bind_run. unfold set_categories, modify, enumerate.
  by rewrite (add_categories_run (class_names_of text) 0 []).
Qed.

Lemma vocabulary_keys (names : list string) :
  (zip (pretty <$> seq 0 (length names)) names).*1 = pretty <$> seq 0 (length names).
Proof. apply fst_zip. by rewrite length_fmap, length_seq. Qed.

(** ** The contract of argsort *)

Lemma argsort_spec_in_range (v : list float) (idx : list nat) :
  argsort_spec v idx → length idx = length v ∧ Forall (λ i, (i < length v)%nat) idx.
Proof.
  intros [Hperm _]. split.
  - by rewrite Hperm, length_seq.
  - apply Forall_forall. intros i Hi. rewrite Hperm in Hi.
    apply elem_of_seq in Hi. lia.
Qed.


(** The bench argsort keeps a tie in ascending index order. *)
Lemma bench_argsort_tie :
  Bench.argsort [F64.lit 5 10; F64.lit 5 10] = [0; 1]%nat.
Proof. vm_compute. reflexivity. Qed.

(** ** Rounding in binary64 *)

Lemma fexp_eq (e : Z) : fexp F64.prec F64.emax e = Z.max (e - 53) (-1074).
Proof. reflexivity. Qed.

Lemma digits2_pos_size (p : positive) : digits2_pos p = Pos.size p.
Proof. induction p; cbn; congruence. Qed.

(** [2^(d-1) <= p < 2^d] for the number [d] of binary digits of [p]. *)
Lemma digits2_pos_bounds (p : positive) :
  2 ^ (Zpos (digits2_pos p) - 1) ≤ Zpos p < 2 ^ Zpos (digits2_pos p).
Proof.
  rewrite digits2_pos_size. split.
  - pose proof (Pos.size_le p) as H.
    assert (H' : 2 ^ Zpos (Pos.size p) ≤ 2 * Zpos p).
    { rewrite <- Pos2Z.inj_pow. change (2 * Z.pos p) with (Z.pos p~0). lia. }
    replace (Zpos (Pos.size p)) with (Z.succ (Zpos (Pos.size p) - 1)) in H' by lia.
    rewrite Z.pow_succ_r in H' by lia. lia.
  - pose proof (Pos.size_gt p) as H. rewrite <- Pos2Z.inj_pow. lia.
Qed.

(** A positive number below [2^k] has at most [k] digits, one that is at
    least [2^(k-1)] has at least [k]. *)
Lemma digits2_pos_le (p : positive) (k : Z) :
  Zpos p < 2 ^ k → Zpos (digits2_pos p) ≤ k.
Proof.
  intros H. destruct (digits2_pos_bounds p) as [Hlo _].
  destruct (Z_le_gt_dec (Zpos (digits2_pos p)) k) as [|Hgt]; [done|].
  assert (2 ^ k ≤ 2 ^ (Zpos (digits2_pos p) - 1)); [|lia].
  destruct (Z_lt_le_dec k 0).
  - rewrite (Z.pow_neg_r 2 k) by done. apply Z.pow_nonneg. lia.
  - apply Z.pow_le_mono_r; lia.
Qed.

Lemma digits2_pos_ge (p : positive) (k : Z) :
  2 ^ (k - 1) ≤ Zpos p → k ≤ Zpos (digits2_pos p).
Proof.
  intros H. destruct (digits2_pos_bounds p) as [_ Hhi].
  destruct (Z_le_gt_dec k (Zpos (digits2_pos p))) as [|Hgt]; [done|].
  assert (2 ^ Zpos (digits2_pos p) ≤ 2 ^ (k - 1)); [|lia].
  apply Z.pow_le_mono_r; lia.
Qed.

(** *** Shifting a mantissa right *)

Lemma iter_pos_nat {A} (f : A → A) (p : positive) (x : A) :
  SpecFloat.iter_pos f p x = Nat.iter (Pos.to_nat p) f x.
Proof.
  revert x. induction p as [p IH|p IH|]; intros x; cbn [SpecFloat.iter_pos].
  - rewrite !IH. rewrite Pos2Nat.inj_xI.
    replace (S (2 * Pos.to_nat p)) with (Pos.to_nat p + (Pos.to_nat p + 1))%nat by lia.
    rewrite !Nat.iter_add. reflexivity.
  - rewrite !IH. rewrite Pos2Nat.inj_xO.
    replace (2 * Pos.to_nat p)%nat with (Pos.to_nat p + Pos.to_nat p)%nat by lia.
    rewrite Nat.iter_add. reflexivity.
  - reflexivity.
Qed.

Lemma shr_1_m (mrs : shr_record) :
  0 ≤ shr_m mrs → shr_m (shr_1 mrs) = shr_m mrs / 2.
Proof.
  destruct mrs as [m r s]. cbn [shr_m]. intros Hm.
  destruct m as [|[p|p|]|p]; cbn [shr_1 shr_m]; try lia;
    Z.div_mod_to_equations; lia.
Qed.

Lemma shr_1_exact (mrs : shr_record) :
  0 ≤ shr_m mrs →
  shr_exact (shr_1 mrs) = Z.even (shr_m mrs) && shr_exact mrs.
Proof.
  destruct mrs as [m r s]. cbn [shr_m]. intros Hm. unfold shr_exact.
  destruct m as [|[p|p|]|p]; cbn; try lia; by destruct r, s.
Qed.

Lemma shr_iter (n : nat) (mrs : shr_record) :
  0 ≤ shr_m mrs →
  shr_m (Nat.iter n shr_1 mrs) = shr_m mrs / 2 ^ Z.of_nat n ∧
  (shr_exact (Nat.iter n shr_1 mrs) = true ↔
   shr_exact mrs = true ∧ shr_m mrs mod 2 ^ Z.of_nat n = 0).
Proof.
  intros Hm. induction n as [|n [IHm IHe]].
  - change (Nat.iter 0 shr_1 mrs) with mrs. change (2 ^ Z.of_nat 0) with 1.
    rewrite Z.div_1_r, Z.mod_1_r. tauto.
  - rewrite Nat.iter_succ.
    assert (H0 : 0 ≤ shr_m (Nat.iter n shr_1 mrs))
      by (rewrite IHm; apply Z.div_pos; [done|apply Z.pow_pos_nonneg; lia]).
    rewrite shr_1_m, shr_1_exact by done. rewrite IHm.
    rewrite Nat2Z.inj_succ, Z.pow_succ_r by lia.
    assert (Hp : 0 < 2 ^ Z.of_nat n) by (apply Z.pow_pos_nonneg; lia).
    split.
    + rewrite Z.div_div by lia. f_equal. lia.
    + rewrite andb_true_iff, IHe, Z.even_spec.
      set (q := 2 ^ Z.of_nat n) in *. set (m := shr_m mrs) in *.
      pose proof (Z.div_mod m q ltac:(lia)) as Hdm.
      pose proof (Z.mod_pos_bound m q Hp) as Hb.
      split.
      * intros ([k Hk] & He & Hmod). split; [done|].
        apply Z.mod_divide; [lia|]. exists k. lia.
      * intros (He & Hmod). apply Z.mod_divide in Hmod as [k Hk]; [|lia].
        assert (Hmq : m mod q = 0).
        { apply Z.mod_divide; [lia|]. exists (k * 2). lia. }
        split; [|done]. exists k.
        assert (m / q = k * 2); [|lia].
        symmetry. apply Z.div_unique_exact; lia.
Qed.

Lemma shr_spec (mrs : shr_record) (e n : Z) :
  0 ≤ shr_m mrs →
  shr_m (shr mrs e n).1 = shr_m mrs / 2 ^ Z.max n 0 ∧
  (shr mrs e n).2 = e + Z.max n 0 ∧
  0 ≤ shr_m (shr mrs e n).1 ∧
  (shr_exact (shr mrs e n).1 = true ↔
   shr_exact mrs = true ∧ shr_m mrs mod 2 ^ Z.max n 0 = 0).
Proof.
  intros Hm. destruct n as [|p|p]; cbn [shr fst snd].
  - change (2 ^ Z.max 0 0) with 1. rewrite Z.div_1_r, Z.mod_1_r.
    repeat split; try tauto; lia.
  - rewrite iter_pos_nat. destruct (shr_iter (Pos.to_nat p) mrs Hm) as [H1 H2].
    rewrite positive_nat_Z in H1, H2.
    replace (Z.max (Z.pos p) 0) with (Z.pos p) by lia.
    repeat split; try tauto; try lia.
    rewrite H1. apply Z.div_pos; [done|]. apply Z.pow_pos_nonneg; lia.
  - change (2 ^ Z.max (Z.neg p) 0) with 1. rewrite Z.div_1_r, Z.mod_1_r.
    repeat split; try tauto; lia.
Qed.

Lemma loc_exact_iff (mrs : shr_record) :
  loc_of_shr_record mrs = loc_Exact ↔ shr_exact mrs = true.
Proof. destruct mrs as [m [] []]; cbn; split; congruence. Qed.

Lemma round_nearest_even_cases (m : Z) (l : location) :
  (round_nearest_even m l = m ∨ round_nearest_even m l = m + 1) ∧
  (l = loc_Exact → round_nearest_even m l = m).
Proof.
  destruct l as [|[]]; cbn [round_nearest_even]; try destruct (Z.even m);
    split; auto; discriminate.
Qed.

Lemma Zdigits2_pos (m : Z) : 0 < m → Zdigits2 m = Zpos (digits2_pos (Z.to_pos m)).
Proof. destruct m; cbn; lia. Qed.

(** The second normalisation step: a mantissa of at most 53 bits, or
    [2^53] itself, at an exponent not below [emin]. *)
Lemma shr_fexp_carry (m e : Z) :
  -1074 ≤ e → 0 ≤ m ≤ 2 ^ 53 →
  shr_fexp F64.prec F64.emax m e loc_Exact =
  if m =? 2 ^ 53 then (Build_shr_record (2 ^ 52) false false, e + 1)
  else (Build_shr_record m false false, e).
Proof.
  intros He Hm. unfold shr_fexp. rewrite fexp_eq. cbn [shr_record_of_loc].
  destruct (m =? 2 ^ 53) eqn:E.
  - apply Z.eqb_eq in E. subst m.
    change (Zdigits2 (2 ^ 53)) with 54.
    replace (Z.max (54 + e - 53) (-1074) - e) with 1 by lia. reflexivity.
  - apply Z.eqb_neq in E.
    assert (Hn : Z.max (Zdigits2 m + e - 53) (-1074) - e ≤ 0).
    { destruct (Z.eq_dec m 0) as [->|]; [cbn; lia|].
      rewrite Zdigits2_pos by lia.
      assert (Zpos (digits2_pos (Z.to_pos m)) ≤ 53); [|lia].
      apply digits2_pos_le. rewrite Z2Pos.id; lia. }
    destruct (Z.max (Zdigits2 m + e - 53) (-1074) - e); try reflexivity; lia.
Qed.

(** What [binary_round_aux] returns on an exact value [mx * 2^ex] whose
    exponent is not above the canonical one [e1]: the mantissa [m1] of
    the value at [e1], or the next one, at [e1]. *)
Lemma binary_round_aux_exact (s : bool) (mx : positive) (ex : Z) :
  let e1 := fexp F64.prec F64.emax (Zpos (digits2_pos mx) + ex) in
  let m1 := Zpos mx / 2 ^ (e1 - ex) in
  ex ≤ e1 →
  ∃ m2 : Z,
    (m2 = m1 ∨ m2 = m1 + 1) ∧
    (Zpos mx mod 2 ^ (e1 - ex) = 0 → m2 = m1) ∧
    0 ≤ m1 ∧ m2 ≤ 2 ^ 53 ∧ (-1074 < e1 → 2 ^ 52 ≤ m1) ∧
    binary_round_aux F64.prec F64.emax s (Zpos mx) ex loc_Exact =
      if m2 =? 0 then S754_zero s
      else if m2 =? 2 ^ 53
           then (if e1 + 1 <=? 971 then S754_finite s (2 ^ 52) (e1 + 1)
                 else S754_infinity s)
           else (if e1 <=? 971 then S754_finite s (Z.to_pos m2) e1
                 else S754_infinity s).
Proof.
  intros e1 m1 Hpre.
  pose proof (digits2_pos_bounds mx) as [Hlo Hhi].
  set (d := Zpos (digits2_pos mx)) in *.
  assert (He1 : e1 = Z.max (d + ex - 53) (-1074)) by (subst e1; apply fexp_eq).
  set (n := e1 - ex) in *.
  assert (Hn : 0 ≤ n) by lia.
  assert (Hpn : 0 < 2 ^ n) by (apply Z.pow_pos_nonneg; lia).
  assert (Hm1 : 0 ≤ m1) by (apply Z.div_pos; lia).
  assert (Hm1hi : m1 < 2 ^ 53).
  { apply Z.div_lt_upper_bound; [done|].
    rewrite <- Z.pow_add_r by lia.
    eapply Z.lt_le_trans; [exact Hhi|]. apply Z.pow_le_mono_r; lia. }
  assert (Hm1lo : -1074 < e1 → 2 ^ 52 ≤ m1).
  { intros Hgt. apply Z.div_le_lower_bound; [done|].
    rewrite <- Z.pow_add_r by lia.
    etrans; [|exact Hlo]. apply Z.pow_le_mono_r; lia. }
  unfold binary_round_aux.
  unfold shr_fexp at 1. cbn [shr_record_of_loc Zdigits2]. fold d. fold e1. fold n.
  destruct (shr_spec (Build_shr_record (Zpos mx) false false) ex n)
    as (Hs1 & Hs2 & Hs3 & Hs4); [cbn; lia|].
  destruct (shr (Build_shr_record (Zpos mx) false false) ex n) as [mrs' e'].
  cbn [fst snd shr_m] in Hs1, Hs2, Hs3, Hs4.
  replace (Z.max n 0) with n in * by lia.
  assert (e' = e1) as -> by lia.
  fold m1 in Hs1.
  destruct (round_nearest_even_cases (shr_m mrs') (loc_of_shr_record mrs'))
    as [Hr1 Hr2].
  set (m2 := round_nearest_even (shr_m mrs') (loc_of_shr_record mrs')) in *.
  rewrite Hs1 in Hr1, Hr2.
  exists m2. split; [exact Hr1|]. split.
  { intros Hmod. apply Hr2. apply loc_exact_iff. apply Hs4. by split. }
  assert (Hm2 : 0 ≤ m2 ≤ 2 ^ 53) by (clearbody m1 m2; lia).
  split; [done|]. split; [apply Hm2|]. split; [done|].
  assert (He1lo : -1074 ≤ e1) by (clearbody e1; lia).
  rewrite (shr_fexp_carry m2 e1 He1lo Hm2).
  destruct (m2 =? 2 ^ 53) eqn:E53; cbn [shr_m].
  - apply Z.eqb_eq in E53. rewrite E53. reflexivity.
  - destruct (m2 =? 0) eqn:E0.
    + apply Z.eqb_eq in E0. by rewrite E0.
    + apply Z.eqb_neq in E0. destruct m2 as [|p|p]; try lia. reflexivity.
Qed.

(** *** Values *)

Lemma pow2_pos (k : Z) : 0 ≤ k → 0 < 2 ^ k.
Proof. intros. apply Z.pow_pos_nonneg; lia. Qed.

Lemma pow2_split (a b : Z) : 0 ≤ a → 0 ≤ b → 2 ^ (a + b) = 2 ^ a * 2 ^ b.
Proof. intros. apply Z.pow_add_r; lia. Qed.

Lemma sc_shift (m e k : Z) : 0 ≤ k → -2200 ≤ e → sc (m * 2 ^ k) e = sc m (e + k).
Proof.
  intros Hk He. unfold sc.
  replace (e + k + 2200) with (k + (e + 2200)) by lia.
  rewrite (pow2_split k (e + 2200)) by lia. ring.
Qed.

Lemma sc_pos (m e : Z) : -2200 ≤ e → 0 < m → 0 < sc m e.
Proof. intros He Hm. unfold sc. pose proof (pow2_pos (e + 2200)). nia. Qed.

Lemma sc_le (m m' e : Z) : -2200 ≤ e → sc m e ≤ sc m' e ↔ m ≤ m'.
Proof. intros He. unfold sc. pose proof (pow2_pos (e + 2200)). nia. Qed.

Lemma sc_lt (m m' e : Z) : -2200 ≤ e → sc m e < sc m' e ↔ m < m'.
Proof. intros He. unfold sc. pose proof (pow2_pos (e + 2200)). nia. Qed.

(** A canonical number of smaller exponent is smaller. *)
Lemma canon_exponent_lt (m e m' e' : Z) :
  canon m e → canon m' e' → e < e' → sc m e < sc m' e'.
Proof.
  intros (He & Hm & _) (He' & Hm' & Hn') Hlt.
  assert (Hlo : 2 ^ 52 ≤ m') by (apply Hn'; lia).
  replace e' with (e + (e' - e)) by lia.
  rewrite <- sc_shift by lia. apply sc_lt; [lia|].
  assert (2 ≤ 2 ^ (e' - e)).
  { change 2 with (2 ^ 1) at 1. apply Z.pow_le_mono_r; lia. }
  nia.
Qed.

(** The heart of rounding: the value [mx * 2^ex] lies between
    [m1 * 2^e1] and [(m1 + 1) * 2^e1], the result is one of the two, and
    no canonical number lies strictly between the value and the result. *)
Section RoundBetween.
Variables mx ex n m1 m2 : Z.
Hypothesis Hex : -2200 ≤ ex.
Hypothesis Hn : 0 ≤ n.
Hypothesis He1 : -1074 ≤ ex + n.
Hypothesis Hmx : 0 < mx.
Hypothesis Hm1 : m1 = mx / 2 ^ n.
Hypothesis Hm2 : m2 = m1 ∨ m2 = m1 + 1.
Hypothesis Hexact : mx mod 2 ^ n = 0 → m2 = m1.
Hypothesis Hnormal : -1074 < ex + n → 2 ^ 52 ≤ m1.

Local Abbreviation e1 := (ex + n).

Lemma round_bracket : sc m1 e1 ≤ sc mx ex < sc (m1 + 1) e1.
Proof.
  pose proof (pow2_pos n Hn) as Hp.
  pose proof (Z.div_mod mx (2 ^ n) ltac:(lia)) as Hdm.
  pose proof (Z.mod_pos_bound mx (2 ^ n) Hp) as Hb.
  rewrite <- Hm1 in Hdm.
  rewrite <- !sc_shift by lia.
  split; [apply sc_le|apply sc_lt]; lia.
Qed.

Lemma round_exact_stays : m2 = m1 + 1 → sc m1 e1 < sc mx ex.
Proof.
  intros H2.
  pose proof (pow2_pos n Hn) as Hp.
  pose proof (Z.div_mod mx (2 ^ n) ltac:(lia)) as Hdm.
  pose proof (Z.mod_pos_bound mx (2 ^ n) Hp) as Hb.
  rewrite <- Hm1 in Hdm.
  assert (mx mod 2 ^ n ≠ 0) by (intros H0; apply Hexact in H0; lia).
  rewrite <- sc_shift by lia. apply sc_lt; lia.
Qed.

(** A canonical number is a multiple of [2^e1] or lies below
    [2^52 * 2^e1]. *)
Lemma canon_grid (my ey : Z) :
  canon my ey →
  (∃ k, sc my ey = sc k e1) ∨ (-1074 < e1 ∧ sc my ey < sc (2 ^ 52) e1).
Proof.
  intros (Hey & Hmy & Hny).
  destruct (Z_le_gt_dec e1 ey) as [Hle|Hgt].
  - left. exists (my * 2 ^ (ey - e1)). rewrite sc_shift by lia. f_equal. lia.
  - right. split; [lia|].
    assert (E : sc (2 ^ 52) e1 = sc (2 ^ 52 * 2 ^ (e1 - ey)) ey)
      by (rewrite sc_shift by lia; f_equal; lia).
    rewrite E. apply sc_lt; [lia|].
    assert (2 ≤ 2 ^ (e1 - ey)).
    { change 2 with (2 ^ 1) at 1. apply Z.pow_le_mono_r; lia. }
    nia.
Qed.

Lemma round_above (my ey : Z) :
  canon my ey → sc my ey ≤ sc mx ex → sc my ey ≤ sc m2 e1.
Proof.
  intros Hy Hle. pose proof round_bracket as [Hb1 Hb2].
  destruct Hm2 as [->| ->].
  - destruct (canon_grid my ey Hy) as [[k Hk]|[Hnorm Hlt]].
    + rewrite Hk in *. apply sc_le; [lia|].
      assert (k < m1 + 1) by (apply (sc_lt k (m1 + 1) e1); lia). lia.
    + specialize (Hnormal Hnorm).
      assert (sc (2 ^ 52) e1 ≤ sc m1 e1) by (apply sc_le; lia). lia.
  - lia.
Qed.

Lemma round_below (my ey : Z) :
  canon my ey → sc mx ex ≤ sc my ey → sc m2 e1 ≤ sc my ey.
Proof.
  intros Hy Hle. pose proof round_bracket as [Hb1 Hb2].
  destruct Hm2 as [->|H2].
  - lia.
  - pose proof (round_exact_stays H2) as Hlt. rewrite H2.
    destruct (canon_grid my ey Hy) as [[k Hk]|[Hnorm Hlt']].
    + rewrite Hk in *. apply sc_le; [lia|].
      assert (m1 < k) by (apply (sc_lt m1 k e1); lia). lia.
    + specialize (Hnormal Hnorm).
      assert (sc (2 ^ 52) e1 ≤ sc m1 e1) by (apply sc_le; lia). lia.
Qed.
End RoundBetween.

(** *** Well-formed floats *)

Lemma canonical_mantissa_canon (m : positive) (e : Z) :
  canonical_mantissa F64.prec F64.emax m e = true ↔ canon (Zpos m) e.
Proof.
  unfold canonical_mantissa, canon. rewrite fexp_eq, Z.eqb_eq.
  pose proof (digits2_pos_bounds m) as [Hlo Hhi].
  set (d := Zpos (digits2_pos m)) in *.
  split.
  - intros H. assert (Hd : d ≤ 53) by lia.
    split; [lia|]. split.
    + split; [lia|]. eapply Z.lt_le_trans; [exact Hhi|].
      apply Z.pow_le_mono_r; lia.
    + intros He. assert (d = 53) as Hd53 by lia. rewrite Hd53 in Hlo. exact Hlo.
  - intros (He & [_ Hm] & Hn).
    assert (Hd : d ≤ 53) by (apply digits2_pos_le; exact Hm).
    destruct (Z.eq_dec e (-1074)) as [->|]; [lia|].
    assert (53 ≤ d) by (apply digits2_pos_ge; apply Hn; lia). lia.
Qed.

Lemma valid_binary_wf (x : float) :
  valid_binary F64.prec F64.emax x = true ↔ wf x.
Proof.
  destruct x as [s|s| |s m e]; cbn [valid_binary wf]; try tauto.
  unfold bounded. rewrite andb_true_iff, canonical_mantissa_canon, Z.leb_le.
  reflexivity.
Qed.

(** *** The result of rounding a positive value *)

Lemma binary_round_aux_order (s : bool) (mx : positive) (ex : Z) :
  -2200 ≤ ex →
  ex ≤ fexp F64.prec F64.emax (Zpos (digits2_pos mx) + ex) →
  let r := binary_round_aux F64.prec F64.emax s (Zpos mx) ex loc_Exact in
  wf r ∧ has_sign s r ∧
  (∀ my ey, canon my ey → sc my ey ≤ sc (Zpos mx) ex → mag_ge r (sc my ey)) ∧
  (∀ my ey, canon my ey → ey ≤ 971 → sc (Zpos mx) ex ≤ sc my ey → mag_le r (sc my ey)).
Proof.
  intros Hex Hpre r.
  destruct (binary_round_aux_exact s mx ex Hpre)
    as (m2 & Hm2 & Hexact & Hm1 & Hm2hi & Hnormal & Hr).
  fold r in Hr.
  set (e1 := fexp F64.prec F64.emax (Zpos (digits2_pos mx) + ex)) in *.
  assert (He1 : -1074 ≤ e1) by (subst e1; rewrite fexp_eq; lia).
  set (n := e1 - ex) in *.
  assert (Hn : 0 ≤ n) by lia.
  assert (E : e1 = ex + n) by lia.
  set (m1 := Zpos mx / 2 ^ n) in *.
  assert (Habove := round_above (Zpos mx) ex n m1 m2 Hex Hn ltac:(lia)
                      eq_refl Hm2 Hexact ltac:(rewrite <- E; exact Hnormal)).
  assert (Hbelow := round_below (Zpos mx) ex n m1 m2 Hex Hn ltac:(lia)
                      eq_refl Hm2 Hexact ltac:(rewrite <- E; exact Hnormal)).
  rewrite <- E in Habove, Hbelow.
  (* the result as a canonical pair of the same value *)
  assert (Hcanon : m2 ≠ 0 →
    ∃ m3 e3, canon (Zpos m3) e3 ∧ sc (Zpos m3) e3 = sc m2 e1 ∧
      r = if e3 <=? 971 then S754_finite s m3 e3 else S754_infinity s).
  { intros H0. destruct (m2 =? 0) eqn:E0; [apply Z.eqb_eq in E0; done|].
    destruct (m2 =? 2 ^ 53) eqn:E53.
    - apply Z.eqb_eq in E53. exists (2 ^ 52)%positive, (e1 + 1).
      split; [unfold canon; lia|]. split; [|exact Hr].
      rewrite E53. change (2 ^ 53) with (2 ^ 52 * 2 ^ 1).
      rewrite sc_shift by lia. reflexivity.
    - apply Z.eqb_neq in E53. exists (Z.to_pos m2), e1.
      assert (0 < m2) by (clearbody m1; lia).
      rewrite Z2Pos.id by done.
      split; [|split; [reflexivity|exact Hr]].
      unfold canon. split; [done|]. split; [lia|].
      intros Hgt. specialize (Hnormal Hgt). clearbody m1. lia. }
  destruct (Z.eq_dec m2 0) as [E0|E0].
  - rewrite E0 in Hr. cbn in Hr. rewrite Hr. cbn [wf has_sign mag_ge mag_le].
    split; [exact I|]. split; [reflexivity|]. split.
    + intros my ey Hy Hle. specialize (Habove my ey Hy Hle).
      rewrite E0 in Habove. unfold sc in Habove at 2. lia.
    + intros my ey Hy _ Hle.
      pose proof (sc_pos (Zpos mx) ex Hex ltac:(lia)). lia.
  - destruct (Hcanon E0) as (m3 & e3 & Hc3 & Hv3 & Hr3).
    destruct (e3 <=? 971) eqn:Ee3; rewrite Hr3.
    + apply Z.leb_le in Ee3. cbn [wf has_sign mag_ge mag_le].
      split; [done|]. split; [reflexivity|]. split.
      * intros my ey Hy Hle. rewrite Hv3. by apply Habove.
      * intros my ey Hy _ Hle. rewrite Hv3. by apply Hbelow.
    + apply Z.leb_gt in Ee3. cbn [wf has_sign mag_ge mag_le].
      split; [exact I|]. split; [reflexivity|]. split; [done|].
      intros my ey Hy Hey Hle. specialize (Hbelow my ey Hy Hle).
      rewrite <- Hv3 in Hbelow.
      pose proof (canon_exponent_lt my ey (Zpos m3) e3 Hy Hc3 ltac:(lia)). lia.
Qed.

(** *** Alignment and [binary_round] *)

Lemma iter_xO (m d : positive) : Zpos (Pos.iter xO m d) = Zpos m * 2 ^ Zpos d.
Proof.
  induction d as [|d IH] using Pos.peano_ind.
  - cbn. lia.
  - rewrite Pos.iter_succ, Pos2Z.inj_xO, IH, Pos2Z.inj_succ, Z.pow_succ_r by lia. ring.
Qed.

Lemma shl_align_spec (mx : positive) (ex ex' : Z) :
  let mz := (shl_align mx ex ex').1 in
  let ez := (shl_align mx ex ex').2 in
  ez = Z.min ex ex' ∧ Zpos mz = Zpos mx * 2 ^ (ex - ez).
Proof.
  unfold shl_align. destruct (ex' - ex) as [|d|d] eqn:E; cbn [fst snd].
  - replace (Z.min ex ex') with ex by lia. rewrite Z.sub_diag. lia.
  - replace (Z.min ex ex') with ex by lia. rewrite Z.sub_diag. lia.
  - replace (Z.min ex ex') with ex' by lia. split; [done|].
    rewrite iter_xO. f_equal. f_equal. lia.
Qed.

Lemma digits2_pos_shift (m m' : positive) (k : Z) :
  0 ≤ k → Zpos m' = Zpos m * 2 ^ k →
  Zpos (digits2_pos m') = Zpos (digits2_pos m) + k.
Proof.
  intros Hk Hm'. pose proof (digits2_pos_bounds m) as [Hlo Hhi].
  pose proof (pow2_pos k Hk) as Hp.
  apply Z.le_antisymm.
  - apply digits2_pos_le. rewrite Hm', pow2_split by lia. nia.
  - apply digits2_pos_ge. rewrite Hm'.
    replace (Zpos (digits2_pos m) + k - 1) with (Zpos (digits2_pos m) - 1 + k) by lia.
    pose proof (Pos2Z.is_pos (digits2_pos m)).
    rewrite pow2_split by lia. nia.
Qed.

Lemma binary_round_order (s : bool) (mx : positive) (ex : Z) :
  -2200 ≤ ex →
  let r := binary_round F64.prec F64.emax s mx ex in
  wf r ∧ has_sign s r ∧
  (∀ my ey, canon my ey → sc my ey ≤ sc (Zpos mx) ex → mag_ge r (sc my ey)) ∧
  (∀ my ey, canon my ey → ey ≤ 971 → sc (Zpos mx) ex ≤ sc my ey → mag_le r (sc my ey)).
Proof.
  intros Hex. unfold binary_round.
  set (e' := fexp F64.prec F64.emax (Zpos (digits2_pos mx) + ex)).
  destruct (shl_align_spec mx ex e') as [Hez Hmz].
  destruct (shl_align mx ex e') as [mz ez]. cbn [fst snd] in Hez, Hmz.
  assert (He' : -1074 ≤ e') by (subst e'; rewrite fexp_eq; lia).
  assert (Hd : Zpos (digits2_pos mz) = Zpos (digits2_pos mx) + (ex - ez))
    by (apply digits2_pos_shift; [lia|done]).
  assert (Hv : sc (Zpos mz) ez = sc (Zpos mx) ex).
  { rewrite Hmz, sc_shift by lia. f_equal. lia. }
  rewrite <- Hv. apply binary_round_aux_order; [lia|].
  rewrite Hd. replace (Zpos (digits2_pos mx) + (ex - ez) + ez)
    with (Zpos (digits2_pos mx) + ex) by lia.
  fold e'. lia.
Qed.

(** *** Signed values *)

Lemma sval_sign (x : float) :
  is_finite x → -2200 ≤ match x with S754_finite _ _ e => e | _ => 0 end →
  match x with
  | S754_finite true _ _ => sval x < 0
  | S754_finite false _ _ => 0 < sval x
  | _ => sval x = 0
  end.
Proof.
  destruct x as [s|s| |[] m e]; try done; intros _ He; cbn [sval cond_Zopp];
    pose proof (sc_pos (Zpos m) e He ltac:(lia)); lia.
Qed.

Lemma binary_normalize_order (m e : Z) (szero : bool) :
  -2200 ≤ e →
  let r := binary_normalize F64.prec F64.emax m e szero in
  wf r ∧ r ≠ S754_nan ∧
  (0 ≤ m → has_sign false r ∨ r = S754_zero szero) ∧
  (∀ y, wf y → is_finite y → sval y ≤ sc m e → val_ge r (sval y)) ∧
  (∀ y, wf y → is_finite y → sc m e ≤ sval y → val_le r (sval y)).
Proof.
  intros He r. subst r. destruct m as [|m|m]; cbn [binary_normalize].
  - cbn [wf val_ge val_le sval]. change (sc 0 e) with 0.
    repeat split; auto; try done.
  - destruct (binary_round_order false m e He) as (Hwf & Hs & Hge & Hle).
    pose proof (sc_pos (Zpos m) e He ltac:(lia)) as Hpos.
    set (r := binary_round F64.prec F64.emax false m e) in *.
    split; [done|]. split; [by destruct r|]. split; [auto|]. split.
    + intros y Hy Hfy Hyx. destruct y as [sy|sy| |sy my ey]; try done.
      * destruct r as [sr|sr| |sr mr er]; cbn [has_sign val_ge val_le mag_ge mag_le sval cond_Zopp] in Hs |- *; try done.
        subst sr. cbn [cond_Zopp]. pose proof (sc_pos (Zpos mr) er). destruct Hwf as [[? _] _]. lia.
      * destruct Hy as [Hcy Hey].
        destruct sy; cbn [sval cond_Zopp] in *.
        -- pose proof (sc_pos (Zpos my) ey ltac:(destruct Hcy; lia) ltac:(lia)).
           destruct r as [sr|sr| |sr mr er]; cbn [has_sign val_ge val_le mag_ge mag_le sval cond_Zopp] in Hs |- *; try done; try lia.
           subst sr. cbn [cond_Zopp]. pose proof (sc_pos (Zpos mr) er).
           destruct Hwf as [[? _] _]. lia.
        -- specialize (Hge _ _ Hcy Hyx).
           destruct r as [sr|sr| |sr mr er]; cbn [has_sign val_ge val_le mag_ge mag_le sval cond_Zopp] in Hs, Hge |- *; try done.
           by subst sr.
    + intros y Hy Hfy Hxy. destruct y as [sy|sy| |sy my ey]; try done.
      * cbn [sval] in Hxy. lia.
      * destruct Hy as [Hcy Hey].
        destruct sy; cbn [sval cond_Zopp] in *.
        -- pose proof (sc_pos (Zpos my) ey ltac:(destruct Hcy; lia) ltac:(lia)). lia.
        -- specialize (Hle _ _ Hcy Hey Hxy).
           destruct r as [sr|sr| |sr mr er]; cbn [has_sign val_ge val_le mag_ge mag_le sval cond_Zopp] in Hs, Hle |- *; try done.
           by subst sr.
  - destruct (binary_round_order true m e He) as (Hwf & Hs & Hge & Hle).
    pose proof (sc_pos (Zpos m) e He ltac:(lia)) as Hpos.
    assert (Hneg : sc (Z.neg m) e = - sc (Zpos m) e) by (unfold sc; lia).
    set (r := binary_round F64.prec F64.emax true m e) in *.
    split; [done|]. split; [by destruct r|]. split; [lia|]. split.
    + intros y Hy Hfy Hyx. destruct y as [sy|sy| |sy my ey]; try done.
      * cbn [sval] in Hyx. lia.
      * destruct Hy as [Hcy Hey].
        destruct sy; cbn [sval cond_Zopp] in *.
        -- specialize (Hle (Zpos my) ey Hcy Hey ltac:(lia)).
           destruct r as [sr|sr| |sr mr er]; cbn [has_sign val_ge val_le mag_ge mag_le sval cond_Zopp] in Hs, Hle |- *; try done.
           ++ lia.
           ++ subst sr. cbn [has_sign val_ge val_le mag_ge mag_le sval cond_Zopp]. lia.
        -- pose proof (sc_pos (Zpos my) ey ltac:(destruct Hcy; lia) ltac:(lia)). lia.
    + intros y Hy Hfy Hxy. destruct y as [sy|sy| |sy my ey]; try done.
      * destruct r as [sr|sr| |sr mr er]; cbn [has_sign val_ge val_le mag_ge mag_le sval cond_Zopp] in Hs |- *; try done.
        subst sr. cbn [cond_Zopp]. pose proof (sc_pos (Zpos mr) er). destruct Hwf as [[? _] _]. lia.
      * destruct Hy as [Hcy Hey].
        destruct sy; cbn [sval cond_Zopp] in *.
        -- specialize (Hge (Zpos my) ey Hcy ltac:(lia)).
           destruct r as [sr|sr| |sr mr er]; cbn [has_sign val_ge val_le mag_ge mag_le sval cond_Zopp] in Hs, Hge |- *; try done.
           ++ lia.
           ++ subst sr. cbn [has_sign val_ge val_le mag_ge mag_le sval cond_Zopp]. lia.
        -- pose proof (sc_pos (Zpos my) ey ltac:(destruct Hcy; lia) ltac:(lia)).
           destruct r as [sr|sr| |sr mr er]; cbn [has_sign val_ge val_le mag_ge mag_le sval cond_Zopp] in Hs |- *; try done; try lia.
           subst sr. cbn [cond_Zopp]. pose proof (sc_pos (Zpos mr) er).
           destruct Hwf as [[? _] _]. lia.
Qed.

(** *** Comparison, addition, subtraction, multiplication, halving *)

Lemma wf_exponent_ok (x : float) : wf x → exponent_ok x.
Proof. destruct x as [s|s| |s m e]; cbn; try done. by intros [[? _] _]. Qed.

(** On well-formed is_finite floats [SFcompare] is the order of the values. *)
Lemma SFcompare_sval (x y : float) :
  wf x → wf y → is_finite x → is_finite y →
  SFcompare x y = Some (sval x ?= sval y).
Proof.
  intros Hx Hy Hfx Hfy.
  destruct x as [sx|sx| |sx mx ex]; try done;
    destruct y as [sy|sy| |sy my ey]; try done; cbn [SFcompare sval].
  - destruct Hy as [Hcy _].
    pose proof (sc_pos (Zpos my) ey ltac:(destruct Hcy; lia) ltac:(lia)).
    destruct sy; cbn [cond_Zopp]; f_equal; symmetry;
      [apply Z.compare_gt_iff|apply Z.compare_lt_iff]; lia.
  - destruct Hx as [Hcx _].
    pose proof (sc_pos (Zpos mx) ex ltac:(destruct Hcx; lia) ltac:(lia)).
    destruct sx; cbn [cond_Zopp]; f_equal; symmetry;
      [apply Z.compare_lt_iff|apply Z.compare_gt_iff]; lia.
  - destruct Hx as [Hcx _], Hy as [Hcy _].
    assert (Hex : -2200 ≤ ex) by (destruct Hcx; lia).
    assert (Hey : -2200 ≤ ey) by (destruct Hcy; lia).
    pose proof (sc_pos (Zpos mx) ex Hex ltac:(lia)).
    pose proof (sc_pos (Zpos my) ey Hey ltac:(lia)).
    assert (Hcmp : match ex ?= ey with
                   | Lt => Lt | Gt => Gt | Eq => Pos.compare_cont Eq mx my
                   end = (sc (Zpos mx) ex ?= sc (Zpos my) ey)).
    { destruct (ex ?= ey) eqn:E.
      - apply Z.compare_eq in E. subst ey. symmetry.
        change (Pos.compare_cont Eq mx my) with (Zpos mx ?= Zpos my).
        destruct (Zpos mx ?= Zpos my) eqn:E'.
        + apply Z.compare_eq in E'. rewrite E'. apply Z.compare_refl.
        + apply Z.compare_lt_iff. apply sc_lt; [done|]. by apply Z.compare_lt_iff.
        + apply Z.compare_gt_iff. apply sc_lt; [done|]. by apply Z.compare_gt_iff.
      - symmetry. apply Z.compare_lt_iff. apply canon_exponent_lt; try done.
      - symmetry. apply Z.compare_gt_iff. apply canon_exponent_lt; try done.
        by apply Z.compare_gt_iff in E. }
    destruct sx, sy; cbn [cond_Zopp]; f_equal.
    + rewrite Z.compare_opp, (Z.compare_antisym (sc (Zpos mx) ex)), <- Hcmp.
      by destruct (ex ?= ey).
    + symmetry. apply Z.compare_lt_iff. lia.
    + symmetry. apply Z.compare_gt_iff. lia.
    + exact Hcmp.
Qed.

Lemma SFleb_sval (x y : float) :
  wf x → wf y → is_finite x → is_finite y →
  SFleb x y = true ↔ sval x ≤ sval y.
Proof.
  intros Hx Hy Hfx Hfy. unfold SFleb. rewrite (SFcompare_sval x y) by done.
  destruct (sval x ?= sval y) eqn:E.
  - apply Z.compare_eq in E. split; [intros _; rewrite E; reflexivity|done].
  - apply Z.compare_lt_iff in E. split; [intros _; apply Z.lt_le_incl, E|done].
  - apply Z.compare_gt_iff in E. split; [done|intros H; exfalso; apply (Z.lt_irrefl (sval x)); eapply Z.le_lt_trans; [exact H|exact E]].
Qed.

(** Addition and subtraction of is_finite floats round the exact result. *)
Lemma aligned_value (s : bool) (m : positive) (e ez : Z) :
  -2200 ≤ ez → ez ≤ e →
  sc (cond_Zopp s (Zpos (shl_align m e ez).1)) ez = cond_Zopp s (sc (Zpos m) e).
Proof.
  intros Hez Hle. destruct (shl_align_spec m e ez) as [H1 H2].
  rewrite H1 in H2. replace (Z.min e ez) with ez in H2 by lia.
  assert (E : sc (Zpos (shl_align m e ez).1) ez = sc (Zpos m) e).
  { rewrite H2, sc_shift by lia. f_equal. lia. }
  destruct s; cbn [cond_Zopp]; [|exact E].
  rewrite <- E. unfold sc. lia.
Qed.

Lemma sc_add (m m' e : Z) : sc (m + m') e = sc m e + sc m' e.
Proof. unfold sc. ring. Qed.

Lemma sc_sub (m m' e : Z) : sc (m - m') e = sc m e - sc m' e.
Proof. unfold sc. ring. Qed.

Lemma SFadd_finite (sx : bool) (mx : positive) (ex : Z) (sy : bool) (my : positive) (ey : Z) :
  -2200 ≤ ex → -2200 ≤ ey →
  ∃ m e, -2200 ≤ e ∧
    sc m e = sval (S754_finite sx mx ex) + sval (S754_finite sy my ey) ∧
    SFadd F64.prec F64.emax (S754_finite sx mx ex) (S754_finite sy my ey)
      = binary_normalize F64.prec F64.emax m e false.
Proof.
  intros Hex Hey. eexists _, (Z.min ex ey). split; [lia|]. split; [|reflexivity].
  rewrite sc_add, !aligned_value by lia. reflexivity.
Qed.

Lemma SFsub_finite (sx : bool) (mx : positive) (ex : Z) (sy : bool) (my : positive) (ey : Z) :
  -2200 ≤ ex → -2200 ≤ ey →
  ∃ m e, -2200 ≤ e ∧
    sc m e = sval (S754_finite sx mx ex) - sval (S754_finite sy my ey) ∧
    SFsub F64.prec F64.emax (S754_finite sx mx ex) (S754_finite sy my ey)
      = binary_normalize F64.prec F64.emax m e false.
Proof.
  intros Hex Hey. eexists _, (Z.min ex ey). split; [lia|]. split; [|reflexivity].
  rewrite sc_sub, !aligned_value by lia. reflexivity.
Qed.

Lemma mul_precondition (mp ep mm em : Z) (m : positive) :
  canon mp ep → canon mm em → Zpos m = mp * mm →
  ep + em ≤ fexp F64.prec F64.emax (Zpos (digits2_pos m) + (ep + em)).
Proof.
  intros (Hep & Hmp & Hnp) (Hem & Hmm & Hnm) Hm. rewrite fexp_eq.
  destruct (Z.eq_dec ep (-1074)) as [Ep|Ep];
    destruct (Z.eq_dec em (-1074)) as [Em|Em]; try lia.
  - assert (53 ≤ Zpos (digits2_pos m)); [|lia].
    apply digits2_pos_ge. rewrite Hm. specialize (Hnm ltac:(lia)). nia.
  - assert (53 ≤ Zpos (digits2_pos m)); [|lia].
    apply digits2_pos_ge. rewrite Hm. specialize (Hnp ltac:(lia)). nia.
  - assert (53 ≤ Zpos (digits2_pos m)); [|lia].
    apply digits2_pos_ge. rewrite Hm. specialize (Hnp ltac:(lia)). nia.
Qed.

Lemma mul_wf (x y : float) : wf x → wf y → wf (F64.mul x y).
Proof.
  intros Hx Hy.
  destruct x as [sx|sx| |sx mx ex]; destruct y as [sy|sy| |sy my ey]; try exact I.
  destruct Hx as [Hcx _], Hy as [Hcy _].
  apply (binary_round_aux_order (xorb sx sy) (mx * my) (ex + ey)).
  - destruct Hcx, Hcy. lia.
  - apply (mul_precondition (Zpos mx) ex (Zpos my) ey); done.
Qed.

(** [1 <= p] and [0 < m]: the rounded product [p * m] is at least [m]. *)
Lemma mul_ge_right (mp : positive) (ep : Z) (mm : positive) (em : Z) :
  canon (Zpos mp) ep → canon (Zpos mm) em →
  2 ^ 2200 ≤ sc (Zpos mp) ep →
  let r := F64.mul (S754_finite false mp ep) (S754_finite false mm em) in
  wf r ∧ has_sign false r ∧ mag_ge r (sc (Zpos mm) em).
Proof.
  intros Hcp Hcm H1 r.
  assert (Hep : -1074 ≤ ep) by (destruct Hcp; lia).
  assert (Hem : -1074 ≤ em) by (destruct Hcm; lia).
  destruct (binary_round_aux_order false (mp * mm) (ep + em)) as (Hwf & Hs & Hge & _).
  - lia.
  - apply (mul_precondition (Zpos mp) ep (Zpos mm) em); done.
  - split; [exact Hwf|]. split; [exact Hs|].
    apply (Hge (Zpos mm) em Hcm).
    rewrite Pos2Z.inj_mul. unfold sc in *.
    pose proof (pow2_pos (em + 2200) ltac:(lia)) as Hpm.
    destruct (Z_le_gt_dec 0 ep) as [Hp|Hp].
    + assert (E : 2 ^ (ep + em + 2200) = 2 ^ ep * 2 ^ (em + 2200))
        by (rewrite <- pow2_split by lia; f_equal; lia).
      rewrite E. pose proof (pow2_pos ep Hp). nia.
    + assert (E1 : 2 ^ 2200 = 2 ^ (- ep) * 2 ^ (ep + 2200))
        by (rewrite <- pow2_split by lia; f_equal; lia).
      assert (E2 : 2 ^ (em + 2200) = 2 ^ (- ep) * 2 ^ (ep + em + 2200))
        by (rewrite <- pow2_split by lia; f_equal; lia).
      rewrite E1 in H1. rewrite E2.
      pose proof (pow2_pos (ep + 2200) ltac:(lia)).
      pose proof (pow2_pos (ep + em + 2200) ltac:(lia)).
      pose proof (pow2_pos (- ep) ltac:(lia)).
      assert (Hmp : 2 ^ (- ep) ≤ Zpos mp) by nia.
      nia.
Qed.

Lemma add_wf (x y : float) : wf x → wf y → wf (F64.add x y).
Proof.
  intros Hx Hy.
  destruct x as [sx|sx| |sx mx ex]; destruct y as [sy|sy| |sy my ey];
    try exact I; try exact Hx; try exact Hy.
  - by destruct sx, sy.
  - by destruct sx, sy.
  - unfold F64.add.
    destruct (SFadd_finite sx mx ex sy my ey) as (m & e & He & _ & ->).
    + destruct Hx as [[? _] _]. lia.
    + destruct Hy as [[? _] _]. lia.
    + by apply binary_normalize_order.
Qed.

Lemma sub_wf (x y : float) : wf x → wf y → wf (F64.sub x y).
Proof.
  intros Hx Hy.
  destruct x as [sx|sx| |sx mx ex]; destruct y as [sy|sy| |sy my ey];
    try exact I; try exact Hx; try exact Hy.
  - by destruct sx, sy.
  - by destruct sx, sy.
  - unfold F64.sub.
    destruct (SFsub_finite sx mx ex sy my ey) as (m & e & He & _ & ->).
    + destruct Hx as [[? _] _]. lia.
    + destruct Hy as [[? _] _]. lia.
    + by apply binary_normalize_order.
Qed.

Lemma of_int_wf (z : Z) : wf (F64.of_int z).
Proof. by apply binary_normalize_order. Qed.

(** Whatever it rounds, [binary_round_aux] keeps the sign it is given
    and returns no exponent below [emin]. *)
Lemma shr_record_of_loc_m (m : Z) (l : location) : shr_m (shr_record_of_loc m l) = m.
Proof. by destruct l as [|[]]. Qed.

Lemma binary_round_aux_sign (s : bool) (m e : Z) (l : location) :
  0 ≤ m →
  let r := binary_round_aux F64.prec F64.emax s m e l in
  has_sign s r ∧ exponent_ok r.
Proof.
  intros Hm. unfold binary_round_aux, shr_fexp.
  destruct (shr_spec (shr_record_of_loc m l) e
              (fexp F64.prec F64.emax (Zdigits2 m + e) - e))
    as (_ & _ & H1 & _); [by rewrite shr_record_of_loc_m|].
  destruct (shr (shr_record_of_loc m l) e _) as [mrs' e']. cbn [fst] in H1.
  set (m2 := round_nearest_even (shr_m mrs') (loc_of_shr_record mrs')).
  assert (Hm2 : 0 ≤ m2).
  { destruct (round_nearest_even_cases (shr_m mrs') (loc_of_shr_record mrs'))
      as [[H|H] _]; fold m2 in H; lia. }
  cbn [shr_record_of_loc].
  set (n := fexp F64.prec F64.emax (Zdigits2 m2 + e') - e').
  destruct (shr_spec (Build_shr_record m2 false false) e' n Hm2)
    as (_ & He'' & H2 & _).
  destruct (shr (Build_shr_record m2 false false) e' n) as [mrs'' e''].
  cbn [fst snd] in He'', H2.
  assert (-1074 ≤ e'') by (subst n; rewrite fexp_eq in He''; lia).
  destruct (shr_m mrs'') as [|p|p]; [done| |lia].
  destruct (e'' <=? F64.emax - F64.prec); done.
Qed.

Lemma div_eucl_quotient (a b : Z) : (Z.div_eucl a b).1 = a / b.
Proof. unfold Z.div. by destruct (Z.div_eucl a b). Qed.

(** Halving keeps zeros, infinities and NaN, and the sign of a is_finite
    number. *)
Lemma div_two_sign (x : float) :
  let r := F64.div x (F64.of_int 2) in
  match x with
  | S754_zero s => r = S754_zero s
  | S754_infinity s => r = S754_infinity s
  | S754_nan => r = S754_nan
  | S754_finite s _ _ => has_sign s r ∧ exponent_ok r
  end.
Proof.
  change (F64.of_int 2) with (S754_finite false 4503599627370496 (-51)).
  destruct x as [s|s| |s m e]; cbn [F64.div SFdiv xorb].
  - by destruct s.
  - by destruct s.
  - reflexivity.
  - unfold F64.div, SFdiv.
    destruct (SFdiv_core_binary F64.prec F64.emax (Z.pos m) e 4503599627370496 (-51))
      as [[mz ez] lz] eqn:E.
    replace (xorb s false) with s by by destruct s.
    apply binary_round_aux_sign.
    unfold SFdiv_core_binary in E.
    set (m' := match _ with Z0 => _ | Zpos _ => _ | Zneg _ => _ end) in E.
    assert (Hm' : 0 ≤ m').
    { subst m'. destruct (_ - _ - _); try lia. apply Z.shiftl_nonneg. lia. }
    pose proof (div_eucl_quotient m' 4503599627370496) as Hq.
    destruct (Z.div_eucl m' 4503599627370496) as [q r]. injection E as <- _ _.
    cbn [fst] in Hq. rewrite Hq. apply Z.div_pos; lia.
Qed.

(** *** Truncation and clamping *)

Lemma trunc_sc (s : bool) (m : positive) (e : Z) :
  -2200 ≤ e →
  F64.trunc (S754_finite s m e) = Some (cond_Zopp s (sc (Zpos m) e / 2 ^ 2200)).
Proof.
  intros He. cbn [F64.trunc]. f_equal. f_equal. unfold sc.
  destruct (Z_le_gt_dec 0 e) as [Hp|Hn].
  - rewrite Z.shiftl_mul_pow2 by done.
    rewrite (pow2_split e 2200) by lia. rewrite Z.mul_assoc.
    symmetry. apply Z.div_mul. pose proof (pow2_pos 2200). lia.
  - rewrite Z.shiftl_div_pow2 by lia.
    assert (E : 2 ^ 2200 = 2 ^ (- e) * 2 ^ (e + 2200))
      by (rewrite <- pow2_split by lia; f_equal; lia).
    rewrite E. symmetry. apply Z.div_mul_cancel_r.
    + pose proof (pow2_pos (- e)). lia.
    + pose proof (pow2_pos (e + 2200)). lia.
Qed.

Lemma cl_nonneg (x : float) : 0 ≤ cl x.
Proof. unfold cl. apply Z.div_pos; [lia|]. by apply pow2_pos. Qed.

Lemma cl_mono (x y : float) : sval x ≤ sval y → cl x ≤ cl y.
Proof.
  intros H. unfold cl. apply Z.div_le_mono; [by apply pow2_pos|].
  generalize dependent (sval x). generalize (sval y). intros. lia.
Qed.

Lemma int64_cast_id (t : Z) : 0 ≤ t < 2 ^ 63 → int64_cast t = t.
Proof.
  intros H. unfold int64_cast, INT64_MIN.
  replace (- 2 ^ 63 <=? t) with true by (symmetry; apply Z.leb_le; lia).
  replace (t <? 2 ^ 63) with true by (symmetry; apply Z.ltb_lt; lia).
  reflexivity.
Qed.

Lemma clamp_int_finite (x : float) :
  is_finite x → exponent_ok x →
  clamp_int x = int64_cast (cl x) ∧
  (castable (maximum (F64.of_int 0) x) → cl x < 2 ^ 63).
Proof.
  intros Hf He. unfold clamp_int, maximum.
  change (F64.of_int 0) with (S754_zero false).
  destruct x as [s|s| |[] m e]; try done; cbn [exponent_ok] in He.
  - cbn [F64.ge SFleb SFcompare F64.isnan orb].
    pose proof (sc_pos (Zpos m) e ltac:(lia) ltac:(lia)) as Hp.
    assert (E : cl (S754_finite true m e) = 0).
    { unfold cl. cbn [sval cond_Zopp]. rewrite Z.max_l by lia. reflexivity. }
    rewrite E. split; [reflexivity|]. intros _. reflexivity.
  - cbn [F64.ge SFleb SFcompare F64.isnan orb].
    pose proof (sc_pos (Zpos m) e ltac:(lia) ltac:(lia)) as Hp.
    assert (E : cl (S754_finite false m e) = sc (Zpos m) e / 2 ^ 2200).
    { unfold cl. cbn [sval cond_Zopp]. rewrite Z.max_r by lia. reflexivity. }
    rewrite E. unfold F64.astype_int, castable. rewrite trunc_sc by lia.
    cbn [cond_Zopp]. split; [reflexivity|].
    intros (t & [= <-] & Ht). lia.
Qed.

Lemma clamp_int_neg_infinity : clamp_int (S754_infinity true) = 0.
Proof. reflexivity. Qed.

Lemma castable_finite (x : float) :
  castable (maximum (F64.of_int 0) x) → is_finite x ∨ x = S754_infinity true.
Proof.
  intros (t & Ht & _). destruct x as [s|[]| |s m e]; cbn; auto; discriminate Ht.
Qed.

(** *** One axis of the crop *)

Lemma add_order (a o : float) :
  wf a → is_finite a → is_finite o → exponent_ok o →
  let r := F64.add a o in
  r ≠ S754_nan ∧ exponent_ok r ∧
  (0 ≤ sval o → val_ge r (sval a)) ∧
  (sval o ≤ 0 → val_le r (sval a)).
Proof.
  intros Ha Hfa Hfo Heo r. subst r.
  destruct a as [sa|sa| |sa ma ea]; try done;
    destruct o as [so|so| |so mo eo]; try done.
  - assert (E : ∃ s, F64.add (S754_zero sa) (S754_zero so) = S754_zero s)
      by (destruct sa, so; by eexists).
    destruct E as [s ->]. cbn [exponent_ok val_ge val_le sval].
    split; [done|]. split; [done|]. split; intros _; lia.
  - cbn [F64.add SFadd]. cbn [val_ge val_le].
    split; [done|]. split; [by apply wf_exponent_ok|]. split; intros _; lia.
  - unfold F64.add.
    destruct (SFadd_finite sa ma ea so mo eo) as (m & e & He & Hv & ->).
    + destruct Ha as [[? _] _]. lia.
    + cbn in Heo. lia.
    + destruct (binary_normalize_order m e false He) as (Hwf & Hn & _ & Hge & Hle).
      split; [done|]. split; [by apply wf_exponent_ok|].
      split; intros Ho; [apply Hge|apply Hle]; try done; rewrite Hv;
        generalize dependent (sval (S754_finite so mo eo));
        generalize (sval (S754_finite sa ma ea)); intros; lia.
Qed.

Lemma sub_nonneg (a1 a2 : float) :
  wf a1 → wf a2 → is_finite a1 → is_finite a2 → sval a1 ≤ sval a2 →
  nonneg (F64.sub a2 a1).
Proof.
  intros H1 H2 Hf1 Hf2 Hle. split; [by apply sub_wf|].
  destruct a2 as [s2|s2| |s2 m2 e2]; try done;
    destruct a1 as [s1|s1| |s1 m1 e1]; try done.
  - by destruct s2, s1.
  - cbn [F64.sub SFsub]. destruct H1 as [[He1 _] _].
    pose proof (sc_pos (Zpos m1) e1 ltac:(lia) ltac:(lia)).
    destruct s1; [done|]. cbn [sval cond_Zopp] in Hle. lia.
  - cbn [F64.sub SFsub]. destruct H2 as [[He2 _] _].
    pose proof (sc_pos (Zpos m2) e2 ltac:(lia) ltac:(lia)).
    destruct s2; [|done]. cbn [sval cond_Zopp] in Hle. lia.
  - unfold F64.sub.
    destruct (SFsub_finite s2 m2 e2 s1 m1 e1) as (m & e & He & Hv & ->).
    + destruct H2 as [[? _] _]. lia.
    + destruct H1 as [[? _] _]. lia.
    + destruct (binary_normalize_order m e false He) as (_ & Hn & Hs & _).
      assert (Hm : 0 ≤ m).
      { assert (0 ≤ sc m e) by (rewrite Hv; lia).
        destruct (Z_le_gt_dec 0 m) as [|Hneg]; [done|].
        pose proof (sc_pos (- m) e He ltac:(lia)) as Hp. unfold sc in *. lia. }
      destruct (Hs Hm) as [Hsg| ->]; [|done].
      by destruct (binary_normalize F64.prec F64.emax m e false).
Qed.

(** [np.max] of two sizes is one of them and at least both. *)
Lemma maximum_nonneg (h w : float) :
  nonneg h → nonneg w →
  let m := maximum h w in
  (m = h ∨ m = w) ∧ ge_ext m h ∧ ge_ext m w.
Proof.
  intros [Hwh Hh] [Hww Hw]. unfold maximum.
  assert (Hnan : F64.isnan h = false) by by destruct h.
  rewrite Hnan, orb_false_r. unfold F64.ge.
  destruct h as [sh|sh| |sh mh eh]; try done;
    destruct w as [sw|sw| |sw mw ew]; try done; subst.
  - cbn. repeat split; auto; lia.
  - cbn. repeat split; auto.
  - destruct (SFleb (S754_finite false mw ew) (S754_zero sh)) eqn:E.
    + apply SFleb_sval in E; try done. cbn [ge_ext sval] in *.
      split; [auto|]. split; [lia|done].
    + cbn [ge_ext sval cond_Zopp]. split; [auto|]. split; [|lia].
      destruct Hww as [[? _] _]. pose proof (sc_pos (Zpos mw) ew). lia.
  - cbn. repeat split; auto.
  - cbn. repeat split; auto.
  - cbn. repeat split; auto.
  - destruct (SFleb (S754_zero sw) (S754_finite false mh eh)) eqn:E.
    + apply SFleb_sval in E; try done. cbn [ge_ext sval] in *.
      split; [auto|]. split; [lia|done].
    + cbn in E. discriminate E.
  - cbn. repeat split; auto.
  - destruct (SFleb (S754_finite false mw ew) (S754_finite false mh eh)) eqn:E.
    + apply SFleb_sval in E; try done. cbn [ge_ext].
      split; [auto|]. split; [lia|done].
    + cbn [ge_ext]. split; [auto|]. split; [|lia].
      destruct (Z_le_gt_dec (sval (S754_finite false mw ew)) (sval (S754_finite false mh eh)))
        as [Hle|Hgt]; [|lia].
      apply SFleb_sval in Hle; try done. congruence.
Qed.

Lemma div_two_offset_form (d : float) :
  match d with
  | S754_infinity s | S754_finite s _ _ => s = false
  | _ => True
  end →
  offset_form (F64.div d (F64.of_int 2)).
Proof.
  intros Hd. pose proof (div_two_sign d) as H.
  destruct d as [s|s| |s m e]; cbn beta zeta in H.
  - by rewrite H.
  - by rewrite H.
  - by rewrite H.
  - subst s. destruct H as [Hs He].
    destruct (F64.div (S754_finite false m e) (F64.of_int 2)) as [s'|s'| |s' m' e']; done.
Qed.

(** With a is_finite padding factor of at least 1, each offset is 0, a
    positive number, plus infinity or NaN. *)
Lemma offsets_form (mp : positive) (ep : Z) (h w s : float) :
  canon (Zpos mp) ep → 2 ^ 2200 ≤ sc (Zpos mp) ep →
  nonneg h → nonneg w → s = h ∨ s = w →
  offset_form
    (F64.div (F64.sub (F64.mul (S754_finite false mp ep) (maximum h w)) s) (F64.of_int 2)).
Proof.
  intros Hcp H1 Hh Hw Hs.
  destruct (maximum_nonneg h w Hh Hw) as (Hm & Hgh & Hgw).
  set (m := maximum h w) in *.
  assert (Hnm : nonneg m) by (destruct Hm as [-> | ->]; done).
  assert (Hns : nonneg s) by (destruct Hs as [-> | ->]; done).
  assert (Hge : ge_ext m s) by (destruct Hs as [-> | ->]; done).
  clearbody m. clear Hm Hgh Hgw Hs Hh Hw.
  apply div_two_offset_form.
  destruct Hnm as [Hwm Hsm], Hns as [Hws Hss].
  destruct m as [sm|sm| |sm mm em]; try done; subst.
  - (* the larger size is 0 *)
    destruct s as [ss|ss| |ss ms es]; try done.
    + by destruct sm, ss.
    + subst. cbn [ge_ext sval cond_Zopp] in Hge. destruct Hws as [[? _] _].
      pose proof (sc_pos (Zpos ms) es). lia.
  - (* the larger size is infinite *)
    destruct s as [ss|ss| |ss ms es]; try done. by subst.
  - destruct Hwm as [Hcm _].
    destruct (mul_ge_right mp ep mm em Hcp Hcm H1) as (Hwt & Hst & Hgt).
    set (t := F64.mul (S754_finite false mp ep) (S754_finite false mm em)) in *.
    clearbody t.
    assert (Hpm : 0 < sc (Zpos mm) em)
      by (apply sc_pos; [destruct Hcm; lia|lia]).
    destruct t as [st|st| |st mt et]; try done; cbn [has_sign mag_ge] in Hst, Hgt.
    + lia.
    + subst. destruct s as [ss|ss| |ss ms es]; try done.
    + subst.
      assert (Hs' : nonneg (F64.sub (S754_finite false mt et) s)).
      { destruct s as [ss|ss| |ss ms es]; try done; subst.
        apply sub_nonneg; try done.
        cbn [ge_ext] in Hge. cbn [sval cond_Zopp] in *. lia. }
      destruct Hs' as [_ Hs']. by destruct (F64.sub (S754_finite false mt et) s).
Qed.

(** One axis: the lower padded coordinate, clamped and truncated, is at
    most the original lower coordinate, clamped and truncated, and the
    same holds upward for the upper one. *)
Lemma axis_contains (a1 a2 o : float) :
  wf a1 → wf a2 → is_finite a1 → is_finite a2 → sval a1 ≤ sval a2 →
  offset_form o →
  castable (maximum (F64.of_int 0) (F64.add a2 o)) →
  clamp_int (F64.add a1 (F64.neg o)) ≤ clamp_int a1 ∧
  clamp_int a2 ≤ clamp_int (F64.add a2 o).
Proof.
  intros Hw1 Hw2 Hf1 Hf2 Hle Ho Hcast.
  (* the offset is is_finite *)
  assert (Hfo : is_finite o ∧ exponent_ok o ∧ 0 ≤ sval o).
  { destruct o as [so|so| |so mo eo]; try done.
    - cbn in Ho. subst so. apply castable_finite in Hcast.
      destruct a2 as [s2|s2| |s2 m2 e2]; try done;
        cbn in Hcast; by destruct Hcast.
    - apply castable_finite in Hcast.
      destruct a2 as [s2|s2| |s2 m2 e2]; try done;
        cbn in Hcast; by destruct Hcast.
    - destruct Ho as [-> Heo]. split; [done|]. split; [done|].
      cbn [sval cond_Zopp]. pose proof (sc_pos (Zpos mo) eo). lia. }
  destruct Hfo as (Hfo & Heo & Hso).
  destruct (add_order a2 o Hw2 Hf2 Hfo Heo) as (Hn2 & He2 & Hge2 & _).
  specialize (Hge2 Hso).
  assert (Hfn : is_finite (F64.neg o) ∧ exponent_ok (F64.neg o) ∧ sval (F64.neg o) ≤ 0).
  { destruct o as [so|so| |so mo eo]; try done.
    cbn [F64.neg SFopp sval is_finite exponent_ok]. destruct Ho as [-> ?].
    cbn [negb cond_Zopp]. pose proof (sc_pos (Zpos mo) eo).
    split; [done|]. split; [done|]. lia. }
  destruct Hfn as (Hfn & Hen & Hsn).
  destruct (add_order a1 (F64.neg o) Hw1 Hf1 Hfn Hen) as (Hn1 & He1 & _ & Hle1).
  specialize (Hle1 Hsn).
  set (hi := F64.add a2 o) in *. set (lo := F64.add a1 (F64.neg o)) in *.
  clearbody hi lo.
  (* the upper padded coordinate is is_finite and below 2^63 *)
  assert (Hfh : is_finite hi).
  { destruct (castable_finite hi Hcast) as [?|E]; [done|].
    rewrite E in Hge2. by cbn in Hge2. }
  destruct (clamp_int_finite hi Hfh He2) as [Ehi Hhi]. specialize (Hhi Hcast).
  assert (Hv2 : sval a2 ≤ sval hi) by (destruct hi; done).
  pose proof (cl_mono a1 a2 Hle) as Hc12. pose proof (cl_mono a2 hi Hv2) as Hc2h.
  pose proof (cl_nonneg a1). pose proof (cl_nonneg a2).
  destruct (clamp_int_finite a1 Hf1 (wf_exponent_ok a1 Hw1)) as [E1 _].
  destruct (clamp_int_finite a2 Hf2 (wf_exponent_ok a2 Hw2)) as [E2 _].
  rewrite E1, E2, Ehi, !int64_cast_id by lia.
  split; [|done].
  destruct lo as [sl|[]| |sl ml el] eqn:El.
  - change (clamp_int (S754_zero sl)) with 0. lia.
  - rewrite clamp_int_neg_infinity. lia.
  - discriminate Hle1.
  - done.
  - rewrite <- El in *.
    assert (Hfl : is_finite lo) by by rewrite El.
    destruct (clamp_int_finite lo Hfl He1) as [El' _].
    assert (Hvl : sval lo ≤ sval a1) by (rewrite El in Hle1 |- *; done).
    pose proof (cl_mono lo a1 Hvl). pose proof (cl_nonneg lo).
    rewrite El', int64_cast_id by lia. done.
Qed.

Lemma sval_one : sval (F64.of_int 1) = 2 ^ 2200.
Proof. vm_compute. reflexivity. Qed.

(** A well-formed is_finite float that is at least 1. *)
Lemma at_least_one (p : float) :
  wf p → is_finite p → F64.ge p (F64.of_int 1) = true →
  ∃ mp ep, p = S754_finite false mp ep ∧ canon (Zpos mp) ep ∧ 2 ^ 2200 ≤ sc (Zpos mp) ep.
Proof.
  intros Hw Hf Hge. unfold F64.ge in Hge.
  apply SFleb_sval in Hge; [|apply of_int_wf|done|done|done].
  rewrite sval_one in Hge. pose proof (pow2_pos 2200 ltac:(lia)) as Hp.
  set (one := 2 ^ 2200) in *. clearbody one.
  destruct p as [s|s| |s m e].
  - cbn [sval] in Hge. lia.
  - done.
  - done.
  - destruct Hw as [Hc _]. destruct s; cbn [sval cond_Zopp] in Hge.
    + pose proof (sc_pos (Zpos m) e ltac:(destruct Hc; lia) ltac:(lia)). lia.
    + by exists m, e.
Qed.

(** The crop contains the original box clipped at 0, as far as whole
    pixels go. *)
Lemma crop_contains (image_height image_width : Z) (padding_factor : float)
    (box_orig : Box) :
  let a := box_coords_abs image_height image_width box_orig in
  let p := padded_boxes padding_factor a in
  let c := crop_box image_height image_width padding_factor box_orig in
  wf (x_min box_orig) → wf (y_min box_orig) →
  wf (width_of_box box_orig) → wf (height_of_box box_orig) →
  wf padding_factor → is_finite padding_factor →
  F64.ge padding_factor (F64.of_int 1) = true →
  is_finite (r_ymin a) → is_finite (r_xmin a) → is_finite (r_ymax a) → is_finite (r_xmax a) →
  F64.ge (r_ymax a) (r_ymin a) = true →
  F64.ge (r_xmax a) (r_xmin a) = true →
  castable (maximum (F64.of_int 0) (r_ymax p)) →
  castable (maximum (F64.of_int 0) (r_xmax p)) →
  r_ymin c ≤ clamp_int (r_ymin a) ∧ r_xmin c ≤ clamp_int (r_xmin a) ∧
  clamp_int (r_ymax a) ≤ r_ymax c ∧ clamp_int (r_xmax a) ≤ r_xmax c.
Proof.
  intros a p c Hwx Hwy Hww Hwh Hwp Hfp Hp1 Hf1 Hf2 Hf3 Hf4 Hoy Hox Hcy Hcx.
  destruct (at_least_one padding_factor Hwp Hfp Hp1) as (mp & ep & -> & Hcp & H1).
  assert (Hw1 : wf (r_ymin a)) by (apply mul_wf; [done|apply of_int_wf]).
  assert (Hw2 : wf (r_xmin a)) by (apply mul_wf; [done|apply of_int_wf]).
  assert (Hw3 : wf (r_ymax a)) by (apply mul_wf; [by apply add_wf|apply of_int_wf]).
  assert (Hw4 : wf (r_xmax a)) by (apply mul_wf; [by apply add_wf|apply of_int_wf]).
  unfold F64.ge in Hoy, Hox.
  apply SFleb_sval in Hoy; try done. apply SFleb_sval in Hox; try done.
  pose proof (sub_nonneg _ _ Hw1 Hw3 Hf1 Hf3 Hoy) as Hh.
  pose proof (sub_nonneg _ _ Hw2 Hw4 Hf2 Hf4 Hox) as Hw.
  pose proof (offsets_form mp ep _ _ _ Hcp H1 Hh Hw (or_introl eq_refl)) as Ho1.
  pose proof (offsets_form mp ep _ _ _ Hcp H1 Hh Hw (or_intror eq_refl)) as Ho2.
  destruct (axis_contains _ _ _ Hw1 Hw3 Hf1 Hf3 Hoy Ho1 Hcy) as [Hy0 Hy1].
  destruct (axis_contains _ _ _ Hw2 Hw4 Hf2 Hf4 Hox Ho2 Hcx) as [Hx0 Hx1].
  auto.
Qed.


(** ** Crop geometry on binary64 *)

Lemma maximum_zero_cases (x : float) :
  maximum (F64.of_int 0) x = S754_zero false ∨
  (maximum (F64.of_int 0) x = x ∧ SFleb x (S754_zero false) = false).
Proof.
  unfold maximum.
  change (F64.isnan (F64.of_int 0)) with false. rewrite orb_false_r.
  unfold F64.ge. change (F64.of_int 0) with (S754_zero false).
  destruct (SFleb x (S754_zero false)); auto.
Qed.

Lemma shiftl_pos_nonneg (m : positive) (e : Z) : 0 ≤ Z.shiftl (Zpos m) e.
Proof. apply Z.shiftl_nonneg. lia. Qed.

(** A clamped coordinate whose cast is defined is not negative. *)
Lemma clamp_int_nonneg (x : float) :
  castable (maximum (F64.of_int 0) x) → 0 ≤ clamp_int x.
Proof.
  intros (t & Ht & Hr). unfold clamp_int.
  unfold F64.astype_int. rewrite Ht. unfold int64_cast.
  replace ((INT64_MIN <=? t) && (t <? 2 ^ 63)) with true
    by (symmetry; apply andb_true_iff; split; [apply Z.leb_le|apply Z.ltb_lt]; lia).
  destruct (maximum_zero_cases x) as [E|[E Hle]]; rewrite E in Ht.
  - injection Ht as <-. lia.
  - destruct x as [s|s| |[] m e]; cbn in Ht, Hle; try discriminate;
      injection Ht as <-; try apply shiftl_pos_nonneg; lia.
Qed.

Lemma slice_adjust_range (n : nat) (i : Z) : 0 ≤ slice_adjust n i ≤ Z.of_nat n.
Proof. unfold slice_adjust. destruct (i <? 0) eqn:E; [|apply Z.ltb_ge in E]; lia. Qed.

(** The slice that extracts the crop never leaves the image. *)
Lemma slice_image_within {pixels} (img : Image pixels) (c : row4 Z) :
  0 ≤ image_height img → 0 ≤ image_width img →
  let s := slice_image img c in
  (0 ≤ fst (crop_rows s) ≤ image_height img) ∧ (0 ≤ snd (crop_rows s) ≤ image_height img) ∧
  (0 ≤ fst (crop_cols s) ≤ image_width img) ∧ (0 ≤ snd (crop_cols s) ≤ image_width img).
Proof.
  intros Hh Hw. cbn.
  pose proof (slice_adjust_range (Z.to_nat (image_height img))) as Hr.
  pose proof (slice_adjust_range (Z.to_nat (image_width img))) as Hc.
  rewrite Z2Nat.id in Hr, Hc by done. auto.
Qed.

(** C1, as stated, fails: with the default padding factor 1.6 on a
    400x300 image, the box [x=0.5, y=0.5, w=0.5, h=0.5] gets the crop
    [y0=65, x0=140, y1=385, x1=460], whose lower right corner lies
    outside the image (385 > 300, 460 > 400): line 187 clamps at 0 only. *)
Lemma crop_box_not_within_image :
  crop_box 300 400 PADDING_FACTOR Bench.box2 = Row4 65 140 385 460 ∧
  ¬ within_image 300 400 (crop_box 300 400 PADDING_FACTOR Bench.box2).
Proof.
  split; [vm_compute; reflexivity|].
  intros (_ & _ & [_ H] & _). vm_compute in H. by apply H.
Qed.

(** C1 (amended): every coordinate of the crop rectangle is clamped at the
    lower bound 0, whenever the clamped padded coordinates are in the
    range of the integer cast; [crop_box] applies no upper clamp, and it is
    the slice [image_data[y0:y1, x0:x1]] that keeps the rows and columns
    really selected within [0, image_height] and [0, image_width]. *)
Theorem crop_box_clamped_at_zero (image_height image_width : Z)
    (padding_factor : float) (box_orig : Box) :
  let p := padded_boxes padding_factor (box_coords_abs image_height image_width box_orig) in
  let c := crop_box image_height image_width padding_factor box_orig in
  castable (maximum (F64.of_int 0) (r_ymin p)) →
  castable (maximum (F64.of_int 0) (r_xmin p)) →
  castable (maximum (F64.of_int 0) (r_ymax p)) →
  castable (maximum (F64.of_int 0) (r_xmax p)) →
  (0 ≤ r_ymin c ∧ 0 ≤ r_xmin c ∧ 0 ≤ r_ymax c ∧ 0 ≤ r_xmax c) ∧
  ∀ pixels (image_data : pixels), 0 ≤ image_height → 0 ≤ image_width →
    let s := slice_image (mkImage image_height image_width image_data) c in
    (0 ≤ fst (crop_rows s) ≤ image_height) ∧ (0 ≤ snd (crop_rows s) ≤ image_height) ∧
    (0 ≤ fst (crop_cols s) ≤ image_width) ∧ (0 ≤ snd (crop_cols s) ≤ image_width).
Proof.
  intros p c H1 H2 H3 H4. split.
  - subst c. unfold crop_box. cbn [r_ymin r_xmin r_ymax r_xmax].
    auto using clamp_int_nonneg.
  - intros pixels image_data Hh Hw.
    apply (slice_image_within (mkImage image_height image_width image_data) c Hh Hw).
Qed.

Lemma crop_box_clamped_at_zero_witness :
  let c := crop_box 300 400 PADDING_FACTOR Bench.box2 in
  (0 ≤ r_ymin c ∧ 0 ≤ r_xmin c ∧ 0 ≤ r_ymax c ∧ 0 ≤ r_xmax c) ∧
  ∀ pixels (image_data : pixels), 0 ≤ 300 → 0 ≤ 400 →
    let s := slice_image (mkImage 300 400 image_data) c in
    (0 ≤ fst (crop_rows s) ≤ 300) ∧ (0 ≤ snd (crop_rows s) ≤ 300) ∧
    (0 ≤ fst (crop_cols s) ≤ 400) ∧ (0 ≤ snd (crop_cols s) ≤ 400).
Proof.
  apply (crop_box_clamped_at_zero 300 400 PADDING_FACTOR Bench.box2);
    (eexists; split; [vm_compute; reflexivity|unfold INT64_MIN; lia]).
Defined.

(** ** Containment *)




(** ** Degenerate boxes *)

(** C7, as stated, fails: a box of pixel height 0 and pixel width 200
    (default padding factor, 400x300 image) has target side 320, not 0,
    and its crop [y0=0, x0=40, y1=310, x1=360] is expanded on both axes
    around the original box [y=150, x in 100..300]. *)
Lemma flat_box_is_padded :
  let a := box_coords_abs 300 400 Bench.box_flat in
  a = Row4 (F64.of_int 150) (F64.of_int 100) (F64.of_int 150) (F64.of_int 300) ∧
  is_zero (fst (bbox_sizes a)) ∧
  target_side PADDING_FACTOR (bbox_sizes a) = F64.of_int 320 ∧
  ¬ is_zero (target_side PADDING_FACTOR (bbox_sizes a)) ∧
  crop_box 300 400 PADDING_FACTOR Bench.box_flat = Row4 0 40 310 360 ∧
  crop_box 300 400 PADDING_FACTOR Bench.box_flat ≠ Row4 150 100 150 300.
Proof.
  vm_compute. repeat split; auto; discriminate.
Qed.

Lemma add_zero_clamp_int (x z : float) :
  is_zero z → clamp_int (F64.add x z) = clamp_int x.
Proof.
  destruct z as [sz| | |]; try done. intros _.
  destruct x as [[]|[]| |[] m e]; destruct sz; reflexivity.
Qed.

Lemma is_zero_neg (z : float) : is_zero z → is_zero (F64.neg z).
Proof. by destruct z. Qed.

(** C7 (amended): if the pixel-space height and the pixel-space width of
    a box are both 0 (and the padding factor is finite), then the target
    side and both offsets are 0 and the crop is the original zero-area
    box, clamped at 0 and truncated: no expansion on either axis. *)
Theorem point_box_is_not_padded (image_height image_width : Z)
    (padding_factor : float) (box_orig : Box) :
  let a := box_coords_abs image_height image_width box_orig in
  is_finite padding_factor →
  is_zero (fst (bbox_sizes a)) →
  is_zero (snd (bbox_sizes a)) →
  is_zero (target_side padding_factor (bbox_sizes a)) ∧
  is_zero (fst (offsets padding_factor (bbox_sizes a))) ∧
  is_zero (snd (offsets padding_factor (bbox_sizes a))) ∧
  crop_box image_height image_width padding_factor box_orig =
    Row4 (clamp_int (r_ymin a)) (clamp_int (r_xmin a))
         (clamp_int (r_ymax a)) (clamp_int (r_xmax a)).
Proof.
  intros a Hpf Hh Hw.
  assert (Ht : is_zero (target_side padding_factor (bbox_sizes a))).
  { unfold target_side. destruct (bbox_sizes a) as [h w]. cbn [fst snd] in *.
    destruct h as [sh| | |]; try done. destruct w as [sw| | |]; try done.
    destruct padding_factor as [sp| | |sp mp ep]; try done. }
  assert (Ho : is_zero (fst (offsets padding_factor (bbox_sizes a))) ∧
               is_zero (snd (offsets padding_factor (bbox_sizes a)))).
  { unfold offsets. cbn [fst snd].
    destruct (target_side padding_factor (bbox_sizes a)) as [st| | |]; try done.
    destruct (bbox_sizes a) as [h w]. cbn [fst snd] in *.
    destruct h as [sh| | |]; try done. destruct w as [sw| | |]; try done.
    split; [by destruct st, sh|by destruct st, sw]. }
  destruct Ho as [Ho1 Ho2]. repeat split; try done.
  unfold crop_box, padded_boxes. cbn [r_ymin r_xmin r_ymax r_xmax]. fold a.
  by rewrite !add_zero_clamp_int by auto using is_zero_neg.
Qed.

Lemma point_box_is_not_padded_witness :
  let a := box_coords_abs 300 400 Bench.box_point in
  is_zero (target_side PADDING_FACTOR (bbox_sizes a)) ∧
  is_zero (fst (offsets PADDING_FACTOR (bbox_sizes a))) ∧
  is_zero (snd (offsets PADDING_FACTOR (bbox_sizes a))) ∧
  crop_box 300 400 PADDING_FACTOR Bench.box_point =
    Row4 (clamp_int (r_ymin a)) (clamp_int (r_xmin a))
         (clamp_int (r_ymax a)) (clamp_int (r_xmax a)).
Proof.
  apply (point_box_is_not_padded 300 400 PADDING_FACTOR Bench.box_point);
    vm_compute; exact I.
Defined.

(** ** The class vocabulary *)

(** C8: on an object that already has [classification_categories],
    [add_classification_categories] returns normally and leaves the
    object, and so the existing mapping, exactly as it was, whatever the
    classes file holds (it is not read, and may even be unreadable). *)
Theorem add_classification_categories_present
    (read_text : string → option string) (classes_file : string)
    (json_object : DetectionResult) (c : list (string * string)) :
  classification_categories json_object = Some c →
  add_classification_categories read_text classes_file json_object = (Ok tt, json_object).
Proof.
  intros Hc. unfold add_classification_categories.
  rewrite bind_run. unfold get. by rewrite Hc.
Qed.

Lemma add_classification_categories_present_witness :
  add_classification_categories (λ _, None) "classes.txt" Bench.json1 = (Ok tt, Bench.json1).
Proof.
  apply (add_classification_categories_present (λ _, None) "classes.txt" Bench.json1
           [("0", "lion"); ("1", "zebra"); ("2", "giraffe")]).
  reflexivity.
Defined.

(** ** The batch loop *)

Section ClassifyBoxesProperties.
Context {pixels : Type}.
Variable load_image : string → option (Image pixels).
Variable sess_run : CroppedImage pixels → result (list float).
Variable argsort : list float → list nat.
Variable image_dir : string.
Variable confidence_threshold : float.
Variable detection_category_whitelist : list string.
Variable padding_factor : float.
Variable num_annotated_classes : Z.

Local Abbreviation should_classify :=
  (should_classify confidence_threshold detection_category_whitelist).
Local Abbreviation cropped_img := (cropped_img padding_factor).
Local Abbreviation top_classes := (top_classes argsort num_annotated_classes).
Local Abbreviation classify_detection :=
  (classify_detection sess_run argsort confidence_threshold detection_category_whitelist
     padding_factor num_annotated_classes).
Local Abbreviation classify_image :=
  (classify_image load_image sess_run argsort image_dir confidence_threshold
     detection_category_whitelist padding_factor num_annotated_classes).
Local Abbreviation classify_boxes :=
  (classify_boxes load_image sess_run argsort image_dir confidence_threshold
     detection_category_whitelist padding_factor num_annotated_classes).

Lemma classify_detection_again img d d1 :
  classify_detection img d = (None, d1) → classify_detection img d1 = (None, d1).
Proof.
  unfold classify_detection.
  destruct (should_classify d) eqn:Hs; [|by intros [= <-]; rewrite Hs].
  destruct (sess_run (cropped_img img d)) as [predictions|e] eqn:Hp; [|done].
  destruct (append_all predictions (top_classes predictions) []) as [r l] eqn:Ha.
  intros [= -> <-].
  unfold should_classify in *. cbn [conf category set_classifications].
  apply andb_true_iff in Hs as [Hs _]. rewrite Hs. cbn [andb].
  destruct l as [|c l]; [|done].
  unfold already_classified. cbn [classifications negb].
  unfold cropped_img in *. unfold set_classifications at 1 2. cbn [bbox].
  rewrite Hp. unfold set_classifications at 1. cbn [classifications negb].
  by rewrite Ha.
Qed.

Lemma classify_image_again im im1 :
  classify_image im = (None, im1) → classify_image im1 = (None, im1).
Proof.
  unfold classify_image.
  assert (Hpath : ∀ ds, image_path image_dir (set_detections ds im) = image_path image_dir im)
    by done.
  destruct (load_image (image_path image_dir im)) as [img|] eqn:Hl.
  - destruct (run_list (classify_detection img) (detections im)) as [r ds] eqn:Hr.
    intros [= -> <-]. rewrite Hpath, Hl. cbn [detections set_detections].
    by rewrite (run_list_idempotent _ _ _ (classify_detection_again img) Hr).
  - intros [= <-]. by rewrite Hl.
Qed.

(** C3: a second run of [classify_boxes], with the same model and the
    same settings, on the output of a run that returned normally returns
    normally and changes nothing: in particular every detection that the
    first run left with a non-empty [classifications] list is untouched. *)
Theorem classify_boxes_idempotent (json_with_classes once : DetectionResult) :
  classify_boxes json_with_classes = (Ok tt, once) →
  classify_boxes once = (Ok tt, once).
Proof.
  rewrite !classify_boxes_run.
  destruct (classification_categories json_with_classes) as [c|] eqn:Hc; [|done].
  destruct (run_list classify_image (images json_with_classes)) as [r ims] eqn:Hr.
  cbn [fst snd]. intros [= Hok <-]. apply result_of_Ok in Hok as ->.
  cbn [classification_categories set_images images]. rewrite Hc.
  rewrite (run_list_idempotent _ _ _ classify_image_again Hr). done.
Qed.

(** C9: an image whose load fails is skipped without any exception:
    the run over [pre ++ bad :: post] leaves [bad], and so every
    detection of it, exactly as it was, treats the images before and
    after it exactly as a run without it does, and ends as the run over
    the later images ends. *)
Theorem failed_load_is_skipped (cats : list (string * string))
    (pre post pre' post' : list ImageRecord) (bad : ImageRecord) (r : result unit) :
  load_image (image_path image_dir bad) = None →
  classify_boxes (mkDetectionResult (Some cats) pre)
    = (Ok tt, mkDetectionResult (Some cats) pre') →
  classify_boxes (mkDetectionResult (Some cats) post)
    = (r, mkDetectionResult (Some cats) post') →
  classify_boxes (mkDetectionResult (Some cats) (pre ++ bad :: post))
    = (r, mkDetectionResult (Some cats) (pre' ++ bad :: post')).
Proof.
  intros Hbad. rewrite !classify_boxes_run. cbn [classification_categories images].
  unfold set_images. cbn [classification_categories].
  intros [= Hr1 Hpre] [= Hr2 Hpost].
  apply result_of_Ok in Hr1.
  rewrite run_list_app.
  destruct (run_list classify_image pre) as [r1 l1]. cbn [fst snd] in *. subst r1 l1.
  assert (Hskip : classify_image bad = (None, bad))
    by (unfold classify_image; by rewrite Hbad).
  cbn [run_list]. rewrite Hskip.
  destruct (run_list classify_image post) as [r2 l2]. cbn [fst snd] in *.
  by subst.
Qed.

(** C10: an exception raised by the classifier on a detection leaves
    [classify_boxes] with that exception: the detections and images
    before it have been processed, the failing detection (whose
    [classifications] is still absent or empty), the detections after it
    and the images after it are exactly as they were. *)
Theorem classifier_exception_propagates (cats : list (string * string))
    (pre post pre' : list ImageRecord) (im : ImageRecord) (img : Image pixels)
    (dpre dpost dpre' : list Detection) (d : Detection) (e : exception) :
  load_image (image_path image_dir im) = Some img →
  detections im = dpre ++ d :: dpost →
  should_classify d = true →
  sess_run (cropped_img img d) = Exc e →
  classify_boxes (mkDetectionResult (Some cats) pre)
    = (Ok tt, mkDetectionResult (Some cats) pre') →
  classify_boxes (mkDetectionResult (Some cats) [set_detections dpre im])
    = (Ok tt, mkDetectionResult (Some cats) [set_detections dpre' im]) →
  classify_boxes (mkDetectionResult (Some cats) (pre ++ im :: post))
    = (Exc e, mkDetectionResult (Some cats)
                (pre' ++ set_detections (dpre' ++ d :: dpost) im :: post))
  ∧ (classifications d = None ∨ classifications d = Some []).
Proof.
  intros Hload Hd Hs He. rewrite !classify_boxes_run.
  cbn [classification_categories images]. unfold set_images.
  cbn [classification_categories].
  intros [= Hr1 Hpre] [= Hr2 Hdpre]. split.
  - apply result_of_Ok in Hr1.
    rewrite run_list_app.
    destruct (run_list classify_image pre) as [r1 l1]. cbn [fst snd] in *. subst r1 l1.
    assert (Hfail : classify_detection img d = (Some e, d))
      by (unfold classify_detection; by rewrite Hs, He).
    revert Hr2 Hdpre. cbn [run_list]. unfold classify_image.
    change (image_path image_dir (set_detections dpre im)) with (image_path image_dir im).
    rewrite Hload, Hd. cbn [detections set_detections].
    rewrite run_list_app.
    destruct (run_list (classify_detection img) dpre) as [r2 l2]. cbn [fst snd].
    destruct r2 as [e2|]; [done|]. intros _ [= ->].
    cbn [run_list]. by rewrite Hfail.
  - unfold should_classify in Hs. apply andb_true_iff in Hs as [_ Hs].
    unfold already_classified in Hs.
    destruct (classifications d) as [[|c l]|]; auto. done.
Qed.

(** The guards of the box loop select exactly the eligible detections,
    as long as neither the confidence nor the threshold is a NaN. *)
Lemma should_classify_eligible (d : Detection) :
  F64.isnan (conf d) = false → F64.isnan confidence_threshold = false →
  should_classify d = true ↔
  eligible confidence_threshold detection_category_whitelist d.
Proof.
  intros Hc Ht. unfold should_classify, eligible.
  rewrite (not_lt_ge _ _ Hc Ht).
  rewrite !andb_true_iff, bool_decide_eq_true, negb_true_iff.
  unfold already_classified.
  destruct (classifications d) as [[|c l]|]; intuition (auto; discriminate).
Qed.

(** C2 (amended): with [num_annotated_classes >= 1], a classifier that
    returns at least one score on the crop and an argsort result that
    meets NumPy's contract on them (and neither the confidence nor the
    threshold a NaN), after a run that returns normally a detection of an
    image that loaded has been given a new, non-empty [classifications]
    list exactly when it is eligible (confidence at least the threshold,
    category whitelisted, classifications absent or empty): then the list
    is the one built from the first [num_annotated_classes] indices of
    argsort on the classifier's output and nothing else of the detection
    changed; otherwise the detection is exactly as it was. *)
Theorem classify_boxes_selects (json_with_classes once : DetectionResult)
    (iImage iBox : nat) (im : ImageRecord) (img : Image pixels) (d : Detection) :
  classify_boxes json_with_classes = (Ok tt, once) →
  images json_with_classes !! iImage = Some im →
  load_image (image_path image_dir im) = Some img →
  detections im !! iBox = Some d →
  F64.isnan (conf d) = false →
  F64.isnan confidence_threshold = false →
  1 ≤ num_annotated_classes →
  (∀ predictions, sess_run (cropped_img img d) = Ok predictions →
     predictions ≠ [] ∧
     argsort_spec (map F64.neg predictions) (argsort (map F64.neg predictions))) →
  ∃ im' d',
    images once !! iImage = Some im' ∧ detections im' !! iBox = Some d' ∧
    (eligible confidence_threshold detection_category_whitelist d →
       ∃ (predictions : list float) (l : list ClassificationResult),
         sess_run (cropped_img img d) = Ok predictions ∧
         l = entries predictions
               (take (Z.to_nat num_annotated_classes)
                  (argsort (map F64.neg predictions))) ∧
         l ≠ [] ∧
         d' = set_classifications l d) ∧
    (¬ eligible confidence_threshold detection_category_whitelist d → d' = d) ∧
    (already_classified d' = true ∧ d' ≠ d ↔
     eligible confidence_threshold detection_category_whitelist d).
Proof.
  rewrite classify_boxes_run.
  destruct (classification_categories json_with_classes) as [c|]; [|done].
  intros [= Hr <-] Him Hload Hd Hc Ht HK Hcls. apply result_of_Ok in Hr.
  destruct (run_list_None_lookup _ _ Hr _ _ Him) as [Hr1 Him'].
  revert Hr1 Him'. unfold classify_image at 1 3. rewrite Hload.
  destruct (run_list (classify_detection img) (detections im)) as [r' ds'] eqn:Hrun.
  cbn [fst snd]. intros -> Him'.
  assert (Hr' : (run_list (classify_detection img) (detections im)).1 = None)
    by by rewrite Hrun.
  destruct (run_list_None_lookup _ _ Hr' _ _ Hd) as [Hd1 Hd'].
  rewrite Hrun in Hd'. cbn [snd] in Hd'.
  exists (set_detections ds' im), (classify_detection img d).2.
  split; [exact Him'|]. split; [exact Hd'|].
  pose proof (should_classify_eligible d Hc Ht) as Hiff.
  assert (Hsel : should_classify d = true →
            ∃ (predictions : list float) (l : list ClassificationResult),
              sess_run (cropped_img img d) = Ok predictions ∧
              l = entries predictions
                    (take (Z.to_nat num_annotated_classes)
                       (argsort (map F64.neg predictions))) ∧
              l ≠ [] ∧
              (classify_detection img d).2 = set_classifications l d).
  { intros Hs. clear Hd1. unfold classify_detection. rewrite Hs.
    destruct (sess_run (cropped_img img d)) as [predictions|e] eqn:Hp.
    2:{ exfalso. clear -Hr' Hd Hs Hp.
        destruct (run_list_None_lookup _ _ Hr' _ _ Hd) as [H _].
        revert H. unfold classify_detection. by rewrite Hs, Hp. }
    destruct (Hcls predictions eq_refl) as [Hne Hspec].
    destruct (argsort_spec_in_range _ _ Hspec) as [Hlen Hrange].
    rewrite length_map in Hlen, Hrange.
    exists predictions, (entries predictions
              (take (Z.to_nat num_annotated_classes) (argsort (map F64.neg predictions)))).
    split; [done|]. split; [done|]. split.
    - intros E. apply (f_equal length) in E. revert E.
      unfold entries. rewrite length_fmap, length_take, Hlen. cbn [length].
      destruct predictions; [done|]. cbn [length]. lia.
    - unfold top_classes. rewrite slice_to_nonneg by lia.
      rewrite (append_all_in_range predictions _ []) by by apply Forall_take.
      done. }
  split; [|split].
  - intros He. apply Hiff in He. by apply Hsel.
  - intros Hn. unfold classify_detection.
    destruct (should_classify d) eqn:Hs; [|done]. destruct Hn. by apply Hiff.
  - split.
    + intros [_ Hne]. destruct (should_classify d) eqn:Hs; [by apply Hiff|].
      destruct Hne. unfold classify_detection. by rewrite Hs.
    + intros He. pose proof He as Hs. apply Hiff in Hs.
      destruct (Hsel Hs) as (predictions & l & _ & _ & Hl & ->). split.
      * unfold already_classified. cbn [classifications set_classifications].
        by destruct l.
      * intros E. apply (f_equal classifications) in E.
        cbn [classifications set_classifications] in E.
        destruct He as (_ & _ & [Hcl|Hcl]); rewrite Hcl in E; [done|].
        injection E as ->. done.
Qed.


End ClassifyBoxesProperties.

Lemma argsort_spec_bench :
  argsort_spec (map F64.neg Bench.predictions) (Bench.argsort (map F64.neg Bench.predictions)).
Proof.
  split.
  - change ([1; 2; 0]%nat ≡ₚ [0; 1; 2]%nat).
    etrans; [apply perm_skip, perm_swap|apply perm_swap].
  - change (Bench.argsort (map F64.neg Bench.predictions)) with [1; 2; 0]%nat.
    intros i j a b x y Hlt Hi Hj Hx Hy.
    destruct i as [|[|[|i]]]; destruct j as [|[|[|j]]]; try lia;
      try discriminate Hi; try discriminate Hj;
      injection Hi as <-; injection Hj as <-;
      vm_compute in Hx, Hy; injection Hx as <-; injection Hy as <-; reflexivity.
Qed.

Lemma classify_boxes_idempotent_witness :
  Bench.run (Bench.run Bench.json3).2 = (Ok tt, (Bench.run Bench.json3).2).
Proof.
  apply (classify_boxes_idempotent Bench.load_image Bench.sess_run Bench.argsort ""
           DEFAULT_CONFIDENCE_THRESHOLD DETECTION_CATEGORY_WHITELIST PADDING_FACTOR 2
           Bench.json3).
  vm_compute. reflexivity.
Defined.

(** C2, as stated, fails: with [num_annotated_classes = 0] the detection
    of the worked scenario, which is eligible (confidence 0.9 against the
    threshold 0.85, category "1" whitelisted, no classifications yet), is
    run through the classifier and ends with [classifications = []], the
    empty state that the claim keeps for the detections that are skipped:
    it does not count as classified. *)
Lemma eligible_detection_left_empty :
  eligible DEFAULT_CONFIDENCE_THRESHOLD DETECTION_CATEGORY_WHITELIST Bench.det1 ∧
  classify_boxes Bench.load_image Bench.sess_run Bench.argsort ""
    DEFAULT_CONFIDENCE_THRESHOLD DETECTION_CATEGORY_WHITELIST PADDING_FACTOR 0 Bench.json1
  = (Ok tt,
     mkDetectionResult Bench.categories
       [mkImageRecord "a.jpg" [set_classifications [] Bench.det1]]) ∧
  classifications (set_classifications [] Bench.det1) = Some [] ∧
  already_classified (set_classifications [] Bench.det1) = false.
Proof.
  split; [|split; [|split]].
  - split; [vm_compute; reflexivity|]. split; [|by left].
    apply list_elem_of_here.
  - vm_compute. reflexivity.
  - reflexivity.
  - reflexivity.
Qed.

Lemma classify_boxes_selects_witness :
  ∃ im' d',
    images (Bench.run Bench.json3).2 !! 0%nat = Some im' ∧
    detections im' !! 0%nat = Some d' ∧
    (eligible DEFAULT_CONFIDENCE_THRESHOLD DETECTION_CATEGORY_WHITELIST Bench.det1 →
       ∃ (predictions : list float) (l : list ClassificationResult),
         Bench.sess_run (cropped_img PADDING_FACTOR (mkImage 300 400 tt) Bench.det1)
           = Ok predictions ∧
         l = entries predictions
               (take (Z.to_nat 2) (Bench.argsort (map F64.neg predictions))) ∧
         l ≠ [] ∧
         d' = set_classifications l Bench.det1) ∧
    (¬ eligible DEFAULT_CONFIDENCE_THRESHOLD DETECTION_CATEGORY_WHITELIST Bench.det1 →
       d' = Bench.det1) ∧
    (already_classified d' = true ∧ d' ≠ Bench.det1 ↔
     eligible DEFAULT_CONFIDENCE_THRESHOLD DETECTION_CATEGORY_WHITELIST Bench.det1).
Proof.
  refine (classify_boxes_selects Bench.load_image Bench.sess_run Bench.argsort ""
            DEFAULT_CONFIDENCE_THRESHOLD DETECTION_CATEGORY_WHITELIST PADDING_FACTOR 2
            Bench.json3 (Bench.run Bench.json3).2 0 0
            (mkImageRecord "a.jpg" [Bench.det1; Bench.det_low]) (mkImage 300 400 tt)
            Bench.det1 _ _ _ _ _ _ _ _).
  1-6: vm_compute; reflexivity.
  - lia.
  - intros predictions Hp. unfold Bench.sess_run in Hp.
    destruct (_ || _) in Hp; [discriminate Hp|]. injection Hp as <-.
    split; [done|exact argsort_spec_bench].
Defined.

Lemma failed_load_is_skipped_witness :
  Bench.run Bench.json3 =
  (Ok tt,
   mkDetectionResult Bench.categories
     ([mkImageRecord "a.jpg" [Bench.classified Bench.det1; Bench.det_low]] ++
      mkImageRecord "missing.jpg" [Bench.det1] ::
      [mkImageRecord "c.jpg"
         [Bench.det_person; Bench.classified Bench.det1; Bench.det_done]])).
Proof.
  apply (failed_load_is_skipped Bench.load_image Bench.sess_run Bench.argsort ""
           DEFAULT_CONFIDENCE_THRESHOLD DETECTION_CATEGORY_WHITELIST PADDING_FACTOR 2
           [("0", "lion"); ("1", "zebra"); ("2", "giraffe")]
           [mkImageRecord "a.jpg" [Bench.det1; Bench.det_low]]
           [mkImageRecord "c.jpg" [Bench.det_person; Bench.det1; Bench.det_done]]
           [mkImageRecord "a.jpg" [Bench.classified Bench.det1; Bench.det_low]]
           [mkImageRecord "c.jpg"
              [Bench.det_person; Bench.classified Bench.det1; Bench.det_done]]
           (mkImageRecord "missing.jpg" [Bench.det1]) (Ok tt));
    vm_compute; reflexivity.
Defined.

Lemma classifier_exception_propagates_witness :
  Bench.run Bench.json_bad_crop =
  (Exc (RuntimeError "empty crop"),
   mkDetectionResult Bench.categories
     ([mkImageRecord "a.jpg" [Bench.classified Bench.det1]] ++
      set_detections ([Bench.det_low] ++ Bench.det_point :: [Bench.det1])
        (mkImageRecord "b.jpg" [Bench.det_low; Bench.det_point; Bench.det1]) ::
      [mkImageRecord "c.jpg" [Bench.det1]]))
  ∧ (classifications Bench.det_point = None ∨ classifications Bench.det_point = Some []).
Proof.
  apply (classifier_exception_propagates Bench.load_image Bench.sess_run Bench.argsort ""
           DEFAULT_CONFIDENCE_THRESHOLD DETECTION_CATEGORY_WHITELIST PADDING_FACTOR 2
           [("0", "lion"); ("1", "zebra"); ("2", "giraffe")]
           [mkImageRecord "a.jpg" [Bench.det1]]
           [mkImageRecord "c.jpg" [Bench.det1]]
           [mkImageRecord "a.jpg" [Bench.classified Bench.det1]]
           (mkImageRecord "b.jpg" [Bench.det_low; Bench.det_point; Bench.det1])
           (mkImage 300 400 tt)
           [Bench.det_low] [Bench.det1] [Bench.det_low] Bench.det_point
           (RuntimeError "empty crop"));
    vm_compute; reflexivity.
Defined.



(** ** The worked scenario *)

(** On the scores [0.1, 0.7, 0.2] the contract of argsort leaves one
    answer only. *)
Lemma argsort_scenario_unique (idx : list nat) :
  argsort_spec (map F64.neg Bench.predictions) idx → idx = [1; 2; 0]%nat.
Proof.
  intros [Hperm Hsorted].
  pose proof (Permutation_length Hperm) as Hlen. cbn in Hlen.
  destruct idx as [|a [|b [|c [|? ?]]]]; try discriminate Hlen.
  assert (Hin : ∀ i, i ∈ [a; b; c] → (i < 3)%nat).
  { intros i Hi. rewrite Hperm in Hi. apply elem_of_seq in Hi. cbn in Hi. lia. }
  assert (Hnd : NoDup [a; b; c]) by (rewrite Hperm; apply NoDup_seq).
  assert (Ha : (a < 3)%nat) by (apply Hin; rewrite !elem_of_cons; auto).
  assert (Hb : (b < 3)%nat) by (apply Hin; rewrite !elem_of_cons; auto).
  assert (Hc : (c < 3)%nat) by (apply Hin; rewrite !elem_of_cons; auto).
  pose proof (Hsorted 0 1 a b)%nat as H01. pose proof (Hsorted 1 2 b c)%nat as H12.
  apply NoDup_cons in Hnd as [Hab Hnd]. apply NoDup_cons in Hnd as [Hbc _].
  apply not_elem_of_cons in Hab as [? Hab]. apply not_elem_of_cons in Hab as [? _].
  apply not_elem_of_cons in Hbc as [? _].
  destruct a as [|[|[|a]]]; destruct b as [|[|[|b]]]; destruct c as [|[|[|c]]];
    try lia; try done;
    first [ specialize (H01 _ _ ltac:(lia) eq_refl eq_refl eq_refl eq_refl);
            vm_compute in H01; discriminate H01
          | specialize (H12 _ _ ltac:(lia) eq_refl eq_refl eq_refl eq_refl);
            vm_compute in H12; discriminate H12 ].
Qed.

(** C5: the worked scenario.  For a 400x300 image and the detection
    [bbox = [0.25, 0.2, 0.25, 0.3]], category "1", confidence 0.9, with
    threshold 0.85, whitelist ["1"] and padding factor 1.6, the detection
    is selected; its box is [60..150] x [100..200] in pixels, the offsets
    are 35 and 30, the padded box is already y:[25,185], x:[70,230], so
    clamping changes nothing and the crop lies within the image; and when
    the classifier returns [0.1, 0.7, 0.2] for that crop and
    num_annotated_classes is 2, the run ends normally with
    [classifications = [["1", 0.7], ["2", 0.2]]]. *)
Theorem worked_scenario {pixels : Type}
    (load_image : string → option (Image pixels))
    (sess_run : CroppedImage pixels → result (list float))
    (argsort : list float → list nat) (image_dir : string)
    (cats : list (string * string)) (file : string) (image_data : pixels) :
  let img := mkImage 300 400 image_data in
  let im := mkImageRecord file [Bench.det1] in
  load_image (image_path image_dir im) = Some img →
  sess_run (slice_image img (Row4 25 70 185 230)) = Ok Bench.predictions →
  argsort_spec (map F64.neg Bench.predictions) (argsort (map F64.neg Bench.predictions)) →
  should_classify DEFAULT_CONFIDENCE_THRESHOLD ["1"] Bench.det1 = true ∧
  box_coords_abs 300 400 Bench.box1 = Row4 (F64.of_int 60) (F64.of_int 100) (F64.of_int 150) (F64.of_int 200) ∧
  offsets (F64.lit 16 10) (bbox_sizes (box_coords_abs 300 400 Bench.box1))
    = (F64.of_int 35, F64.of_int 30) ∧
  padded_boxes (F64.lit 16 10) (box_coords_abs 300 400 Bench.box1)
    = Row4 (F64.of_int 25) (F64.of_int 70) (F64.of_int 185) (F64.of_int 230) ∧
  crop_box 300 400 (F64.lit 16 10) Bench.box1 = Row4 25 70 185 230 ∧
  within_image 300 400 (Row4 25 70 185 230) ∧
  classify_boxes load_image sess_run argsort image_dir DEFAULT_CONFIDENCE_THRESHOLD ["1"]
    (F64.lit 16 10) 2 (mkDetectionResult (Some cats) [im])
  = (Ok tt,
     mkDetectionResult (Some cats)
       [mkImageRecord file
          [set_classifications [("1", F64.lit 7 10); ("2", F64.lit 2 10)] Bench.det1]]).
Proof.
  intros img im Hload Hrun Hsort.
  assert (Hcrop : crop_box 300 400 (F64.lit 16 10) Bench.box1 = Row4 25 70 185 230)
    by (vm_compute; reflexivity).
  assert (Hsel : should_classify DEFAULT_CONFIDENCE_THRESHOLD ["1"] Bench.det1 = true)
    by (vm_compute; reflexivity).
  split; [exact Hsel|].
  split; [vm_compute; reflexivity|].
  split; [vm_compute; reflexivity|].
  split; [vm_compute; reflexivity|].
  split; [exact Hcrop|].
  split; [unfold within_image; cbn; lia|].
  rewrite classify_boxes_run. cbn [classification_categories images run_list].
  unfold classify_image. rewrite Hload. subst im. cbn [detections run_list].
  unfold classify_detection. rewrite Hsel.
  unfold cropped_img. cbn [image_height image_width img Bench.det1 bbox].
  rewrite Hcrop, Hrun. unfold top_classes.
  rewrite (argsort_scenario_unique _ Hsort).
  vm_compute. reflexivity.
Qed.

Lemma worked_scenario_witness :
  should_classify DEFAULT_CONFIDENCE_THRESHOLD ["1"] Bench.det1 = true ∧
  box_coords_abs 300 400 Bench.box1 = Row4 (F64.of_int 60) (F64.of_int 100) (F64.of_int 150) (F64.of_int 200) ∧
  offsets (F64.lit 16 10) (bbox_sizes (box_coords_abs 300 400 Bench.box1))
    = (F64.of_int 35, F64.of_int 30) ∧
  padded_boxes (F64.lit 16 10) (box_coords_abs 300 400 Bench.box1)
    = Row4 (F64.of_int 25) (F64.of_int 70) (F64.of_int 185) (F64.of_int 230) ∧
  crop_box 300 400 (F64.lit 16 10) Bench.box1 = Row4 25 70 185 230 ∧
  within_image 300 400 (Row4 25 70 185 230) ∧
  classify_boxes Bench.load_image Bench.sess_run Bench.argsort "" DEFAULT_CONFIDENCE_THRESHOLD
    ["1"] (F64.lit 16 10) 2 (mkDetectionResult (Some []) [mkImageRecord "a.jpg" [Bench.det1]])
  = (Ok tt,
     mkDetectionResult (Some [])
       [mkImageRecord "a.jpg"
          [set_classifications [("1", F64.lit 7 10); ("2", F64.lit 2 10)] Bench.det1]]).
Proof.
  apply (worked_scenario Bench.load_image Bench.sess_run Bench.argsort "" [] "a.jpg" tt).
  - reflexivity.
  - reflexivity.
  - exact argsort_spec_bench.
Defined.

(** * Further properties of the script *)

(** ** add_classification_categories: building the vocabulary *)

Section AddCategoriesProperties.
Variable read_text : string → option string.

Local Abbreviation add_classification_categories :=
  (add_classification_categories read_text).

(** X1: on an object without [classification_categories] and with a
    readable classes file, [add_classification_categories] returns
    normally; the vocabulary it adds maps, in file order, the decimal
    string of [i] (from 0) to the [i]-th line that is not blank, names
    being kept as they stand in the file; [images] is untouched. *)
Theorem vocabulary_built (classes_file text : string) (json_object : DetectionResult) :
  classification_categories json_object = None →
  read_text classes_file = Some text →
  add_classification_categories classes_file json_object
  = (Ok tt,
     mkDetectionResult
       (Some (zip (pretty <$> seq 0 (length (class_names_of text))) (class_names_of text)))
       (images json_object)).
Proof.
  intros Hc Hr. rewrite add_classification_categories_run, Hc, Hr. done.
Qed.

(** X2: the vocabulary that was built can be read back: its keys are
    pairwise distinct, it has one entry per class name, and the key
    ['%i' % i] is bound to a name exactly when that name is the [i]-th
    class name: no name overwrites another. *)
Theorem vocabulary_lookup (classes_file text : string) (json_object : DetectionResult) :
  classification_categories json_object = None →
  read_text classes_file = Some text →
  ∃ cats : list (string * string),
    classification_categories (add_classification_categories classes_file json_object).2
      = Some cats ∧
    NoDup cats.*1 ∧
    length cats = length (class_names_of text) ∧
    ∀ (i : nat) (name : string),
      (pretty i, name) ∈ cats ↔ class_names_of text !! i = Some name.
Proof.
  intros Hc Hr. rewrite add_classification_categories_run, Hc, Hr. cbn [snd].
  set (names := class_names_of text).
  exists (zip (pretty <$> seq 0 (length names)) names).
  assert (Hlen : length (pretty <$> seq 0 (length names)) = length names)
    by by rewrite length_fmap, length_seq.
  split; [done|]. split; [|split].
  - rewrite vocabulary_keys. apply NoDup_fmap_2; [apply _|apply NoDup_seq].
  - rewrite length_zip_with. lia.
  - intros i name. rewrite list_elem_of_lookup. split.
    + intros [k Hk]. apply lookup_zip_with_Some in Hk as (key & name' & E & Hkey & Hname).
      injection E as <- <-.
      rewrite list_lookup_fmap in Hkey.
      destruct (seq 0 (length names) !! k) as [k'|] eqn:Hseq; [|done].
      apply lookup_seq in Hseq as [-> _]. cbn in Hkey.
      injection Hkey as Hkey. apply (inj pretty) in Hkey. by subst.
    + intros Hname. exists i. apply lookup_zip_with_Some.
      exists (pretty i), name. split; [done|]. split; [|done].
      rewrite list_lookup_fmap, lookup_seq_lt; [done|].
      by apply lookup_lt_Some in Hname.
Qed.

(** X3: [add_classification_categories] never touches [images]; when
    it returns normally the object has a vocabulary; and it raises only
    when the key was absent and the classes file could not be read, in
    which case the object is left exactly as it was (no empty
    vocabulary is left behind). *)
Theorem add_classification_categories_frame (classes_file : string)
    (json_object : DetectionResult) :
  let r := add_classification_categories classes_file json_object in
  images r.2 = images json_object ∧
  (r.1 = Ok tt → is_Some (classification_categories r.2)) ∧
  (r.1 ≠ Ok tt →
     r.2 = json_object ∧
     classification_categories json_object = None ∧ read_text classes_file = None).
Proof.
  cbv zeta. rewrite add_classification_categories_run.
  destruct (classification_categories json_object) as [c|] eqn:Hc.
  - cbn [fst snd]. rewrite Hc. split; [done|]. split; [by eexists|done].
  - destruct (read_text classes_file) as [text|] eqn:Hr; cbn [fst snd].
    + split; [done|]. split; [by eexists|done].
    + split; [done|]. split; [done|]. done.
Qed.

(** X4: calling [add_classification_categories] a second time, even
    with another classes file, adds nothing to the first call: the
    vocabulary of the first call stays, and if the first call raised the
    second is not reached. *)
Theorem add_classification_categories_twice (classes_file classes_file' : string)
    (json_object : DetectionResult) :
  (add_classification_categories classes_file ;;
   add_classification_categories classes_file') json_object
  = add_classification_categories classes_file json_object.
Proof.
  rewrite bind_run, (add_classification_categories_run _ classes_file).
  destruct (classification_categories json_object) as [c|] eqn:Hc.
  - cbv beta iota. by rewrite add_classification_categories_run, Hc.
  - destruct (read_text classes_file) as [text|]; [|done].
    cbv beta iota zeta. by rewrite add_classification_categories_run.
Qed.

End AddCategoriesProperties.

Lemma vocabulary_built_witness :
  add_classification_categories Sample.read_text "classes.txt" Sample.detector_json
  = (Ok tt,
     mkDetectionResult (Some [("0", "lion"); ("1", "zebra"); ("2", "giraffe")])
       (images Sample.detector_json)).
Proof.
  exact (vocabulary_built Sample.read_text "classes.txt" Sample.classes_text
           Sample.detector_json eq_refl eq_refl).
Defined.

Lemma vocabulary_lookup_witness :
  ∃ cats : list (string * string),
    classification_categories
      (add_classification_categories Sample.read_text "classes.txt" Sample.detector_json).2
      = Some cats ∧
    NoDup cats.*1 ∧
    length cats = length (class_names_of Sample.classes_text) ∧
    ∀ (i : nat) (name : string),
      (pretty i, name) ∈ cats ↔ class_names_of Sample.classes_text !! i = Some name.
Proof.
  exact (vocabulary_lookup Sample.read_text "classes.txt" Sample.classes_text
           Sample.detector_json eq_refl eq_refl).
Defined.

(** ** classify_boxes: what a run changes and what it leaves *)

Lemma run_list_Forall2 {A} (R : A → A → Prop) (f : A → option exception * A) (l : list A) :
  (∀ a, R a a) → (∀ a, R a (f a).2) → Forall2 R l (run_list f l).2.
Proof.
  intros Hrefl Hf. induction l as [|a l IH]; [constructor|].
  cbn [run_list]. pose proof (Hf a) as Ha.
  destruct (f a) as [[e|] a']; cbn [snd] in *.
  - constructor; [done|]. apply Forall_Forall2_diag, Forall_forall. auto.
  - destruct (run_list f l) as [r l']. cbn [snd] in *. by constructor.
Qed.

Lemma run_list_lookup_cases {A} (f : A → option exception * A) (l : list A) :
  ∀ i a, l !! i = Some a →
    (run_list f l).2 !! i = Some a ∨ (run_list f l).2 !! i = Some (f a).2.
Proof.
  induction l as [|b l IH]; intros i a Hi; [done|].
  cbn [run_list]. destruct (f b) as [[e|] b'] eqn:Hb.
  - destruct i as [|i]; cbn in *; [|auto].
    injection Hi as ->. rewrite Hb. auto.
  - destruct (run_list f l) as [r l'] eqn:Hr. cbn [snd] in *.
    destruct i as [|i]; cbn in *.
    + injection Hi as ->. rewrite Hb. auto.
    + by apply IH.
Qed.

Lemma run_list_ext {A} (f g : A → option exception * A) (l : list A) :
  (∀ a, a ∈ l → f a = g a) → run_list f l = run_list g l.
Proof.
  induction l as [|a l IH]; intros H; [done|].
  cbn [run_list]. rewrite <- (H a) by apply list_elem_of_here.
  rewrite IH; [done|]. intros b Hb. apply H. by apply list_elem_of_further.
Qed.

Lemma run_list_fixed {A} (f : A → option exception * A) (l : list A) :
  (∀ a, a ∈ l → f a = (None, a)) → run_list f l = (None, l).
Proof.
  induction l as [|a l IH]; intros H; [done|].
  cbn [run_list]. rewrite (H a) by apply list_elem_of_here.
  rewrite IH; [done|]. intros b Hb. apply H. by apply list_elem_of_further.
Qed.

Lemma run_list_exception {A} (f : A → option exception * A) (l : list A) (e : exception) :
  (run_list f l).1 = Some e → ∃ a, a ∈ l ∧ (f a).1 = Some e.
Proof.
  induction l as [|a l IH]; [done|].
  cbn [run_list]. destruct (f a) as [[e'|] a'] eqn:Ha.
  - cbn [fst]. intros [= ->]. exists a. split; [apply list_elem_of_here|by rewrite Ha].
  - destruct (run_list f l) as [r l']. cbn [fst] in *. intros Hr.
    destruct (IH Hr) as (b & Hb & Hfb). exists b. split; [by apply list_elem_of_further|done].
Qed.

Lemma run_list_raises {A} (f : A → option exception * A) (l : list A) (a : A) :
  a ∈ l → is_Some (f a).1 → is_Some (run_list f l).1.
Proof.
  induction l as [|b l IH]; intros Hin Hfa; [by apply elem_of_nil in Hin|].
  cbn [run_list]. destruct (f b) as [[e'|] b'] eqn:Hb; [by eexists|].
  apply elem_of_cons in Hin as [->|Hin].
  - rewrite Hb in Hfa. by destruct Hfa.
  - specialize (IH Hin Hfa). by destruct (run_list f l).
Qed.

Section ClassifyBoxesFurther.
Context {pixels : Type}.
Variable load_image : string → option (Image pixels).
Variable sess_run : CroppedImage pixels → result (list float).
Variable argsort : list float → list nat.
Variable image_dir : string.
Variable confidence_threshold : float.
Variable detection_category_whitelist : list string.
Variable padding_factor : float.
Variable num_annotated_classes : Z.

Local Abbreviation should_classify :=
  (should_classify confidence_threshold detection_category_whitelist).
Local Abbreviation cropped_img := (cropped_img padding_factor).
Local Abbreviation top_classes := (top_classes argsort num_annotated_classes).
Local Abbreviation process_box :=
  (process_box sess_run argsort confidence_threshold detection_category_whitelist
     padding_factor num_annotated_classes).
Local Abbreviation classify_detection :=
  (classify_detection sess_run argsort confidence_threshold detection_category_whitelist
     padding_factor num_annotated_classes).
Local Abbreviation classify_image :=
  (classify_image load_image sess_run argsort image_dir confidence_threshold
     detection_category_whitelist padding_factor num_annotated_classes).
Local Abbreviation classify_boxes :=
  (classify_boxes load_image sess_run argsort image_dir confidence_threshold
     detection_category_whitelist padding_factor num_annotated_classes).

Lemma same_detection_refl (d : Detection) : same_detection d d.
Proof. done. Qed.

Lemma same_image_refl (im : ImageRecord) : same_image im im.
Proof.
  split; [done|]. apply Forall_Forall2_diag, Forall_forall. intros d _. done.
Qed.

Lemma classify_detection_skip (img : Image pixels) (d : Detection) :
  should_classify d = false → classify_detection img d = (None, d).
Proof. intros H. unfold classify_detection. by rewrite H. Qed.

Lemma classify_detection_same (img : Image pixels) (d : Detection) :
  same_detection d (classify_detection img d).2.
Proof.
  unfold classify_detection. destruct (should_classify d); [|done].
  destruct (sess_run (cropped_img img d)) as [predictions|e]; [|done].
  by destruct (append_all predictions (top_classes predictions) []).
Qed.

Lemma classify_image_same (im : ImageRecord) : same_image im (classify_image im).2.
Proof.
  unfold classify_image.
  destruct (load_image (image_path image_dir im)) as [img|]; [|apply same_image_refl].
  pose proof (run_list_Forall2 same_detection (classify_detection img) (detections im)
                same_detection_refl (classify_detection_same img)) as H.
  destruct (run_list (classify_detection img) (detections im)) as [r ds].
  by split.
Qed.

(** What makes one detection raise. *)
Lemma append_all_exception (predictions : list float) (idx : list nat) (e : exception) :
  ∀ acc, (append_all predictions idx acc).1 = Some e →
  e = IndexError ∧ ∃ class_idx : nat, class_idx ∈ idx ∧ (length predictions ≤ class_idx)%nat.
Proof.
  induction idx as [|i idx IH]; intros acc; [done|].
  cbn [append_all]. destruct (predictions !! i) as [score|] eqn:Hi.
  - intros H. destruct (IH _ H) as (-> & k & Hk & Hlen).
    split; [done|]. exists k. split; [by apply list_elem_of_further|done].
  - cbn [fst]. intros [= <-]. split; [done|]. exists i.
    split; [apply list_elem_of_here|]. by apply lookup_ge_None.
Qed.

Lemma classify_detection_exception (img : Image pixels) (d : Detection) (e : exception) :
  (classify_detection img d).1 = Some e →
  should_classify d = true ∧
  (sess_run (cropped_img img d) = Exc e ∨
   e = IndexError ∧ ∃ predictions (class_idx : nat),
     sess_run (cropped_img img d) = Ok predictions ∧
     class_idx ∈ top_classes predictions ∧ (length predictions ≤ class_idx)%nat).
Proof.
  unfold classify_detection. destruct (should_classify d); [|done].
  intros H. split; [done|].
  destruct (sess_run (cropped_img img d)) as [predictions|e'] eqn:Hp.
  - right.
    destruct (append_all predictions (top_classes predictions) []) as [r l] eqn:Ha.
    cbn [fst] in H. subst r.
    destruct (append_all_exception predictions (top_classes predictions) e []) as (-> & k & Hk & Hlen);
      [by rewrite Ha|].
    split; [done|]. by exists predictions, k.
  - left. cbn [fst] in H. congruence.
Qed.

Lemma classify_image_exception (im : ImageRecord) (e : exception) :
  (classify_image im).1 = Some e →
  ∃ img d, load_image (image_path image_dir im) = Some img ∧ d ∈ detections im ∧
    (classify_detection img d).1 = Some e.
Proof.
  unfold classify_image.
  destruct (load_image (image_path image_dir im)) as [img|]; [|done].
  destruct (run_list (classify_detection img) (detections im)) as [r ds] eqn:Hr.
  cbn [fst]. intros ->.
  destruct (run_list_exception (classify_detection img) (detections im) e) as (d & Hd & He);
    [by rewrite Hr|].
  by exists img, d.
Qed.

(** X5: whatever its outcome, a run of [classify_boxes] keeps the
    vocabulary, the number and order of the images and of the detections
    of each image, every file name, and the category, confidence and box
    of every detection: only [classifications] fields change. *)
Theorem classify_boxes_preserves_structure (json_with_classes : DetectionResult) :
  let updated := (classify_boxes json_with_classes).2 in
  classification_categories updated = classification_categories json_with_classes ∧
  Forall2 same_image (images json_with_classes) (images updated).
Proof.
  cbv zeta. rewrite classify_boxes_run.
  destruct (classification_categories json_with_classes) as [c|] eqn:Hc; cbn [snd].
  - split; [done|]. cbn [set_images images].
    apply run_list_Forall2; [apply same_image_refl|apply classify_image_same].
  - split; [done|]. apply Forall_Forall2_diag, Forall_forall.
    intros im _. apply same_image_refl.
Qed.

(** X6: a detection that the three guards skip (confidence below the
    threshold, category off the whitelist, or classifications already
    there) is exactly the same after any run, one that ends in an
    exception included: an existing non-empty [classifications] list is
    never overwritten. *)
Theorem skipped_detection_untouched (json_with_classes : DetectionResult)
    (iImage iBox : nat) (im : ImageRecord) (d : Detection) :
  images json_with_classes !! iImage = Some im →
  detections im !! iBox = Some d →
  should_classify d = false →
  ∃ im', images (classify_boxes json_with_classes).2 !! iImage = Some im' ∧
         detections im' !! iBox = Some d.
Proof.
  intros Him Hd Hs. rewrite classify_boxes_run.
  destruct (classification_categories json_with_classes) as [c|]; cbn [snd];
    [|by exists im].
  cbn [set_images images].
  destruct (run_list_lookup_cases classify_image _ _ _ Him) as [H|H];
    [by exists im|].
  eexists. split; [exact H|].
  unfold classify_image.
  destruct (load_image (image_path image_dir im)) as [img|]; [|done].
  pose proof (run_list_lookup_cases (classify_detection img) _ _ _ Hd) as H'.
  rewrite (classify_detection_skip img d Hs) in H'. cbn [snd] in H'.
  destruct (run_list (classify_detection img) (detections im)) as [r ds].
  cbn [snd set_detections detections] in *. by destruct H'.
Qed.

(** The image loop ends normally when the classifier answers on every
    crop it is given and the indices kept from argsort are within its
    answer. *)
Lemma classify_images_return (ims : list ImageRecord) :
  (∀ im img d, im ∈ ims →
     load_image (image_path image_dir im) = Some img →
     d ∈ detections im → should_classify d = true →
     ∃ predictions, sess_run (cropped_img img d) = Ok predictions ∧
       Forall (λ i, (i < length predictions)%nat) (top_classes predictions)) →
  (run_list classify_image ims).1 = None.
Proof.
  intros H.
  destruct (run_list classify_image ims).1 as [e|] eqn:Hrun; [|done]. exfalso.
  destruct (run_list_exception classify_image ims e Hrun) as (im & Him & Hex).
  destruct (classify_image_exception im e Hex) as (img & d & Hl & Hd & Hde).
  destruct (classify_detection_exception img d e Hde) as [Hs Hcause].
  destruct (H im img d Him Hl Hd Hs) as (predictions & Hp & Hrange).
  destruct Hcause as [Hexc|(_ & p & k & Hp' & Hk & Hlen)]; [congruence|].
  rewrite Hp in Hp'. injection Hp' as <-.
  eapply Forall_forall in Hrange; [|exact Hk]. lia.
Qed.

(** X7: when [classify_boxes] returns normally.  For a whitelist that
    is a list of strings and a graph the session can be opened on (what
    the set-up of lines 118-130 asks of its caller), on an object with a
    vocabulary: if the classifier returns scores on the crop of every
    selected detection of every image that loads, and the indices kept
    from argsort are within those scores, then [classify_boxes] returns
    normally, however many images fail to load. *)
Theorem classify_boxes_returns (json_with_classes : DetectionResult)
    (cats : list (string * string)) :
  classification_categories json_with_classes = Some cats →
  (∀ im img d, im ∈ images json_with_classes →
     load_image (image_path image_dir im) = Some img →
     d ∈ detections im → should_classify d = true →
     ∃ predictions, sess_run (cropped_img img d) = Ok predictions ∧
       Forall (λ i, (i < length predictions)%nat) (top_classes predictions)) →
  (classify_boxes json_with_classes).1 = Ok tt.
Proof.
  intros Hc H. rewrite classify_boxes_run, Hc. cbn [fst].
  by rewrite (classify_images_return _ H).
Qed.

(** X8: batches compose: when the run on the images [pre] returns
    normally, the run on [pre ++ post] is that run followed by the run on
    [post]: each image is treated on its own, in list order. *)
Theorem classify_boxes_batches (cats : list (string * string))
    (pre post pre' post' : list ImageRecord) (r : result unit) :
  classify_boxes (mkDetectionResult (Some cats) pre)
    = (Ok tt, mkDetectionResult (Some cats) pre') →
  classify_boxes (mkDetectionResult (Some cats) post)
    = (r, mkDetectionResult (Some cats) post') →
  classify_boxes (mkDetectionResult (Some cats) (pre ++ post))
    = (r, mkDetectionResult (Some cats) (pre' ++ post')).
Proof.
  rewrite !classify_boxes_run. cbn [classification_categories images set_images].
  intros [= H1 <-] [= <- <-]. apply result_of_Ok in H1.
  rewrite run_list_app.
  destruct (run_list classify_image pre) as [r1 l1]. cbn [fst snd] in *. by subst r1.
Qed.

(** X9: when the guards select no detection at all (an empty whitelist,
    say), the run returns normally and changes nothing, whether or not
    the images load and whatever the classifier would do. *)
Theorem nothing_selected_is_noop (json_with_classes : DetectionResult)
    (cats : list (string * string)) :
  classification_categories json_with_classes = Some cats →
  (∀ im d, im ∈ images json_with_classes → d ∈ detections im →
     should_classify d = false) →
  classify_boxes json_with_classes = (Ok tt, json_with_classes).
Proof.
  intros Hc H. rewrite classify_boxes_run, Hc.
  rewrite (run_list_fixed classify_image).
  - cbn [fst snd result_of]. by rewrite set_images_id.
  - intros im Him. unfold classify_image.
    destruct (load_image (image_path image_dir im)) as [img|]; [|done].
    rewrite (run_list_fixed (classify_detection img)).
    + by rewrite set_detections_id.
    + intros d Hd. apply classify_detection_skip. by apply (H im).
Qed.

End ClassifyBoxesFurther.

Section ClassifierAgreement.
Context {pixels : Type}.
Variable load_image : string → option (Image pixels).
Variable sess_run sess_run' : CroppedImage pixels → result (list float).
Variable argsort : list float → list nat.
Variable image_dir : string.
Variable confidence_threshold : float.
Variable detection_category_whitelist : list string.
Variable padding_factor : float.
Variable num_annotated_classes : Z.

Local Abbreviation classify_boxes_with sess :=
  (classify_boxes load_image sess argsort image_dir confidence_threshold
     detection_category_whitelist padding_factor num_annotated_classes).

(** X10: the classifier is consulted on the crops of the selected
    detections of the images that load, and on nothing else: two
    classifiers that agree on those crops give the same run, outcome and
    object. *)
Theorem classifier_only_on_selected (json_with_classes : DetectionResult) :
  (∀ im img d, im ∈ images json_with_classes →
     load_image (image_path image_dir im) = Some img →
     d ∈ detections im →
     should_classify confidence_threshold detection_category_whitelist d = true →
     sess_run' (cropped_img padding_factor img d) = sess_run (cropped_img padding_factor img d)) →
  classify_boxes_with sess_run' json_with_classes
  = classify_boxes_with sess_run json_with_classes.
Proof.
  intros H. rewrite !classify_boxes_run.
  destruct (classification_categories json_with_classes) as [c|]; [|done].
  rewrite (run_list_ext _
    (classify_image load_image sess_run argsort image_dir confidence_threshold
       detection_category_whitelist padding_factor num_annotated_classes)); [done|].
  intros im Him. unfold classify_image.
  destruct (load_image (image_path image_dir im)) as [img|] eqn:Hl; [|done].
  rewrite (run_list_ext _
    (classify_detection sess_run argsort confidence_threshold
       detection_category_whitelist padding_factor num_annotated_classes img)); [done|].
  intros d Hd. unfold classify_detection.
  destruct (should_classify confidence_threshold detection_category_whitelist d) eqn:Hs;
    [|done].
  by rewrite (H im img d Him Hl Hd Hs).
Qed.

End ClassifierAgreement.

(** ** classify_boxes: edges of the box loop *)

Section BoxLoopEdges.
Context {pixels : Type}.
Variable sess_run : CroppedImage pixels → result (list float).
Variable argsort : list float → list nat.
Variable confidence_threshold : float.
Variable detection_category_whitelist : list string.
Variable padding_factor : float.
Variable num_annotated_classes : Z.

Local Abbreviation should_classify :=
  (should_classify confidence_threshold detection_category_whitelist).
Local Abbreviation cropped_img := (cropped_img padding_factor).
Local Abbreviation top_classes := (top_classes argsort num_annotated_classes).
Local Abbreviation process_box :=
  (process_box sess_run argsort confidence_threshold detection_category_whitelist
     padding_factor num_annotated_classes).

(** The body of the box loop on a selected detection, when the indices
    kept from argsort are within the classifier's outputs. *)
Lemma process_box_selected (j : DetectionResult) (iImage iBox : nat)
    (im : ImageRecord) (img : Image pixels) (d : Detection) (predictions : list float) :
  images j !! iImage = Some im →
  detections im !! iBox = Some d →
  should_classify d = true →
  sess_run (cropped_img img d) = Ok predictions →
  Forall (λ i, (i < length predictions)%nat) (top_classes predictions) →
  process_box img iImage iBox j
  = (Ok tt,
     set_images
       (<[iImage := set_detections
            (<[iBox := set_classifications
                         (entries predictions (top_classes predictions)) d]>
               (detections im)) im]>
          (images j)) j).
Proof.
  intros Him Hd Hs Hp Htr.
  rewrite (process_box_run sess_run argsort confidence_threshold
             detection_category_whitelist padding_factor num_annotated_classes
             img iImage iBox d j); [|by eexists| ].
  2:{ unfold detections_at. by rewrite Him. }
  unfold classify_detection. rewrite Hs, Hp.
  rewrite (append_all_in_range predictions _ [] Htr).
  cbn [fst snd result_of app]. f_equal.
  unfold detections_at. rewrite Him.
  by apply put_detections_at_images.
Qed.

(** X11: the confidence guard is the comparison [conf < threshold], which
    is false as soon as either side is a NaN: a detection whose
    confidence is NaN is never skipped for its confidence, and under a
    NaN threshold no detection is; the two other guards alone decide. *)
Theorem nan_confidence_not_skipped (d : Detection) :
  F64.isnan (conf d) = true ∨ F64.isnan confidence_threshold = true →
  should_classify d
  = bool_decide (category d ∈ detection_category_whitelist) && negb (already_classified d).
Proof.
  intros H. unfold should_classify.
  assert (Hlt : F64.lt (conf d) confidence_threshold = false).
  { unfold F64.lt, SFltb.
    destruct H as [H|H].
    - destruct (conf d); try discriminate H. done.
    - destruct confidence_threshold; try discriminate H.
      by destruct (conf d) as [| [] | |[] ? ?]. }
  by rewrite Hlt.
Qed.

(** X12: a negative [num_annotated_classes] is not rejected and does not
    give an empty list: [[:n]] with [n < 0] drops the last [-n] indices,
    so the list written holds the classes in argsort's order but the
    [-n] last ones, max(0, outputs + n) entries in all. *)
Theorem negative_num_annotated_classes (j : DetectionResult) (iImage iBox : nat)
    (im : ImageRecord) (img : Image pixels) (d : Detection) (predictions : list float) :
  images j !! iImage = Some im →
  detections im !! iBox = Some d →
  should_classify d = true →
  sess_run (cropped_img img d) = Ok predictions →
  num_annotated_classes < 0 →
  argsort_spec (map F64.neg predictions) (argsort (map F64.neg predictions)) →
  let kept := Z.to_nat (Z.of_nat (length predictions) + num_annotated_classes) in
  let l := entries predictions (take kept (argsort (map F64.neg predictions))) in
  process_box img iImage iBox j
  = (Ok tt,
     set_images
       (<[iImage := set_detections (<[iBox := set_classifications l d]> (detections im)) im]>
          (images j)) j) ∧
  length l = kept.
Proof.
  intros Him Hd Hs Hp HK Hspec kept l.
  destruct (argsort_spec_in_range _ _ Hspec) as [Hlen Hrange].
  rewrite length_map in Hlen, Hrange.
  assert (Htop : top_classes predictions = take kept (argsort (map F64.neg predictions))).
  { unfold top_classes, slice_to, slice_adjust. rewrite Hlen.
    destruct (Z.ltb_spec num_annotated_classes 0); [|lia].
    f_equal. unfold kept. lia. }
  split.
  - rewrite (process_box_selected j iImage iBox im img d predictions Him Hd Hs Hp).
    + by rewrite Htop.
    + rewrite Htop. by apply Forall_take.
  - unfold l, entries. rewrite length_fmap, length_take, Hlen. unfold kept. lia.
Qed.

(** X13: with [num_annotated_classes = 0] a selected detection gets the
    empty list [classifications = []] (the classifier is still run); an
    empty list does not count as classified, so the detection is selected
    again by the next run. *)
Theorem empty_classifications_stay_eligible (j : DetectionResult) (iImage iBox : nat)
    (im : ImageRecord) (img : Image pixels) (d : Detection) (predictions : list float) :
  images j !! iImage = Some im →
  detections im !! iBox = Some d →
  should_classify d = true →
  sess_run (cropped_img img d) = Ok predictions →
  num_annotated_classes = 0 →
  process_box img iImage iBox j
  = (Ok tt,
     set_images
       (<[iImage := set_detections (<[iBox := set_classifications [] d]> (detections im)) im]>
          (images j)) j) ∧
  should_classify (set_classifications [] d) = true.
Proof.
  intros Him Hd Hs Hp HK.
  assert (Htop : top_classes predictions = []).
  { unfold top_classes, slice_to, slice_adjust. rewrite HK.
    cbn [Z.ltb Z.compare]. replace (Z.min 0 _) with 0 by lia. done. }
  split.
  - rewrite (process_box_selected j iImage iBox im img d predictions Him Hd Hs Hp).
    + by rewrite Htop.
    + rewrite Htop. constructor.
  - unfold should_classify in *. cbn [conf category set_classifications].
    apply andb_true_iff in Hs as [Hs _]. rewrite Hs. done.
Qed.

(** The indices kept are a prefix of argsort's result, whatever
    [num_annotated_classes] is. *)
Lemma top_classes_take (predictions : list float) :
  ∃ n : nat, top_classes predictions = take n (argsort (map F64.neg predictions)).
Proof. unfold top_classes, slice_to. by eexists. Qed.

Lemma process_box_top (j : DetectionResult) (iImage iBox : nat)
    (im : ImageRecord) (img : Image pixels) (d : Detection) (predictions : list float) :
  images j !! iImage = Some im →
  detections im !! iBox = Some d →
  should_classify d = true →
  sess_run (cropped_img img d) = Ok predictions →
  argsort_spec (map F64.neg predictions) (argsort (map F64.neg predictions)) →
  process_box img iImage iBox j
  = (Ok tt,
     set_images
       (<[iImage := set_detections
            (<[iBox := set_classifications
                         (entries predictions (top_classes predictions)) d]>
               (detections im)) im]>
          (images j)) j).
Proof.
  intros Him Hd Hs Hp Hspec. apply process_box_selected; try done.
  destruct (argsort_spec_in_range _ _ Hspec) as [_ Hrange].
  rewrite length_map in Hrange.
  destruct (top_classes_take predictions) as [n ->]. by apply Forall_take.
Qed.

Lemma entries_lookup (predictions : list float) (idx : list nat) (k : nat)
    (c : string) (s : float) :
  Forall (λ i, (i < length predictions)%nat) idx →
  entries predictions idx !! k = Some (c, s) →
  ∃ i : nat, idx !! k = Some i ∧ c = pretty i ∧ predictions !! i = Some s.
Proof.
  intros Hr Hk. unfold entries in Hk. rewrite list_lookup_fmap in Hk.
  destruct (idx !! k) as [i|] eqn:Hi; [|done]. cbn in Hk. injection Hk as <- <-.
  exists i. split; [done|]. split; [done|].
  assert (Hin : (i < length predictions)%nat).
  { eapply Forall_forall in Hr; [exact Hr|]. by eapply list_elem_of_lookup_2. }
  destruct (lookup_lt_is_Some_2 predictions i Hin) as [s ->]. done.
Qed.

(** X14: the classes written are the top ones: with an argsort result
    that meets NumPy's contract, no class that was left out of the list
    has a score strictly greater than the score of a class that is in it,
    whatever [num_annotated_classes] is. *)
Theorem kept_classes_outscore_the_rest (j : DetectionResult) (iImage iBox : nat)
    (im : ImageRecord) (img : Image pixels) (d : Detection) (predictions : list float) :
  images j !! iImage = Some im →
  detections im !! iBox = Some d →
  should_classify d = true →
  sess_run (cropped_img img d) = Ok predictions →
  argsort_spec (map F64.neg predictions) (argsort (map F64.neg predictions)) →
  ∃ l : list ClassificationResult,
    process_box img iImage iBox j
    = (Ok tt,
       set_images
         (<[iImage := set_detections (<[iBox := set_classifications l d]> (detections im)) im]>
            (images j)) j) ∧
    ∀ (c : string) (s : float) (i : nat) (s' : float),
      (c, s) ∈ l → predictions !! i = Some s' → pretty i ∉ l.*1 →
      F64.lt s s' = false.
Proof.
  intros Him Hd Hs Hp Hspec.
  exists (entries predictions (top_classes predictions)).
  split; [by apply process_box_top|].
  destruct (argsort_spec_in_range _ _ Hspec) as [Hlen Hrange].
  rewrite length_map in Hlen, Hrange.
  destruct Hspec as [Hperm Hsorted].
  destruct (top_classes_take predictions) as [n ->].
  set (idx := argsort (map F64.neg predictions)) in *.
  intros c s i s' Hin Hi Hout.
  apply list_elem_of_lookup in Hin as [k Hk].
  destruct (entries_lookup predictions (take n idx) k c s) as (a & Ha & -> & Hsa);
    [by apply Forall_take|done|].
  apply lookup_take_Some in Ha as [Ha Hkn].
  assert (Hiidx : i ∈ idx).
  { rewrite Hperm. apply elem_of_seq. rewrite length_map.
    apply lookup_lt_Some in Hi. lia. }
  apply list_elem_of_lookup in Hiidx as [m Hm].
  assert (Hnm : (n ≤ m)%nat).
  { destruct (decide (n ≤ m)%nat) as [|Hlt]; [done|]. exfalso. apply Hout.
    apply list_elem_of_fmap. exists (pretty i, s'). split; [done|].
    apply list_elem_of_lookup. exists m. unfold entries.
    rewrite list_lookup_fmap, lookup_take_lt by lia. rewrite Hm. cbn. by rewrite Hi. }
  rewrite <- (lt_neg_neg s s').
  apply (Hsorted k m a i (F64.neg s) (F64.neg s')); [lia|done|done|..].
  - by rewrite list_lookup_fmap, Hsa.
  - by rewrite list_lookup_fmap, Hi.
Qed.

(** X15: no class is listed twice in the list written; and when
    [num_annotated_classes] is at least the number of classifier outputs,
    every class is listed, once. *)
Theorem class_ids_distinct (j : DetectionResult) (iImage iBox : nat)
    (im : ImageRecord) (img : Image pixels) (d : Detection) (predictions : list float) :
  images j !! iImage = Some im →
  detections im !! iBox = Some d →
  should_classify d = true →
  sess_run (cropped_img img d) = Ok predictions →
  argsort_spec (map F64.neg predictions) (argsort (map F64.neg predictions)) →
  ∃ l : list ClassificationResult,
    process_box img iImage iBox j
    = (Ok tt,
       set_images
         (<[iImage := set_detections (<[iBox := set_classifications l d]> (detections im)) im]>
            (images j)) j) ∧
    NoDup l.*1 ∧
    (Z.of_nat (length predictions) ≤ num_annotated_classes →
     l.*1 ≡ₚ pretty <$> seq 0 (length predictions)).
Proof.
  intros Him Hd Hs Hp Hspec.
  exists (entries predictions (top_classes predictions)).
  split; [by apply process_box_top|].
  destruct (argsort_spec_in_range _ _ Hspec) as [Hlen Hrange].
  rewrite length_map in Hlen.
  destruct Hspec as [Hperm _]. rewrite length_map in Hperm.
  assert (Hkeys : ∀ idx, (entries predictions idx).*1 = pretty <$> idx).
  { intros idx. unfold entries. rewrite <- list_fmap_compose. done. }
  rewrite Hkeys. split.
  - destruct (top_classes_take predictions) as [n ->].
    apply NoDup_fmap_2; [apply _|].
    apply (sublist_NoDup _ (argsort (map F64.neg predictions))); [|apply sublist_take].
    rewrite Hperm. apply NoDup_seq.
  - intros HK. unfold top_classes, slice_to, slice_adjust.
    destruct (Z.ltb_spec num_annotated_classes 0); [lia|].
    rewrite take_ge by (rewrite Hlen; lia).
    by rewrite Hperm.
Qed.

End BoxLoopEdges.

Lemma run_list_None_inv {A} (f : A → option exception * A) (l : list A) :
  (run_list f l).1 = None →
  ∀ i a', (run_list f l).2 !! i = Some a' →
    ∃ a, l !! i = Some a ∧ (f a).1 = None ∧ a' = (f a).2.
Proof.
  intros Hr i a' Hi.
  assert (Hlt : (i < length l)%nat)
    by (rewrite <- (run_list_length f l); by eapply lookup_lt_Some).
  destruct (lookup_lt_is_Some_2 l i Hlt) as [a Ha].
  destruct (run_list_None_lookup f l Hr i a Ha) as [Hfa Hi'].
  exists a. split; [done|]. split; [done|]. congruence.
Qed.

Lemma append_all_length (predictions : list float) (idx : list nat) :
  ∀ acc l, append_all predictions idx acc = (None, l) →
  length l = (length acc + length idx)%nat.
Proof.
  induction idx as [|i idx IH]; intros acc l; cbn [append_all].
  - intros [= <-]. cbn. lia.
  - destruct (predictions !! i) as [score|]; [|done].
    intros H. rewrite (IH _ _ H), length_app. cbn. lia.
Qed.

Section NothingLeft.
Context {pixels : Type}.
Variable load_image : string → option (Image pixels).
Variable sess_run : CroppedImage pixels → result (list float).
Variable argsort : list float → list nat.
Variable image_dir : string.
Variable confidence_threshold : float.
Variable detection_category_whitelist : list string.
Variable padding_factor : float.
Variable num_annotated_classes : Z.

Local Abbreviation should_classify :=
  (should_classify confidence_threshold detection_category_whitelist).
Local Abbreviation classify_detection :=
  (classify_detection sess_run argsort confidence_threshold detection_category_whitelist
     padding_factor num_annotated_classes).
Local Abbreviation classify_image :=
  (classify_image load_image sess_run argsort image_dir confidence_threshold
     detection_category_whitelist padding_factor num_annotated_classes).
Local Abbreviation classify_boxes :=
  (classify_boxes load_image sess_run argsort image_dir confidence_threshold
     detection_category_whitelist padding_factor num_annotated_classes).

Hypothesis at_least_one_class : 1 ≤ num_annotated_classes.
Hypothesis some_output : ∀ c predictions, sess_run c = Ok predictions → predictions ≠ [].
Hypothesis argsort_length : ∀ v, length (argsort v) = length v.

Lemma classify_detection_done (img : Image pixels) (d d' : Detection) :
  classify_detection img d = (None, d') → should_classify d' = false.
Proof.
  unfold classify_detection.
  destruct (should_classify d) eqn:Hs; [|by intros [= <-]].
  destruct (sess_run (cropped_img padding_factor img d)) as [predictions|e] eqn:Hp; [|done].
  destruct (append_all predictions _ []) as [r l] eqn:Ha.
  intros [= -> <-]. apply append_all_length in Ha. cbn [length] in Ha.
  assert (Hl : l ≠ []).
  { intros ->. cbn [length] in Ha. revert Ha.
    unfold top_classes, slice_to, slice_adjust.
    rewrite length_take, argsort_length, length_map.
    pose proof (some_output _ _ Hp) as Hne.
    destruct predictions as [|x predictions]; [done|]. cbn [length].
    destruct (Z.ltb_spec num_annotated_classes 0); lia. }
  unfold should_classify, already_classified. cbn [classifications set_classifications].
  destruct l; [done|]. by rewrite andb_false_r.
Qed.

(** X16: when at least one class is asked for and the classifier
    always has at least one output, a run that returns normally leaves
    nothing to classify: in its result no detection of an image that
    loads passes the three guards, so a second run does not consult the
    classifier at all. *)
Theorem nothing_left_to_classify (json_with_classes once : DetectionResult)
    (iImage : nat) (im : ImageRecord) (d : Detection) :
  classify_boxes json_with_classes = (Ok tt, once) →
  images once !! iImage = Some im →
  is_Some (load_image (image_path image_dir im)) →
  d ∈ detections im →
  should_classify d = false.
Proof.
  rewrite classify_boxes_run.
  destruct (classification_categories json_with_classes) as [c|]; [|done].
  intros [= Hr <-] Him [img Hl] Hd. apply result_of_Ok in Hr.
  cbn [set_images images] in Him.
  destruct (run_list_None_inv classify_image _ Hr _ _ Him) as (im0 & _ & Hok & ->).
  revert Hok Hl Hd. unfold classify_image.
  destruct (load_image (image_path image_dir im0)) as [img0|] eqn:Hl0.
  - destruct (run_list (classify_detection img0) (detections im0)) as [r ds] eqn:Hrun.
    cbn [fst snd set_detections detections]. intros -> _ Hd.
    apply list_elem_of_lookup in Hd as [iBox Hd].
    assert (Hr' : (run_list (classify_detection img0) (detections im0)).1 = None)
      by by rewrite Hrun.
    assert (Hd' : (run_list (classify_detection img0) (detections im0)).2 !! iBox = Some d)
      by by rewrite Hrun.
    destruct (run_list_None_inv _ _ Hr' _ _ Hd') as (d0 & _ & Hok & ->).
    apply (classify_detection_done img0 d0).
    by destruct (classify_detection img0 d0) as [r0 d0']; cbn [fst snd] in *; subst.
  - cbn [fst snd]. intros _ Hl. congruence.
Qed.

End NothingLeft.

Section MoreClasses.
Context {pixels : Type}.
Variable sess_run : CroppedImage pixels → result (list float).
Variable argsort : list float → list nat.
Variable confidence_threshold : float.
Variable detection_category_whitelist : list string.
Variable padding_factor : float.

Local Abbreviation process_box_with K :=
  (process_box sess_run argsort confidence_threshold detection_category_whitelist
     padding_factor K).

(** X17: asking for more classes only extends the list: for
    [0 <= K <= K'], the list written with [num_annotated_classes = K] is
    the first [K] entries of the list written with [K']. *)
Theorem more_classes_extend_the_list (K K' : Z) (j : DetectionResult) (iImage iBox : nat)
    (im : ImageRecord) (img : Image pixels) (d : Detection) (predictions : list float) :
  images j !! iImage = Some im →
  detections im !! iBox = Some d →
  should_classify confidence_threshold detection_category_whitelist d = true →
  sess_run (cropped_img padding_factor img d) = Ok predictions →
  0 ≤ K ≤ K' →
  argsort_spec (map F64.neg predictions) (argsort (map F64.neg predictions)) →
  ∃ l l' : list ClassificationResult,
    process_box_with K img iImage iBox j
    = (Ok tt,
       set_images
         (<[iImage := set_detections (<[iBox := set_classifications l d]> (detections im)) im]>
            (images j)) j) ∧
    process_box_with K' img iImage iBox j
    = (Ok tt,
       set_images
         (<[iImage := set_detections (<[iBox := set_classifications l' d]> (detections im)) im]>
            (images j)) j) ∧
    l = take (Z.to_nat K) l'.
Proof.
  intros Him Hd Hs Hp HK Hspec.
  exists (entries predictions (top_classes argsort K predictions)),
         (entries predictions (top_classes argsort K' predictions)).
  split; [by apply process_box_top|]. split; [by apply process_box_top|].
  unfold top_classes. rewrite !slice_to_nonneg by lia.
  unfold entries. rewrite <- fmap_take, take_take. do 2 f_equal. lia.
Qed.

End MoreClasses.

Section VocabularyAndClassifier.
Context {pixels : Type}.
Variable read_text : string → option string.
Variable sess_run : CroppedImage pixels → result (list float).
Variable argsort : list float → list nat.
Variable confidence_threshold : float.
Variable detection_category_whitelist : list string.
Variable padding_factor : float.
Variable num_annotated_classes : Z.

(** X18: the class ids written resolve in the vocabulary built from the
    classes file: when that file has at least as many class names as the
    classifier has outputs, building the vocabulary and then classifying
    a selected detection pairs every score with a key of the vocabulary,
    and the name under that key is the line, among the non-blank lines
    and counting from 0, whose number is the index of the score in the
    classifier's output. *)
Theorem class_ids_resolve (classes_file text : string) (json_object : DetectionResult)
    (iImage iBox : nat) (im : ImageRecord) (img : Image pixels) (d : Detection)
    (predictions : list float) :
  classification_categories json_object = None →
  read_text classes_file = Some text →
  images json_object !! iImage = Some im →
  detections im !! iBox = Some d →
  should_classify confidence_threshold detection_category_whitelist d = true →
  sess_run (cropped_img padding_factor img d) = Ok predictions →
  argsort_spec (map F64.neg predictions) (argsort (map F64.neg predictions)) →
  (length predictions ≤ length (class_names_of text))%nat →
  ∃ (cats : list (string * string)) (l : list ClassificationResult),
    (add_classification_categories read_text classes_file ;;
     process_box sess_run argsort confidence_threshold detection_category_whitelist
       padding_factor num_annotated_classes img iImage iBox) json_object
    = (Ok tt,
       mkDetectionResult (Some cats)
         (<[iImage := set_detections (<[iBox := set_classifications l d]> (detections im)) im]>
            (images json_object))) ∧
    ∀ (c : string) (s : float), (c, s) ∈ l →
      ∃ (i : nat) (name : string),
        c = pretty i ∧ predictions !! i = Some s ∧
        class_names_of text !! i = Some name ∧ (c, name) ∈ cats.
Proof.
  intros Hc Hr Him Hd Hs Hp Hspec HN.
  set (names := class_names_of text).
  exists (zip (pretty <$> seq 0 (length names)) names),
         (entries predictions (top_classes argsort num_annotated_classes predictions)).
  split.
  - rewrite bind_run, add_classification_categories_run, Hc, Hr. cbv beta iota zeta.
    by rewrite (process_box_top sess_run argsort confidence_threshold
                  detection_category_whitelist padding_factor num_annotated_classes
                  _ iImage iBox im img d predictions).
  - destruct (argsort_spec_in_range _ _ Hspec) as [_ Hrange].
    rewrite length_map in Hrange.
    destruct (top_classes_take argsort num_annotated_classes predictions) as [n ->].
    intros c s Hin. apply list_elem_of_lookup in Hin as [k Hk].
    destruct (entries_lookup predictions (take n (argsort (map F64.neg predictions))) k c s)
      as (i & _ & -> & Hsi); [by apply Forall_take|done|].
    assert (Hi : (i < length names)%nat) by (apply lookup_lt_Some in Hsi; unfold names; lia).
    destruct (lookup_lt_is_Some_2 names i Hi) as [name Hname].
    exists i, name. split; [done|]. split; [done|]. split; [done|].
    apply list_elem_of_lookup. exists i. apply lookup_zip_with_Some.
    exists (pretty i), name. split; [done|]. split; [|done].
    by rewrite list_lookup_fmap, lookup_seq_lt.
Qed.

End VocabularyAndClassifier.

(** X19: lowering the confidence threshold never unselects a detection:
    for finite numbers, a detection selected under a threshold is
    selected under every smaller one. *)
Theorem lower_threshold_selects_more (threshold threshold' : float)
    (detection_category_whitelist : list string) (d : Detection) :
  F64.valid (conf d) = true → F64.valid threshold = true → F64.valid threshold' = true →
  is_finite (conf d) → is_finite threshold → is_finite threshold' →
  F64.ge threshold' threshold = true →
  should_classify threshold' detection_category_whitelist d = true →
  should_classify threshold detection_category_whitelist d = true.
Proof.
  unfold F64.valid. intros Hc Ht Ht'. apply valid_binary_wf in Hc, Ht, Ht'.
  intros Hfc Hft Hft' Hge. unfold F64.ge in Hge. apply SFleb_sval in Hge; try done.
  unfold should_classify. intros H.
  apply andb_true_iff in H as [H Hdone]. apply andb_true_iff in H as [Hconf Hcat].
  rewrite Hcat, Hdone, !andb_true_r.
  revert Hconf. unfold F64.lt, SFltb.
  rewrite (SFcompare_sval (conf d) threshold'), (SFcompare_sval (conf d) threshold) by done.
  destruct (Z.compare_spec (sval (conf d)) (sval threshold')) as [E'|E'|E']; [|done|];
    destruct (Z.compare_spec (sval (conf d)) (sval threshold)) as [E|E|E];
    try done; intros _; exfalso;
    generalize dependent (sval (conf d)); generalize dependent (sval threshold);
    generalize (sval threshold'); intros; lia.
Qed.

(** ** The crop rectangle is not inverted *)

(** On one axis, the clamped and truncated lower coordinate of the box
    is at most the upper one. *)
Lemma axis_ordered (a1 a2 o : float) :
  wf a1 → wf a2 → is_finite a1 → is_finite a2 → sval a1 ≤ sval a2 →
  offset_form o →
  castable (maximum (F64.of_int 0) (F64.add a2 o)) →
  clamp_int a1 ≤ clamp_int a2.
Proof.
  intros Hw1 Hw2 Hf1 Hf2 Hle Ho Hcast.
  assert (Hfo : is_finite o ∧ exponent_ok o ∧ 0 ≤ sval o).
  { destruct o as [so|so| |so mo eo]; try done.
    - cbn in Ho. subst so. apply castable_finite in Hcast.
      destruct a2 as [s2|s2| |s2 m2 e2]; try done;
        cbn in Hcast; by destruct Hcast.
    - apply castable_finite in Hcast.
      destruct a2 as [s2|s2| |s2 m2 e2]; try done;
        cbn in Hcast; by destruct Hcast.
    - destruct Ho as [-> Heo]. split; [done|]. split; [done|].
      cbn [sval cond_Zopp]. pose proof (sc_pos (Zpos mo) eo). lia. }
  destruct Hfo as (Hfo & Heo & Hso).
  destruct (add_order a2 o Hw2 Hf2 Hfo Heo) as (Hn2 & He2 & Hge2 & _).
  specialize (Hge2 Hso).
  set (hi := F64.add a2 o) in *. clearbody hi.
  assert (Hfh : is_finite hi).
  { destruct (castable_finite hi Hcast) as [?|E]; [done|].
    rewrite E in Hge2. by cbn in Hge2. }
  destruct (clamp_int_finite hi Hfh He2) as [_ Hhi]. specialize (Hhi Hcast).
  assert (Hv2 : sval a2 ≤ sval hi) by (destruct hi; done).
  pose proof (cl_mono a1 a2 Hle) as Hc12. pose proof (cl_mono a2 hi Hv2) as Hc2h.
  pose proof (cl_nonneg a1). pose proof (cl_nonneg a2).
  destruct (clamp_int_finite a1 Hf1 (wf_exponent_ok a1 Hw1)) as [E1 _].
  destruct (clamp_int_finite a2 Hf2 (wf_exponent_ok a2 Hw2)) as [E2 _].
  rewrite E1, E2, !int64_cast_id by lia. done.
Qed.

(** X20: for a finite padding factor of at least 1 and a box whose pixel
    coordinates are finite with [ymin <= ymax] and [xmin <= xmax],
    whenever the upper padded coordinates are in the range of the integer
    cast, the crop rectangle is not inverted: [y0 <= y1] and [x0 <= x1],
    so the slice [image_data[y0:y1, x0:x1]] is taken between ordered
    bounds. *)
Theorem crop_not_inverted (image_height image_width : Z)
    (padding_factor : float) (box_orig : Box) :
  let a := box_coords_abs image_height image_width box_orig in
  let p := padded_boxes padding_factor a in
  let c := crop_box image_height image_width padding_factor box_orig in
  F64.valid (x_min box_orig) = true → F64.valid (y_min box_orig) = true →
  F64.valid (width_of_box box_orig) = true → F64.valid (height_of_box box_orig) = true →
  F64.valid padding_factor = true → is_finite padding_factor →
  F64.ge padding_factor (F64.of_int 1) = true →
  is_finite (r_ymin a) → is_finite (r_xmin a) →
  is_finite (r_ymax a) → is_finite (r_xmax a) →
  F64.ge (r_ymax a) (r_ymin a) = true →
  F64.ge (r_xmax a) (r_xmin a) = true →
  castable (maximum (F64.of_int 0) (r_ymax p)) →
  castable (maximum (F64.of_int 0) (r_xmax p)) →
  r_ymin c ≤ r_ymax c ∧ r_xmin c ≤ r_xmax c.
Proof.
  intros a p c Hx Hy Hw Hh Hp. unfold F64.valid in *.
  apply valid_binary_wf in Hx, Hy, Hw, Hh, Hp.
  intros Hfp Hp1 Hf1 Hf2 Hf3 Hf4 Hoy Hox Hcy Hcx.
  pose proof (crop_contains image_height image_width padding_factor box_orig
                Hx Hy Hw Hh Hp Hfp Hp1 Hf1 Hf2 Hf3 Hf4 Hoy Hox Hcy Hcx) as H.
  cbv zeta in H. fold a in H. fold c in H.
  destruct (at_least_one padding_factor Hp Hfp Hp1) as (mp & ep & -> & Hcp & H1).
  assert (Hw1 : wf (r_ymin a)) by (apply mul_wf; [done|apply of_int_wf]).
  assert (Hw2 : wf (r_xmin a)) by (apply mul_wf; [done|apply of_int_wf]).
  assert (Hw3 : wf (r_ymax a)) by (apply mul_wf; [by apply add_wf|apply of_int_wf]).
  assert (Hw4 : wf (r_xmax a)) by (apply mul_wf; [by apply add_wf|apply of_int_wf]).
  unfold F64.ge in Hoy, Hox.
  apply SFleb_sval in Hoy; try done. apply SFleb_sval in Hox; try done.
  pose proof (sub_nonneg _ _ Hw1 Hw3 Hf1 Hf3 Hoy) as Hsh.
  pose proof (sub_nonneg _ _ Hw2 Hw4 Hf2 Hf4 Hox) as Hsw.
  pose proof (offsets_form mp ep _ _ _ Hcp H1 Hsh Hsw (or_introl eq_refl)) as Ho1.
  pose proof (offsets_form mp ep _ _ _ Hcp H1 Hsh Hsw (or_intror eq_refl)) as Ho2.
  pose proof (axis_ordered _ _ _ Hw1 Hw3 Hf1 Hf3 Hoy Ho1 Hcy) as Hy01.
  pose proof (axis_ordered _ _ _ Hw2 Hw4 Hf2 Hf4 Hox Ho2 Hcx) as Hx01.
  destruct H as (H1' & H2' & H3' & H4').
  clearbody a c. lia.
Qed.

Lemma crop_not_inverted_witness :
  let c := crop_box 300 400 PADDING_FACTOR Bench.box2 in
  r_ymin c ≤ r_ymax c ∧ r_xmin c ≤ r_xmax c.
Proof.
  intros c.
  refine (crop_not_inverted 300 400 PADDING_FACTOR Bench.box2
            _ _ _ _ _ _ _ _ _ _ _ _ _ _ _).
  1-5: vm_compute; reflexivity.
  1: vm_compute; exact I.
  1: vm_compute; reflexivity.
  1-4: vm_compute; exact I.
  1-2: vm_compute; reflexivity.
  1-2: eexists; split; [vm_compute; reflexivity|unfold INT64_MIN; lia].
Defined.

(** ** load_and_run_classifier *)

Section LoadAndRunProperties.
Context {pixels graph detector : Type}.
Variable load_model : string → result graph.
Variable json_load : string → result DetectionResult.
Variable read_text : string → option string.
Variable load_image : string → option (Image pixels).
Variable sess_run : graph → CroppedImage pixels → result (list float).
Variable argsort : list float → list nat.
Variable open_wt : string → bool.

Variable classifier_file classes_file image_dir : string.
Variable detector_json_file output_json_file : string.
Variable confidence_threshold padding_factor : float.
Variable num_annotated_classes : Z.
Variable detection_category_whitelist : list string.
Variable detection_graph : detector.

Local Abbreviation run :=
  (load_and_run_classifier load_model json_load read_text load_image sess_run argsort
     open_wt classifier_file classes_file image_dir detector_json_file output_json_file
     confidence_threshold padding_factor num_annotated_classes
     detection_category_whitelist detection_graph).
Local Abbreviation classify_boxes_on g :=
  (classify_boxes load_image (sess_run g) argsort image_dir confidence_threshold
     detection_category_whitelist padding_factor num_annotated_classes).
Local Abbreviation classify_image_on g :=
  (classify_image load_image (sess_run g) argsort image_dir confidence_threshold
     detection_category_whitelist padding_factor num_annotated_classes).
Local Abbreviation classify_detection_on g :=
  (classify_detection (sess_run g) argsort confidence_threshold
     detection_category_whitelist padding_factor num_annotated_classes).

(** The graph that the call classifies with: the one it was given, or
    the one [load_model] returns. *)
Lemma graph_in_use (classification_graph : option graph) (g : graph) :
  classification_graph = Some g ∨
    (classification_graph = None ∧ load_model classifier_file = Ok g) →
  match classification_graph with
  | None => load_model classifier_file
  | Some g' => Ok g'
  end = Ok g.
Proof. by intros [->|[-> ->]]. Qed.

(** X21: the output file is written last, after everything that can
    raise: if the classifier of the graph in use (the graph given, or
    with [classification_graph = None] the one that [load_model]
    returns) raises on the crop of one selected detection of one image
    that loads, wherever it is in the batch, [load_and_run_classifier]
    raises and writes no file at all; the classifications computed
    before that are lost. *)
Theorem classifier_failure_writes_nothing (classification_graph : option graph)
    (g : graph) (detector_json : DetectionResult)
    (im : ImageRecord) (img : Image pixels) (d : Detection) (e : exception) :
  classification_graph = Some g ∨
    (classification_graph = None ∧ load_model classifier_file = Ok g) →
  json_load detector_json_file = Ok detector_json →
  im ∈ images detector_json →
  load_image (image_path image_dir im) = Some img →
  d ∈ detections im →
  should_classify confidence_threshold detection_category_whitelist d = true →
  sess_run g (cropped_img padding_factor img d) = Exc e →
  ∃ e', run classification_graph = (Exc e', None).
Proof.
  intros Hg Hj Him Hl Hd Hs He. unfold load_and_run_classifier.
  rewrite (graph_in_use _ _ Hg), Hj.
  rewrite add_classification_categories_run.
  assert (Hraise : ∀ u, images u = images detector_json →
            is_Some (classification_categories u) →
            ∃ e' u', classify_boxes_on g u = (Exc e', u')).
  { intros u Hu [c Hc]. rewrite classify_boxes_run, Hc, Hu.
    assert (Hdet : is_Some (classify_detection_on g img d).1)
      by (unfold classify_detection; rewrite Hs, He; by eexists).
    assert (Himg : is_Some (classify_image_on g im).1).
    { unfold classify_image. rewrite Hl.
      pose proof (run_list_raises _ _ _ Hd Hdet) as Hr.
      by destruct (run_list (classify_detection_on g img) (detections im)). }
    destruct (run_list_raises _ _ _ Him Himg) as [e' He'].
    rewrite He'. cbn [result_of]. by eexists _, _. }
  destruct (classification_categories detector_json) as [c|] eqn:Hc.
  - destruct (Hraise detector_json eq_refl) as (e' & u' & ->); [by eexists|].
    by exists e'.
  - destruct (read_text classes_file) as [text|]; [|by exists IOError].
    cbv beta iota zeta.
    match goal with |- context [classify_boxes _ _ _ _ _ _ _ _ ?u] =>
      destruct (Hraise u eq_refl) as (e' & u' & ->); [by eexists|] end.
    by exists e'.
Qed.

(** X22: when a file is written, it is [output_json_file], the call
    returns the detection graph it was given, and the document written
    has the images of the detector's document, in the same order, with
    the same file names and the same detections up to their
    [classifications]; its vocabulary is the detector's when that had
    one, and otherwise the one built from the classes file. *)
Theorem written_document (classification_graph : option graph)
    (detector_json doc : DetectionResult) (path : string) :
  json_load detector_json_file = Ok detector_json →
  (run classification_graph).2 = Some (path, doc) →
  path = output_json_file ∧
  (∃ g, (run classification_graph).1 = Ok (detection_graph, g)) ∧
  Forall2 same_image (images detector_json) (images doc) ∧
  match classification_categories detector_json with
  | Some c => classification_categories doc = Some c
  | None =>
      ∃ text, read_text classes_file = Some text ∧
        classification_categories doc
        = Some (zip (pretty <$> seq 0 (length (class_names_of text))) (class_names_of text))
  end.
Proof.
  intros Hj. unfold load_and_run_classifier.
  destruct (match classification_graph with
            | Some g => Ok g
            | None => load_model classifier_file
            end) as [g|]; [|done].
  rewrite Hj, add_classification_categories_run.
  assert (Hdoc : ∀ u, images u = images detector_json →
            ∀ r u', classify_boxes_on g u = (r, u') →
            classification_categories u' = classification_categories u ∧
            Forall2 same_image (images detector_json) (images u')).
  { intros u Hu r u'. rewrite classify_boxes_run, <- Hu.
    destruct (classification_categories u) as [c|] eqn:Hcu.
    - intros [= _ <-]. split; [exact Hcu|]. cbn [set_images images].
      apply run_list_Forall2; [apply same_image_refl|apply classify_image_same].
    - intros [= _ <-]. split; [done|].
      apply Forall_Forall2_diag, Forall_forall. intros x _. apply same_image_refl. }
  destruct (classification_categories detector_json) as [c|] eqn:Hc.
  - destruct (classify_boxes_on g detector_json) as [[[]|] u'] eqn:Hrun; [|done].
    destruct (Hdoc detector_json eq_refl _ _ Hrun) as [Hcats Hims].
    destruct (open_wt output_json_file); [|done].
    cbn [fst snd]. intros [= <- <-].
    split; [done|]. split; [by exists g|]. split; [done|]. by rewrite Hcats.
  - destruct (read_text classes_file) as [text|]; [|done]. cbv beta iota zeta.
    match goal with |- context [classify_boxes _ _ _ _ _ _ _ _ ?u] =>
      destruct (classify_boxes_on g u) as [[[]|] u'] eqn:Hrun; [|done];
      destruct (Hdoc u eq_refl _ _ Hrun) as [Hcats Hims] end.
    destruct (open_wt output_json_file); [|done].
    cbn [fst snd]. intros [= <- <-].
    split; [done|]. split; [by exists g|]. split; [done|]. by exists text.
Qed.

(** X23: when [load_and_run_classifier] returns normally.  For a
    whitelist that is a list of strings and a graph the session can be
    opened on: if the graph is given or [load_model] returns one, the
    detector file can be read, the document has a vocabulary or the
    classes file can be read, the classifier of that graph returns
    scores on the crop of every selected detection of every image that
    loads, with the indices kept from argsort within those scores, and
    the output file can be written, then the call returns the detection
    graph it was given with the graph in use and writes
    [output_json_file]. *)
Theorem load_and_run_returns (classification_graph : option graph) (g : graph)
    (detector_json : DetectionResult) :
  classification_graph = Some g ∨
    (classification_graph = None ∧ load_model classifier_file = Ok g) →
  json_load detector_json_file = Ok detector_json →
  is_Some (classification_categories detector_json) ∨ is_Some (read_text classes_file) →
  (∀ im img d, im ∈ images detector_json →
     load_image (image_path image_dir im) = Some img →
     d ∈ detections im →
     should_classify confidence_threshold detection_category_whitelist d = true →
     ∃ predictions, sess_run g (cropped_img padding_factor img d) = Ok predictions ∧
       Forall (λ i, (i < length predictions)%nat)
         (top_classes argsort num_annotated_classes predictions)) →
  open_wt output_json_file = true →
  ∃ doc, run classification_graph
         = (Ok (detection_graph, g), Some (output_json_file, doc)).
Proof.
  intros Hg Hj Hvoc Hcls Hw. unfold load_and_run_classifier.
  rewrite (graph_in_use _ _ Hg), Hj, Hw.
  rewrite add_classification_categories_run.
  assert (Hok : ∀ u, images u = images detector_json →
            is_Some (classification_categories u) →
            ∃ u', classify_boxes_on g u = (Ok tt, u')).
  { intros u Hu [c Hc]. rewrite classify_boxes_run, Hc, Hu.
    rewrite (classify_images_return load_image (sess_run g) argsort image_dir
               confidence_threshold detection_category_whitelist padding_factor
               num_annotated_classes (images detector_json) Hcls).
    cbn [result_of]. by eexists. }
  destruct (classification_categories detector_json) as [c|] eqn:Hc.
  - destruct (Hok detector_json eq_refl) as (u' & ->); [by eexists|].
    by exists u'.
  - destruct Hvoc as [[? ?]|[text Hr]]; [done|]. rewrite Hr.
    cbv beta iota zeta.
    match goal with |- context [classify_boxes _ _ _ _ _ _ _ _ ?u] =>
      destruct (Hok u eq_refl) as (u' & ->); [by eexists|] end.
    by exists u'.
Qed.

End LoadAndRunProperties.

Section Rerun.
Context {pixels graph detector : Type}.
Variable load_model : string → result graph.
Variable json_load json_load' : string → result DetectionResult.
Variable read_text read_text' : string → option string.
Variable load_image : string → option (Image pixels).
Variable sess_run : graph → CroppedImage pixels → result (list float).
Variable argsort : list float → list nat.
Variable open_wt : string → bool.

Variable classifier_file image_dir : string.
Variable confidence_threshold padding_factor : float.
Variable num_annotated_classes : Z.
Variable detection_category_whitelist : list string.
Variable detection_graph : detector.
Variable classification_graph : option graph.

(** X24: feeding [load_and_run_classifier] its own output.  If a call
    wrote the document [doc], then a call with the same model, images
    and settings on a detector file that holds [doc] writes [doc] again,
    unchanged, whatever the classes file is now (it is not read, the
    vocabulary being there). *)
Theorem rerun_on_own_output
    (classes_file classes_file' detector_json_file detector_json_file' : string)
    (output_json_file output_json_file' : string)
    (v : detector * graph) (doc : DetectionResult) :
  load_and_run_classifier load_model json_load read_text load_image sess_run argsort
    open_wt classifier_file classes_file image_dir detector_json_file output_json_file
    confidence_threshold padding_factor num_annotated_classes
    detection_category_whitelist detection_graph classification_graph
  = (Ok v, Some (output_json_file, doc)) →
  json_load' detector_json_file' = Ok doc →
  open_wt output_json_file' = true →
  load_and_run_classifier load_model json_load' read_text' load_image sess_run argsort
    open_wt classifier_file classes_file' image_dir detector_json_file' output_json_file'
    confidence_threshold padding_factor num_annotated_classes
    detection_category_whitelist detection_graph classification_graph
  = (Ok v, Some (output_json_file', doc)).
Proof.
  unfold load_and_run_classifier. intros H Hj' Hw'.
  destruct (match classification_graph with
            | Some g => Ok g
            | None => load_model classifier_file
            end) as [g|]; [|done].
  rewrite Hj', Hw'.
  destruct (json_load detector_json_file) as [dj|]; [|done].
  destruct (add_classification_categories read_text classes_file dj) as [[[]|] u]; [|done].
  revert H. rewrite classify_boxes_run.
  destruct (classification_categories u) as [c|] eqn:Hc; [|done].
  destruct (run_list _ (images u)) as [[e|] ims] eqn:Hrun; cbn [fst snd result_of]; [done|].
  destruct (open_wt output_json_file); [|done].
  intros [= <- <-].
  rewrite add_classification_categories_run.
  cbn [set_images classification_categories]. rewrite Hc. cbv beta iota.
  rewrite classify_boxes_run. cbn [set_images classification_categories images].
  rewrite Hc.
  rewrite (run_list_idempotent _ _ _
             (classify_image_again load_image (sess_run g) argsort image_dir
                confidence_threshold detection_category_whitelist padding_factor
                num_annotated_classes) Hrun).
  done.
Qed.

End Rerun.

(** ** The theorems above on the test benches *)

Lemma skipped_detection_untouched_witness :
  ∃ im', images (Bench.run Bench.json_bad_crop).2 !! 1%nat = Some im' ∧
         detections im' !! 0%nat = Some Bench.det_low.
Proof.
  refine (skipped_detection_untouched Bench.load_image Bench.sess_run Bench.argsort ""
            DEFAULT_CONFIDENCE_THRESHOLD DETECTION_CATEGORY_WHITELIST PADDING_FACTOR 2
            Bench.json_bad_crop 1 0
            (mkImageRecord "b.jpg" [Bench.det_low; Bench.det_point; Bench.det1])
            Bench.det_low _ _ _).
  - reflexivity.
  - reflexivity.
  - vm_compute. reflexivity.
Defined.

Lemma classifier_only_on_selected_witness :
  classify_boxes Bench.load_image Sample.sess_run_total Bench.argsort ""
    DEFAULT_CONFIDENCE_THRESHOLD DETECTION_CATEGORY_WHITELIST PADDING_FACTOR 2 Bench.json3
  = Bench.run Bench.json3.
Proof.
  refine (classifier_only_on_selected Bench.load_image Bench.sess_run
            Sample.sess_run_total Bench.argsort "" DEFAULT_CONFIDENCE_THRESHOLD
            DETECTION_CATEGORY_WHITELIST PADDING_FACTOR 2 Bench.json3 _).
  intros im img d Him Hl Hd Hs.
  assert (img = mkImage 300 400 tt) as ->.
  { unfold Bench.load_image in Hl. destruct (String.eqb _ _); [done|]. by injection Hl. }
  clear Hl. unfold Bench.json3 in Him. cbn [images] in Him.
  repeat (apply elem_of_cons in Him as [->|Him]); [..|by apply elem_of_nil in Him];
    cbn [detections] in Hd;
    repeat (apply elem_of_cons in Hd as [->|Hd]);
    try (by apply elem_of_nil in Hd);
    try (vm_compute in Hs; discriminate Hs);
    vm_compute; reflexivity.
Defined.

Lemma classify_boxes_returns_witness :
  (Bench.run Bench.json3).1 = Ok tt.
Proof.
  refine (classify_boxes_returns Bench.load_image Bench.sess_run Bench.argsort ""
            DEFAULT_CONFIDENCE_THRESHOLD DETECTION_CATEGORY_WHITELIST PADDING_FACTOR 2
            Bench.json3 _ eq_refl _).
  intros im img d Him Hl Hd Hs.
  assert (img = mkImage 300 400 tt) as ->.
  { unfold Bench.load_image in Hl. destruct (String.eqb _ _); [done|]. by injection Hl. }
  clear Hl. unfold Bench.json3 in Him. cbn [images] in Him.
  repeat (apply elem_of_cons in Him as [->|Him]); [..|by apply elem_of_nil in Him];
    cbn [detections] in Hd;
    repeat (apply elem_of_cons in Hd as [->|Hd]);
    try (by apply elem_of_nil in Hd);
    try (vm_compute in Hs; discriminate Hs);
    (exists Bench.predictions; split; [vm_compute; reflexivity|];
     vm_compute; repeat constructor).
Defined.

Lemma classify_boxes_batches_witness :
  Bench.run
    (mkDetectionResult Bench.categories
       ([mkImageRecord "a.jpg" [Bench.det1; Bench.det_low]] ++
        [mkImageRecord "missing.jpg" [Bench.det1];
         mkImageRecord "c.jpg" [Bench.det_person; Bench.det1; Bench.det_done]]))
  = (Ok tt,
     mkDetectionResult Bench.categories
       ([mkImageRecord "a.jpg" [Bench.classified Bench.det1; Bench.det_low]] ++
        [mkImageRecord "missing.jpg" [Bench.det1];
         mkImageRecord "c.jpg"
           [Bench.det_person; Bench.classified Bench.det1; Bench.det_done]])).
Proof.
  refine (classify_boxes_batches Bench.load_image Bench.sess_run Bench.argsort ""
            DEFAULT_CONFIDENCE_THRESHOLD DETECTION_CATEGORY_WHITELIST PADDING_FACTOR 2
            _ _ _ _ _ (Ok tt) _ _).
  - vm_compute. reflexivity.
  - vm_compute. reflexivity.
Defined.

Lemma nothing_selected_is_noop_witness :
  classify_boxes Bench.load_image Bench.sess_run Bench.argsort ""
    DEFAULT_CONFIDENCE_THRESHOLD [] PADDING_FACTOR 2 Bench.json3
  = (Ok tt, Bench.json3).
Proof.
  refine (nothing_selected_is_noop Bench.load_image Bench.sess_run Bench.argsort ""
            DEFAULT_CONFIDENCE_THRESHOLD [] PADDING_FACTOR 2 Bench.json3 _ eq_refl _).
  intros im d _ _. unfold should_classify.
  rewrite bool_decide_eq_false_2 by apply not_elem_of_nil.
  by rewrite andb_false_r.
Defined.

Lemma nan_confidence_not_skipped_witness :
  should_classify DEFAULT_CONFIDENCE_THRESHOLD DETECTION_CATEGORY_WHITELIST Sample.det_nan
  = bool_decide (category Sample.det_nan ∈ DETECTION_CATEGORY_WHITELIST)
    && negb (already_classified Sample.det_nan).
Proof.
  exact (nan_confidence_not_skipped DEFAULT_CONFIDENCE_THRESHOLD
           DETECTION_CATEGORY_WHITELIST Sample.det_nan (or_introl eq_refl)).
Defined.

Lemma negative_num_annotated_classes_witness :
  let kept := Z.to_nat (Z.of_nat (length Bench.predictions) + -1) in
  let l := entries Bench.predictions
             (take kept (Bench.argsort (map F64.neg Bench.predictions))) in
  process_box Bench.sess_run Bench.argsort DEFAULT_CONFIDENCE_THRESHOLD
    DETECTION_CATEGORY_WHITELIST PADDING_FACTOR (-1) (mkImage 300 400 tt) 0 0 Bench.json1
  = (Ok tt,
     set_images
       (<[0%nat := set_detections
                     (<[0%nat := set_classifications l Bench.det1]> [Bench.det1])
                     (mkImageRecord "a.jpg" [Bench.det1])]>
          (images Bench.json1)) Bench.json1) ∧
  length l = kept.
Proof.
  refine (negative_num_annotated_classes Bench.sess_run Bench.argsort
            DEFAULT_CONFIDENCE_THRESHOLD DETECTION_CATEGORY_WHITELIST PADDING_FACTOR (-1)
            Bench.json1 0 0 (mkImageRecord "a.jpg" [Bench.det1]) (mkImage 300 400 tt)
            Bench.det1 Bench.predictions _ _ _ _ _ _).
  - reflexivity.
  - reflexivity.
  - vm_compute. reflexivity.
  - vm_compute. reflexivity.
  - lia.
  - exact argsort_spec_bench.
Defined.

Lemma empty_classifications_stay_eligible_witness :
  process_box Bench.sess_run Bench.argsort DEFAULT_CONFIDENCE_THRESHOLD
    DETECTION_CATEGORY_WHITELIST PADDING_FACTOR 0 (mkImage 300 400 tt) 0 0 Bench.json1
  = (Ok tt,
     set_images
       (<[0%nat := set_detections
                     (<[0%nat := set_classifications [] Bench.det1]> [Bench.det1])
                     (mkImageRecord "a.jpg" [Bench.det1])]>
          (images Bench.json1)) Bench.json1) ∧
  should_classify DEFAULT_CONFIDENCE_THRESHOLD DETECTION_CATEGORY_WHITELIST
    (set_classifications [] Bench.det1) = true.
Proof.
  refine (empty_classifications_stay_eligible Bench.sess_run Bench.argsort
            DEFAULT_CONFIDENCE_THRESHOLD DETECTION_CATEGORY_WHITELIST PADDING_FACTOR 0
            Bench.json1 0 0 (mkImageRecord "a.jpg" [Bench.det1]) (mkImage 300 400 tt)
            Bench.det1 Bench.predictions _ _ _ _ _).
  - reflexivity.
  - reflexivity.
  - vm_compute. reflexivity.
  - vm_compute. reflexivity.
  - reflexivity.
Defined.

Lemma classifier_failure_writes_nothing_witness :
  ∃ e',
    load_and_run_classifier Sample.load_model Sample.json_load_bad Sample.read_text
      Bench.load_image Sample.sess_run Bench.argsort (λ _, true)
      "model.pb" "classes.txt" "" "detections.json" "out.json"
      DEFAULT_CONFIDENCE_THRESHOLD PADDING_FACTOR 2 DETECTION_CATEGORY_WHITELIST tt None
    = (Exc e', None).
Proof.
  refine (classifier_failure_writes_nothing Sample.load_model Sample.json_load_bad
            Sample.read_text Bench.load_image Sample.sess_run Bench.argsort (λ _, true)
            "model.pb" "classes.txt" "" "detections.json" "out.json"
            DEFAULT_CONFIDENCE_THRESHOLD PADDING_FACTOR 2 DETECTION_CATEGORY_WHITELIST tt
            None tt Bench.json_bad_crop
            (mkImageRecord "b.jpg" [Bench.det_low; Bench.det_point; Bench.det1])
            (mkImage 300 400 tt) Bench.det_point (RuntimeError "empty crop")
            _ _ _ _ _ _ _).
  - right. split; reflexivity.
  - reflexivity.
  - apply list_elem_of_further, list_elem_of_here.
  - reflexivity.
  - apply list_elem_of_further, list_elem_of_here.
  - vm_compute. reflexivity.
  - vm_compute. reflexivity.
Defined.

Lemma written_document_witness :
  "out.json" = "out.json" ∧
  (∃ g, (Sample.run "detections.json" "out.json").1 = Ok (tt, g)) ∧
  Forall2 same_image (images Sample.detector_json) (images Sample.classified_doc) ∧
  ∃ text, Sample.read_text "classes.txt" = Some text ∧
    classification_categories Sample.classified_doc
    = Some (zip (pretty <$> seq 0 (length (class_names_of text))) (class_names_of text)).
Proof.
  refine (written_document Sample.load_model Sample.json_load Sample.read_text
            Bench.load_image Sample.sess_run Bench.argsort (λ _, true)
            "model.pb" "classes.txt" "" "detections.json" "out.json"
            DEFAULT_CONFIDENCE_THRESHOLD PADDING_FACTOR 2 DETECTION_CATEGORY_WHITELIST tt
            None Sample.detector_json Sample.classified_doc "out.json" _ _).
  - reflexivity.
  - vm_compute. reflexivity.
Defined.

Lemma load_and_run_returns_witness :
  ∃ doc, Sample.run "detections.json" "out.json"
         = (Ok (tt, tt), Some ("out.json", doc)).
Proof.
  refine (load_and_run_returns Sample.load_model Sample.json_load Sample.read_text
            Bench.load_image Sample.sess_run Bench.argsort (λ _, true)
            "model.pb" "classes.txt" "" "detections.json" "out.json"
            DEFAULT_CONFIDENCE_THRESHOLD PADDING_FACTOR 2 DETECTION_CATEGORY_WHITELIST tt
            None tt Sample.detector_json _ _ _ _ _).
  - right. split; reflexivity.
  - reflexivity.
  - right. by eexists.
  - intros im img d Him Hl Hd Hs.
    assert (img = mkImage 300 400 tt) as ->.
    { unfold Bench.load_image in Hl. destruct (String.eqb _ _); [done|]. by injection Hl. }
    clear Hl. unfold Sample.detector_json, Bench.json3 in Him. cbn [images] in Him.
    repeat (apply elem_of_cons in Him as [->|Him]); [..|by apply elem_of_nil in Him];
      cbn [detections] in Hd;
      repeat (apply elem_of_cons in Hd as [->|Hd]);
      try (by apply elem_of_nil in Hd);
      try (vm_compute in Hs; discriminate Hs);
      (exists Bench.predictions; split; [vm_compute; reflexivity|];
       vm_compute; repeat constructor).
  - reflexivity.
Defined.

Lemma rerun_on_own_output_witness :
  load_and_run_classifier Sample.load_model Sample.json_load_out Sample.read_text_none
    Bench.load_image Sample.sess_run Bench.argsort (λ _, true)
    "model.pb" "gone.txt" "" "out.json" "out2.json"
    DEFAULT_CONFIDENCE_THRESHOLD PADDING_FACTOR 2 DETECTION_CATEGORY_WHITELIST tt None
  = (Ok (tt, tt), Some ("out2.json", Sample.classified_doc)).
Proof.
  refine (rerun_on_own_output Sample.load_model Sample.json_load Sample.json_load_out
            Sample.read_text Sample.read_text_none Bench.load_image Sample.sess_run
            Bench.argsort (λ _, true) "model.pb" ""
            DEFAULT_CONFIDENCE_THRESHOLD PADDING_FACTOR 2 DETECTION_CATEGORY_WHITELIST tt
            None "classes.txt" "gone.txt" "detections.json" "out.json" "out.json" "out2.json"
            (tt, tt) Sample.classified_doc _ _ _).
  - vm_compute. reflexivity.
  - reflexivity.
  - reflexivity.
Defined.

Lemma kept_classes_outscore_the_rest_witness :
  ∃ l : list ClassificationResult,
    process_box Bench.sess_run Bench.argsort DEFAULT_CONFIDENCE_THRESHOLD
      DETECTION_CATEGORY_WHITELIST PADDING_FACTOR 2 (mkImage 300 400 tt) 0 0 Bench.json1
    = (Ok tt,
       set_images
         (<[0%nat := set_detections
                       (<[0%nat := set_classifications l Bench.det1]> [Bench.det1])
                       (mkImageRecord "a.jpg" [Bench.det1])]>
            (images Bench.json1)) Bench.json1) ∧
    ∀ (c : string) (s : float) (i : nat) (s' : float),
      (c, s) ∈ l → Bench.predictions !! i = Some s' → pretty i ∉ l.*1 →
      F64.lt s s' = false.
Proof.
  refine (kept_classes_outscore_the_rest Bench.sess_run Bench.argsort
            DEFAULT_CONFIDENCE_THRESHOLD DETECTION_CATEGORY_WHITELIST PADDING_FACTOR 2
            Bench.json1 0 0 (mkImageRecord "a.jpg" [Bench.det1]) (mkImage 300 400 tt)
            Bench.det1 Bench.predictions _ _ _ _ _).
  - reflexivity.
  - reflexivity.
  - vm_compute. reflexivity.
  - vm_compute. reflexivity.
  - exact argsort_spec_bench.
Defined.

Lemma class_ids_distinct_witness :
  ∃ l : list ClassificationResult,
    process_box Bench.sess_run Bench.argsort DEFAULT_CONFIDENCE_THRESHOLD
      DETECTION_CATEGORY_WHITELIST PADDING_FACTOR 3 (mkImage 300 400 tt) 0 0 Bench.json1
    = (Ok tt,
       set_images
         (<[0%nat := set_detections
                       (<[0%nat := set_classifications l Bench.det1]> [Bench.det1])
                       (mkImageRecord "a.jpg" [Bench.det1])]>
            (images Bench.json1)) Bench.json1) ∧
    NoDup l.*1 ∧
    (Z.of_nat (length Bench.predictions) ≤ 3 →
     l.*1 ≡ₚ pretty <$> seq 0 (length Bench.predictions)).
Proof.
  refine (class_ids_distinct Bench.sess_run Bench.argsort
            DEFAULT_CONFIDENCE_THRESHOLD DETECTION_CATEGORY_WHITELIST PADDING_FACTOR 3
            Bench.json1 0 0 (mkImageRecord "a.jpg" [Bench.det1]) (mkImage 300 400 tt)
            Bench.det1 Bench.predictions _ _ _ _ _).
  - reflexivity.
  - reflexivity.
  - vm_compute. reflexivity.
  - vm_compute. reflexivity.
  - exact argsort_spec_bench.
Defined.

Lemma more_classes_extend_the_list_witness :
  ∃ l l' : list ClassificationResult,
    process_box Bench.sess_run Bench.argsort DEFAULT_CONFIDENCE_THRESHOLD
      DETECTION_CATEGORY_WHITELIST PADDING_FACTOR 1 (mkImage 300 400 tt) 0 0 Bench.json1
    = (Ok tt,
       set_images
         (<[0%nat := set_detections
                       (<[0%nat := set_classifications l Bench.det1]> [Bench.det1])
                       (mkImageRecord "a.jpg" [Bench.det1])]>
            (images Bench.json1)) Bench.json1) ∧
    process_box Bench.sess_run Bench.argsort DEFAULT_CONFIDENCE_THRESHOLD
      DETECTION_CATEGORY_WHITELIST PADDING_FACTOR 2 (mkImage 300 400 tt) 0 0 Bench.json1
    = (Ok tt,
       set_images
         (<[0%nat := set_detections
                       (<[0%nat := set_classifications l' Bench.det1]> [Bench.det1])
                       (mkImageRecord "a.jpg" [Bench.det1])]>
            (images Bench.json1)) Bench.json1) ∧
    l = take (Z.to_nat 1) l'.
Proof.
  refine (more_classes_extend_the_list Bench.sess_run Bench.argsort
            DEFAULT_CONFIDENCE_THRESHOLD DETECTION_CATEGORY_WHITELIST PADDING_FACTOR 1 2
            Bench.json1 0 0 (mkImageRecord "a.jpg" [Bench.det1]) (mkImage 300 400 tt)
            Bench.det1 Bench.predictions _ _ _ _ _ _).
  - reflexivity.
  - reflexivity.
  - vm_compute. reflexivity.
  - vm_compute. reflexivity.
  - lia.
  - exact argsort_spec_bench.
Defined.

Lemma class_ids_resolve_witness :
  ∃ (cats : list (string * string)) (l : list ClassificationResult),
    (add_classification_categories Sample.read_text "classes.txt" ;;
     process_box Bench.sess_run Bench.argsort DEFAULT_CONFIDENCE_THRESHOLD
       DETECTION_CATEGORY_WHITELIST PADDING_FACTOR 2 (mkImage 300 400 tt) 0 0)
      Sample.detector_json
    = (Ok tt,
       mkDetectionResult (Some cats)
         (<[0%nat := set_detections
                       (<[0%nat := set_classifications l Bench.det1]>
                          [Bench.det1; Bench.det_low])
                       (mkImageRecord "a.jpg" [Bench.det1; Bench.det_low])]>
            (images Sample.detector_json))) ∧
    ∀ (c : string) (s : float), (c, s) ∈ l →
      ∃ (i : nat) (name : string),
        c = pretty i ∧ Bench.predictions !! i = Some s ∧
        class_names_of Sample.classes_text !! i = Some name ∧ (c, name) ∈ cats.
Proof.
  refine (class_ids_resolve Sample.read_text Bench.sess_run Bench.argsort
            DEFAULT_CONFIDENCE_THRESHOLD DETECTION_CATEGORY_WHITELIST PADDING_FACTOR 2
            "classes.txt" Sample.classes_text Sample.detector_json 0 0
            (mkImageRecord "a.jpg" [Bench.det1; Bench.det_low]) (mkImage 300 400 tt)
            Bench.det1 Bench.predictions _ _ _ _ _ _ _ _).
  - reflexivity.
  - reflexivity.
  - reflexivity.
  - reflexivity.
  - vm_compute. reflexivity.
  - vm_compute. reflexivity.
  - exact argsort_spec_bench.
  - vm_compute. lia.
Defined.

Lemma lower_threshold_selects_more_witness :
  should_classify (F64.lit 5 10) DETECTION_CATEGORY_WHITELIST Bench.det1 = true.
Proof.
  refine (lower_threshold_selects_more (F64.lit 5 10) DEFAULT_CONFIDENCE_THRESHOLD
            DETECTION_CATEGORY_WHITELIST Bench.det1 _ _ _ _ _ _ _ _).
  1-3: vm_compute; reflexivity.
  1-3: vm_compute; exact I.
  1-2: vm_compute; reflexivity.
Defined.

Lemma insert_index_length (v : list float) (i : nat) (sorted : list nat) :
  length (Bench.insert_index v i sorted) = S (length sorted).
Proof.
  induction sorted as [|k rest IH]; [done|]. cbn [Bench.insert_index].
  destruct (F64.lt _ _); cbn [length]; [by rewrite IH|done].
Qed.

Lemma bench_argsort_length (v : list float) : length (Bench.argsort v) = length v.
Proof.
  assert (H : ∀ l : list nat,
            length (foldr (λ i acc, Bench.insert_index v i acc) [] l) = length l).
  { induction l as [|i l IH]; [done|].
    cbn [foldr]. rewrite insert_index_length. cbn [length]. by rewrite IH. }
  unfold Bench.argsort. by rewrite H, length_seq.
Qed.

Lemma nothing_left_to_classify_witness :
  should_classify DEFAULT_CONFIDENCE_THRESHOLD DETECTION_CATEGORY_WHITELIST
    (Bench.classified Bench.det1) = false.
Proof.
  refine (nothing_left_to_classify Bench.load_image Bench.sess_run Bench.argsort ""
            DEFAULT_CONFIDENCE_THRESHOLD DETECTION_CATEGORY_WHITELIST PADDING_FACTOR 2
            _ _ _ Bench.json3 (Bench.run Bench.json3).2 0
            (mkImageRecord "a.jpg" [Bench.classified Bench.det1; Bench.det_low])
            (Bench.classified Bench.det1) _ _ _ _).
  - lia.
  - intros c predictions. unfold Bench.sess_run.
    destruct (_ || _); [discriminate|]. by intros [= <-].
  - exact bench_argsort_length.
  - vm_compute. reflexivity.
  - vm_compute. reflexivity.
  - by eexists.
  - apply list_elem_of_here.
Defined.
